(** * Payment-status reconciliation core of edviron_backend

    A shallow embedding of the order / status-ledger / webhook code.  The
    modules below follow the source files (paths under [src/], with the name
    the code imports them by):

    - [src/models/OrderStatus.js]: the status ledger and [upsertStatus];
    - [unnamed/part_005] ([models/Order.js]): [findByCustomOrderId],
      [updateStatus];
    - [unnamed/part_007] ([models/WebhookLog.js]): [createLog],
      [markAsProcessed], [markAsFailed];
    - [src/controllers/transactions.controller.js], from [class
      WebhookController] on ([controllers/webhook.controller.js]):
      [processWebhook], [parseWebhookPayload], [processWebhookData];
    - [src/config/env.js], [class PaymentController]: [checkPaymentStatus],
      the client-poll path;
    - [unnamed/part_001] ([utils/asyncHelpers.js]): [retryWithBackoff];
    - [src/services/paymentService.js]: [createCollectRequest],
      [checkPaymentStatus].

    Conventions.  A MongoDB collection is the list of its documents in
    insertion order; [findOne] returns the first document that matches.
    A Mongoose document is a record typed by its schema.  A value assigned to
    a path goes through the setter and the cast of the path: on a String path
    a number or a boolean becomes its string form, and the string is trimmed
    where the schema says [trim]; on a Number path a boolean becomes 0 or 1,
    the empty string becomes [null], and a string that is a decimal integer
    becomes that integer.  The value of a query filter goes through the same
    setter and cast.  Left out, and reported as cast errors like every other
    object: an object with an [_id] (which Mongoose casts through its [_id]),
    a filter value that is an object of query operators, and the numeric
    strings that are not decimal integers.  A string is a sequence of
    characters with codes below 256.  The [createdAt] / [updatedAt] stamps
    that Mongoose maintains are left out: two collections that are equal here
    are equal up to those stamps.  Numbers are integers ([Z]); the code
    compares and copies them only.  Calls of the logger are left out
    throughout. *)

From stdpp Require Import base decidable option list strings pretty sorting.
From Stdlib Require Import ZArith Lia Ascii String.

Set Warnings "-register-all".

Local Open Scope string_scope.
Local Open Scope list_scope.
Local Open Scope Z_scope.

(** ** JavaScript values *)

Module Js.

(** The values a JSON body can hold (arrays apart), plus [undefined].  An
    object is the list of its own properties, each key once. *)
Inductive JsVal : Type :=
| JUndefined
| JNull
| JBool (b : bool)
| JNum (n : Z)
| JStr (s : string)
| JObj (fields : list (string * JsVal)).

(** A [Date] object: a time value in milliseconds, or "Invalid Date". *)
Inductive JsDate : Type :=
| ValidDate (ms : Z)
| InvalidDate.

(** What the code reads from its environment: the clock ([new Date()], read
    once per request) and the conversion done by [new Date(value)]. *)
Record Runtime : Type := {
  now : Z;
  newDate : JsVal -> JsDate
}.

(** ToBoolean. *)
Definition truthy (v : JsVal) : bool :=
  match v with
  | JUndefined | JNull => false
  | JBool b => b
  | JNum n => negb (n =? 0)
  | JStr s => negb (String.eqb s "")
  | JObj _ => true
  end.

(** [a || b]. *)
Definition or_else (a b : JsVal) : JsVal := if truthy a then a else b.

Fixpoint assoc (k : string) (l : list (string * JsVal)) : JsVal :=
  match l with
  | [] => JUndefined
  | (k', v) :: l' => if String.eqb k k' then v else assoc k l'
  end.

(** [v.k] for a value [v] that is neither [undefined] nor [null]: an own
    property of an object, [undefined] on a primitive. *)
Definition prop (k : string) (v : JsVal) : JsVal :=
  match v with
  | JObj l => assoc k l
  | _ => JUndefined
  end.

Definition nullish (v : JsVal) : bool :=
  match v with
  | JUndefined | JNull => true
  | _ => false
  end.

(** [v === 'lit']. *)
Definition strict_eq_str (v : JsVal) (lit : string) : bool :=
  match v with
  | JStr s => String.eqb s lit
  | _ => false
  end.

(** [[l1, ..., ln].includes(v)] for string literals [li]. *)
Definition includes (lits : list string) (v : JsVal) : bool :=
  existsb (strict_eq_str v) lits.

(** ToString, as a template literal applies it. *)
Definition to_string (v : JsVal) : string :=
  match v with
  | JUndefined => "undefined"
  | JNull => "null"
  | JBool true => "true"
  | JBool false => "false"
  | JNum n => pretty n
  | JStr s => s
  | JObj _ => "[object Object]"
  end.

(** [s.split('/')]. *)
Fixpoint split_slash (s : string) : list string :=
  match s with
  | EmptyString => [EmptyString]
  | String c rest =>
      if Ascii.eqb c "/"%char then EmptyString :: split_slash rest
      else match split_slash rest with
           | hd :: tl => String c hd :: tl
           | [] => [String c EmptyString]
           end
  end.

(** The white space and line terminators that [trim] removes, among the
    characters with codes below 256: tab, line feed, vertical tab, form feed,
    carriage return, space and no-break space. *)
Definition is_space (c : ascii) : bool :=
  let n := N_of_ascii c in
  ((9 <=? n)%N && (n <=? 13)%N) || (n =? 32)%N || (n =? 160)%N.

Fixpoint trim_start (s : string) : string :=
  match s with
  | EmptyString => EmptyString
  | String c rest => if is_space c then trim_start rest else s
  end.

Fixpoint trim_end (s : string) : string :=
  match s with
  | EmptyString => EmptyString
  | String c rest =>
      match trim_end rest with
      | EmptyString => if is_space c then EmptyString else String c EmptyString
      | rest' => String c rest'
      end
  end.

(** [s.trim()]. *)
Definition trim (s : string) : string := trim_end (trim_start s).
Arguments trim : simpl never.

(** The value of a string of decimal digits, after the digits [acc] stands
    for. *)
Fixpoint digits_value (s : string) (acc : Z) : option Z :=
  match s with
  | EmptyString => Some acc
  | String c rest =>
      let n := Z.of_N (N_of_ascii c) in
      if (48 <=? n) && (n <=? 57) then digits_value rest (10 * acc + (n - 48))
      else None
  end.

(** [Number(s)] for a string that is a decimal integer with an optional sign,
    white space around it allowed (white space alone is 0); [None] for every
    other string, among them those for which [Number(s)] is [NaN]. *)
Definition integer_of_string (s : string) : option Z :=
  match trim s with
  | EmptyString => Some 0
  | String c rest =>
      if Ascii.eqb c "+"%char then
        match rest with
        | EmptyString => None
        | _ => digits_value rest 0
        end
      else if Ascii.eqb c "-"%char then
        match rest with
        | EmptyString => None
        | _ => Z.opp <$> digits_value rest 0
        end
      else digits_value (String c rest) 0
  end.


End Js.
Export Js.

(** ** Errors and the store *)

(** A thrown value.  [Error msg] is [new Error(msg)] and [AppError] the
    application's error class; the other two are the errors Mongoose raises on
    [save] and on a query, whose generated text is not reproduced: the model
    keeps the path that caused them. *)
Inductive JsError : Type :=
| Error (msg : string)
| AppError (msg : string) (statusCode : Z)
| ValidationError (path : string)
| DocumentNotFound.

(** [error.message]. *)
Definition message_of (e : JsError) : string :=
  match e with
  | Error msg => msg
  | AppError msg _ => msg
  | ValidationError path => "Validation failed: " +:+ path
  | DocumentNotFound => "No document found"
  end.

Inductive Res (A : Type) : Type :=
| Ok (a : A)
| Throw (e : JsError).
Arguments Ok {A} a.
Arguments Throw {A} e.

Definition ObjectId : Type := nat.
Bind Scope nat_scope with ObjectId.

(** The outcome of casting a value to a schema type. *)
Inductive Cast (A : Type) : Type :=
| CastOk (a : option A)
| CastError.
Arguments CastOk {A} a.
Arguments CastError {A}.

(** The cast of a String path: a number or a boolean becomes its string
    form. *)
Definition castString (v : JsVal) : Cast string :=
  match v with
  | JUndefined | JNull => CastOk None
  | JStr s => CastOk (Some s)
  | JNum _ | JBool _ => CastOk (Some (to_string v))
  | JObj _ => CastError
  end.

(** The [trim] setter of a String path, on the value the cast gives. *)
Definition trimmed (c : Cast string) : Cast string :=
  match c with
  | CastOk (Some s) => CastOk (Some (trim s))
  | _ => c
  end.

(** The cast of a Number path. *)
Definition castNumber (v : JsVal) : Cast Z :=
  match v with
  | JUndefined | JNull => CastOk None
  | JNum n => CastOk (Some n)
  | JBool b => CastOk (Some (if b then 1 else 0))
  | JStr s =>
      if String.eqb s "" then CastOk None
      else match integer_of_string s with
           | Some n => CastOk (Some n)
           | None => CastError
           end
  | JObj _ => CastError
  end.

Definition castDate (d : option JsDate) : Cast Z :=
  match d with
  | None => CastOk None
  | Some (ValidDate ms) => CastOk (Some ms)
  | Some InvalidDate => CastError
  end.

(** ** Documents *)

(** The object [parseWebhookPayload] builds: every field starts as [null]
    ([gateway] as ['edviron']) and is overwritten from the payload. *)
Record Parsed : Type := {
  p_custom_order_id : JsVal;
  p_collect_request_id : JsVal;
  p_transaction_id : JsVal;
  p_order_amount : JsVal;
  p_transaction_amount : JsVal;
  p_payment_mode : JsVal;
  p_payment_details : JsVal;
  p_bank_reference : JsVal;
  p_payment_message : JsVal;
  p_status : JsVal;
  p_error_message : JsVal;
  p_payment_time : option JsDate;
  p_gateway : JsVal
}.

(** A value on a [Mixed] path: stored as it is given. *)
Inductive Mixed : Type :=
| MixedAbsent
| MixedJs (v : JsVal)
| MixedParsed (p : Parsed).

(** The [statusData] object literal the callers of [upsertStatus] build. *)
Record StatusData : Type := {
  sd_order_amount : JsVal;
  sd_transaction_amount : JsVal;
  sd_payment_mode : JsVal;
  sd_payment_details : JsVal;
  sd_bank_reference : JsVal;
  sd_payment_message : JsVal;
  sd_status : JsVal;
  sd_error_message : JsVal;
  sd_payment_time : option JsDate;
  sd_transaction_id : JsVal;
  sd_gateway : JsVal;
  sd_vendor_data : Mixed
}.

(** A document of the OrderStatus collection (the status ledger). *)
Record OrderStatus : Type := {
  os_id : ObjectId;
  collect_id : ObjectId;
  order_amount : option Z;
  transaction_amount : option Z;
  payment_mode : option string;
  payment_details : JsVal;
  bank_reference : option string;
  payment_message : option string;
  status : option string;
  error_message : option string;
  payment_time : option Z;
  transaction_id : option string;
  gateway : option string;
  vendor_data : Mixed
}.

Record StudentInfo : Type := {
  student_name : string;
  student_id : string;
  student_email : string
}.

(** A document of the Order collection. *)
Record Order : Type := {
  o_id : ObjectId;
  o_school_id : string;
  o_trustee_id : option string;
  o_student_info : StudentInfo;
  o_gateway_name : string;
  o_custom_order_id : string;
  o_collect_request_id : option string;
  o_amount : Z;
  o_callback_url : string;
  o_status : option string;
  o_vendor_response : Mixed
}.

(** A document of the WebhookLog collection (a delivery record). *)
Record WebhookLog : Type := {
  wl_id : ObjectId;
  wl_raw_payload : JsVal;
  wl_parsed : option Parsed;
  wl_received_at : Z;
  wl_signature_valid : option bool;
  wl_processing_status : string;
  wl_processing_message : option string;
  wl_order_id : option ObjectId;
  wl_custom_order_id : option string;
  wl_collect_request_id : option string;
  wl_transaction_id : option string;
  wl_source_ip : option string;
  wl_user_agent : option string;
  wl_headers : JsVal;
  wl_retries : Z;
  wl_last_retry_at : option Z;
  wl_processed_at : option Z
}.

(** The three collections, and the next identifier [new Model(...)] hands
    out. *)
Record Db : Type := {
  orders : list Order;
  ledger : list OrderStatus;
  webhookLogs : list WebhookLog;
  nextId : ObjectId
}.

(** ** Asynchronous code over the store

    An [async] function reads and writes the store and either returns or
    throws; what it wrote before throwing stays written. *)
Definition M (A : Type) : Type := Db -> Res A * Db.

Definition ret {A} (a : A) : M A := fun db => (Ok a, db).
Definition throw {A} (e : JsError) : M A := fun db => (Throw e, db).
Definition bind {A B} (m : M A) (k : A -> M B) : M B :=
  fun db => match m db with
            | (Ok a, db') => k a db'
            | (Throw e, db') => (Throw e, db')
            end.
(** [try { m } catch (error) { h error }]. *)
Definition try_catch {A} (m : M A) (h : JsError -> M A) : M A :=
  fun db => match m db with
            | (Ok a, db') => (Ok a, db')
            | (Throw e, db') => h e db'
            end.
Definition get_db : M Db := fun db => (Ok db, db).

Notation "x <- m ;; k" := (bind m (fun x => k))
  (at level 100, m at next level, right associativity).
Notation "m ;;; k" := (bind m (fun _ => k))
  (at level 100, right associativity).

(** Synchronous code that may throw. *)
Definition lift {A} (r : Res A) : M A := fun db => (r, db).

Definition res_bind {A B} (r : Res A) (k : A -> Res B) : Res B :=
  match r with
  | Ok a => k a
  | Throw e => Throw e
  end.

Notation "x <-? r ;; k" := (res_bind r (fun x => k))
  (at level 100, r at next level, right associativity).

(** A cast error on [path] makes [save] (or the query) reject. *)
Definition on_path {A} (path : string) (c : Cast A) : Res (option A) :=
  match c with
  | CastOk a => Ok a
  | CastError => Throw (ValidationError path)
  end.

Definition check (path : string) (b : bool) : Res unit :=
  if b then Ok tt else Throw (ValidationError path).

(** [new Model(...)] gives the document a fresh [_id]. *)
Definition fresh : M ObjectId :=
  fun db => (Ok (nextId db),
             {| orders := orders db; ledger := ledger db;
                webhookLogs := webhookLogs db; nextId := S (nextId db) |}).

Definition set_orders (l : list Order) : M unit :=
  fun db => (Ok tt, {| orders := l; ledger := ledger db;
                       webhookLogs := webhookLogs db; nextId := nextId db |}).
Definition set_ledger (l : list OrderStatus) : M unit :=
  fun db => (Ok tt, {| orders := orders db; ledger := l;
                       webhookLogs := webhookLogs db; nextId := nextId db |}).
Definition set_webhookLogs (l : list WebhookLog) : M unit :=
  fun db => (Ok tt, {| orders := orders db; ledger := ledger db;
                       webhookLogs := l; nextId := nextId db |}).

(** ** [src/models/OrderStatus.js] *)

Module OrderStatusModel.

(** [enum] of the [status] path. *)
Definition status_enum : list string :=
  ["created"; "pending"; "completed"; "failed"; "cancelled"; "refunded"].

Definition in_enum (enum : list string) (s : string) : bool :=
  existsb (String.eqb s) enum.

(** The validators of the schema: [order_amount] required and [min: 0],
    [transaction_amount] [min: 0], [status] required and in the enum. *)
Definition validate (d : OrderStatus) : Res OrderStatus :=
  _ <-? check "order_amount"
          match order_amount d with Some n => 0 <=? n | None => false end ;;
  _ <-? check "transaction_amount"
          match transaction_amount d with Some n => 0 <=? n | None => true end ;;
  _ <-? check "status"
          match status d with Some s => in_enum status_enum s | None => false end ;;
  Ok d.

(** [Object.assign(existingStatus, statusData)]: each of the twelve keys of
    [statusData] is set on the document, whatever its value. *)
Definition assign (existing : OrderStatus) (sd : StatusData) : Res OrderStatus :=
  oa <-? on_path "order_amount" (castNumber (sd_order_amount sd)) ;;
  ta <-? on_path "transaction_amount" (castNumber (sd_transaction_amount sd)) ;;
  pm <-? on_path "payment_mode" (trimmed (castString (sd_payment_mode sd))) ;;
  br <-? on_path "bank_reference" (trimmed (castString (sd_bank_reference sd))) ;;
  msg <-? on_path "payment_message" (trimmed (castString (sd_payment_message sd))) ;;
  st <-? on_path "status" (castString (sd_status sd)) ;;
  em <-? on_path "error_message" (trimmed (castString (sd_error_message sd))) ;;
  pt <-? on_path "payment_time" (castDate (sd_payment_time sd)) ;;
  tid <-? on_path "transaction_id" (trimmed (castString (sd_transaction_id sd))) ;;
  gw <-? on_path "gateway" (trimmed (castString (sd_gateway sd))) ;;
  Ok {| os_id := os_id existing;
        collect_id := collect_id existing;
        order_amount := oa;
        transaction_amount := ta;
        payment_mode := pm;
        payment_details := sd_payment_details sd;
        bank_reference := br;
        payment_message := msg;
        status := st;
        error_message := em;
        payment_time := pt;
        transaction_id := tid;
        gateway := gw;
        vendor_data := sd_vendor_data sd |}.

(** A path with a [default] takes it when the given value is [undefined]. *)
Definition with_default (dflt : string) (v : JsVal) : JsVal :=
  match v with
  | JUndefined => JStr dflt
  | _ => v
  end.

(** [new this({ collect_id: orderId, ...statusData })]. *)
Definition construct (id orderId : ObjectId) (sd : StatusData) : Res OrderStatus :=
  oa <-? on_path "order_amount" (castNumber (sd_order_amount sd)) ;;
  ta <-? on_path "transaction_amount" (castNumber (sd_transaction_amount sd)) ;;
  pm <-? on_path "payment_mode" (trimmed (castString (sd_payment_mode sd))) ;;
  br <-? on_path "bank_reference" (trimmed (castString (sd_bank_reference sd))) ;;
  msg <-? on_path "payment_message" (trimmed (castString (sd_payment_message sd))) ;;
  st <-? on_path "status" (castString (with_default "created" (sd_status sd))) ;;
  em <-? on_path "error_message" (trimmed (castString (sd_error_message sd))) ;;
  pt <-? on_path "payment_time" (castDate (sd_payment_time sd)) ;;
  tid <-? on_path "transaction_id" (trimmed (castString (sd_transaction_id sd))) ;;
  gw <-? on_path "gateway"
           (trimmed (castString (with_default "edviron" (sd_gateway sd)))) ;;
  Ok {| os_id := id;
        collect_id := orderId;
        order_amount := oa;
        transaction_amount := ta;
        payment_mode := pm;
        payment_details := sd_payment_details sd;
        bank_reference := br;
        payment_message := msg;
        status := st;
        error_message := em;
        payment_time := pt;
        transaction_id := tid;
        gateway := gw;
        vendor_data := sd_vendor_data sd |}.

(** [this.findOne({ collect_id: orderId, transaction_id: t })] for a string
    [t]: the first ledger entry of the order whose transaction id is [t]
    trimmed, as the setter of the path leaves the filter, and its
    position. *)
Definition find_by_transaction (orderId : ObjectId) (t : string)
    (l : list OrderStatus) : option (nat * OrderStatus) :=
  list_find
    (fun d => collect_id d = orderId /\ transaction_id d = Some (trim t)) l.

(** The same query for any value [v], which is cast first.  ([upsertStatus]
    makes it for truthy values only; a filter on [null] is not modelled and
    finds nothing.) *)
Definition findOne_transaction (orderId : ObjectId) (v : JsVal)
    : M (option (nat * OrderStatus)) :=
  t <- lift (on_path "transaction_id" (castString v)) ;;
  db <- get_db ;;
  ret (match t with
       | Some t => find_by_transaction orderId t (ledger db)
       | None => None
       end).

(** [this.findOne({ collect_id: orderId })]. *)
Definition find_by_order (orderId : ObjectId) (l : list OrderStatus)
    : option (nat * OrderStatus) :=
  list_find (fun d => collect_id d = orderId) l.

(** [doc.save()] of a document read from the collection at position [i]. *)
Definition save_at (i : nat) (d : OrderStatus) : M OrderStatus :=
  d' <- lift (validate d) ;;
  db <- get_db ;;
  set_ledger (<[i := d']> (ledger db)) ;;;
  ret d'.

(** [doc.save()] of a new document. *)
Definition save_new (d : OrderStatus) : M OrderStatus :=
  d' <- lift (validate d) ;;
  db <- get_db ;;
  set_ledger (ledger db ++ [d']) ;;;
  ret d'.

Definition create_new (orderId : ObjectId) (sd : StatusData) : M OrderStatus :=
  id <- fresh ;;
  newStatus <- lift (construct id orderId sd) ;;
  save_new newStatus.

(** [OrderStatus.upsertStatus(orderId, statusData)]. *)
Definition upsertStatus (orderId : ObjectId) (sd : StatusData) : M OrderStatus :=
  if truthy (sd_transaction_id sd) then
    existingStatus <- findOne_transaction orderId (sd_transaction_id sd) ;;
    match existingStatus with
    | Some (i, existing) =>
        updated <- lift (assign existing sd) ;;
        save_at i updated
    | None => create_new orderId sd
    end
  else create_new orderId sd.

End OrderStatusModel.
Export OrderStatusModel.

(** ** [unnamed/part_005]: models/Order.js *)

Module OrderModel.

(** [enum] of the order's [status] path: it has no ['refunded']. *)
Definition order_status_enum : list string :=
  ["created"; "pending"; "completed"; "failed"; "cancelled"].

(** [this.findOne({ custom_order_id: c })] for a string [c]: the filter is
    trimmed by the setter of the path. *)
Definition find_by_custom_order_id (c : string) (l : list Order)
    : option (nat * Order) :=
  list_find (fun o => o_custom_order_id o = trim c) l.

(** [this.findOne({ collect_request_id: r })] for a string [r]. *)
Definition find_by_collect_request_id (r : string) (l : list Order)
    : option (nat * Order) :=
  list_find (fun o => o_collect_request_id o = Some (trim r)) l.

(** [Order.findByCustomOrderId(customOrderId)], that is
    [this.findOne({ custom_order_id: customOrderId })], for any value, which
    is cast first.  (The callers pass truthy values; a filter on [null] is
    not modelled and finds nothing.) *)
Definition findByCustomOrderId (v : JsVal) : M (option (nat * Order)) :=
  c <- lift (on_path "custom_order_id" (castString v)) ;;
  db <- get_db ;;
  ret (match c with
       | Some c => find_by_custom_order_id c (orders db)
       | None => None
       end).

(** [Order.findOne({ collect_request_id: v })]. *)
Definition findOne_collect_request_id (v : JsVal) : M (option (nat * Order)) :=
  r <- lift (on_path "collect_request_id" (castString v)) ;;
  db <- get_db ;;
  ret (match r with
       | Some r => find_by_collect_request_id r (orders db)
       | None => None
       end).

Definition with_status (o : Order) (s : option string) (vr : Mixed) : Order :=
  {| o_id := o_id o;
     o_school_id := o_school_id o;
     o_trustee_id := o_trustee_id o;
     o_student_info := o_student_info o;
     o_gateway_name := o_gateway_name o;
     o_custom_order_id := o_custom_order_id o;
     o_collect_request_id := o_collect_request_id o;
     o_amount := o_amount o;
     o_callback_url := o_callback_url o;
     o_status := s;
     o_vendor_response := vr |}.

(** [order.updateStatus(status, vendorResponse = null)] on the order read at
    position [i]: sets the status, sets the vendor response when one is
    given, and saves. *)
Definition updateStatus (i : nat) (o : Order) (st : JsVal)
    (vendorResponse : option Mixed) : M Order :=
  s <- lift (on_path "status" (castString st)) ;;
  lift (check "status"
          match s with
          | Some s => in_enum order_status_enum s
          | None => true
          end) ;;;
  let o' := with_status o s
              (default (o_vendor_response o) vendorResponse) in
  db <- get_db ;;
  set_orders (<[i := o']> (orders db)) ;;;
  ret o'.

End OrderModel.
Export OrderModel.

(** ** [unnamed/part_007]: models/WebhookLog.js *)

(** The plain object [webhookLogData] that [processWebhook] fills in.  It is
    an object literal without an [_id] key, and no statement assigns one:
    [wd_id] is what reading [webhookLogData._id] gives. *)
Record WebhookLogData : Type := {
  wd_id : option ObjectId;
  wd_raw_payload : JsVal;
  wd_received_at : Z;
  wd_source_ip : JsVal;
  wd_user_agent : JsVal;
  wd_headers : JsVal;
  wd_processing_status : string;
  wd_processing_message : option string;
  wd_parsed : option Parsed;
  wd_custom_order_id : JsVal;
  wd_collect_request_id : JsVal;
  wd_transaction_id : JsVal
}.

Module WebhookLogModel.

Definition processing_status_enum : list string :=
  ["queued"; "processed"; "failed"].

(** [new this(logData)]: the document gets its own [_id]; [logData] is read,
    not written. *)
Definition construct_log (id : ObjectId) (logData : WebhookLogData)
    : Res WebhookLog :=
  _ <-? check "raw_payload" (negb (nullish (wd_raw_payload logData))) ;;
  _ <-? check "processing_status"
          (in_enum processing_status_enum (wd_processing_status logData)) ;;
  ip <-? on_path "source_ip" (trimmed (castString (wd_source_ip logData))) ;;
  ua <-? on_path "user_agent" (trimmed (castString (wd_user_agent logData))) ;;
  coid <-? on_path "custom_order_id" (trimmed (castString (wd_custom_order_id logData))) ;;
  crid <-? on_path "collect_request_id"
             (trimmed (castString (wd_collect_request_id logData))) ;;
  tid <-? on_path "transaction_id" (trimmed (castString (wd_transaction_id logData))) ;;
  Ok {| wl_id := id;
        wl_raw_payload := wd_raw_payload logData;
        wl_parsed := wd_parsed logData;
        wl_received_at := wd_received_at logData;
        wl_signature_valid := None;
        wl_processing_status := wd_processing_status logData;
        wl_processing_message := trim <$> wd_processing_message logData;
        wl_order_id := None;
        wl_custom_order_id := coid;
        wl_collect_request_id := crid;
        wl_transaction_id := tid;
        wl_source_ip := ip;
        wl_user_agent := ua;
        wl_headers := wd_headers logData;
        wl_retries := 0;
        wl_last_retry_at := None;
        wl_processed_at := None |}.

(** [WebhookLog.createLog(logData)]. *)
Definition createLog (logData : WebhookLogData) : M WebhookLog :=
  id <- fresh ;;
  webhookLog <- lift (construct_log id logData) ;;
  db <- get_db ;;
  set_webhookLogs (webhookLogs db ++ [webhookLog]) ;;;
  ret webhookLog.

Definition find_log (id : ObjectId) (l : list WebhookLog)
    : option (nat * WebhookLog) :=
  list_find (fun w => wl_id w = id) l.

(** [webhookLog.save()] of a document created earlier: the stored document
    with the same [_id] is replaced. *)
Definition save_log (w : WebhookLog) : M WebhookLog :=
  db <- get_db ;;
  match find_log (wl_id w) (webhookLogs db) with
  | Some (i, _) =>
      set_webhookLogs (<[i := w]> (webhookLogs db)) ;;;
      ret w
  | None => throw DocumentNotFound
  end.

(** [WebhookLog.findById(id)]. *)
Definition findById (id : ObjectId) : M (option WebhookLog) :=
  db <- get_db ;;
  ret (snd <$> find_log id (webhookLogs db)).

(** [webhookLog.markAsProcessed(message = null)]. *)
Definition markAsProcessed (rt : Runtime) (w : WebhookLog)
    (message : option string) : M WebhookLog :=
  save_log
    {| wl_id := wl_id w;
       wl_raw_payload := wl_raw_payload w;
       wl_parsed := wl_parsed w;
       wl_received_at := wl_received_at w;
       wl_signature_valid := wl_signature_valid w;
       wl_processing_status := "processed";
       wl_processing_message :=
         match message with
         | Some m =>
             if String.eqb m "" then wl_processing_message w
             else Some (trim m)
         | None => wl_processing_message w
         end;
       wl_order_id := wl_order_id w;
       wl_custom_order_id := wl_custom_order_id w;
       wl_collect_request_id := wl_collect_request_id w;
       wl_transaction_id := wl_transaction_id w;
       wl_source_ip := wl_source_ip w;
       wl_user_agent := wl_user_agent w;
       wl_headers := wl_headers w;
       wl_retries := wl_retries w;
       wl_last_retry_at := wl_last_retry_at w;
       wl_processed_at := Some (now rt) |}.

(** [webhookLog.markAsFailed(errorMessage)]. *)
Definition markAsFailed (rt : Runtime) (w : WebhookLog)
    (errorMessage : string) : M WebhookLog :=
  save_log
    {| wl_id := wl_id w;
       wl_raw_payload := wl_raw_payload w;
       wl_parsed := wl_parsed w;
       wl_received_at := wl_received_at w;
       wl_signature_valid := wl_signature_valid w;
       wl_processing_status := "failed";
       wl_processing_message := Some (trim errorMessage);
       wl_order_id := wl_order_id w;
       wl_custom_order_id := wl_custom_order_id w;
       wl_collect_request_id := wl_collect_request_id w;
       wl_transaction_id := wl_transaction_id w;
       wl_source_ip := wl_source_ip w;
       wl_user_agent := wl_user_agent w;
       wl_headers := wl_headers w;
       wl_retries := wl_retries w + 1;
       wl_last_retry_at := Some (now rt);
       wl_processed_at := wl_processed_at w |}.

End WebhookLogModel.
Export WebhookLogModel.

(** ** [src/controllers/transactions.controller.js]: the webhook
    controller

    The methods are modelled as calls on the controller object, with [this]
    bound to it. *)

Module WebhookController.

(** What [processWebhook] reads from the request. *)
Record Request : Type := {
  body : JsVal;
  ip : JsVal;
  userAgent : JsVal;
  headers : JsVal
}.

(** The JSON answer, with its HTTP status. *)
Record Response : Type := {
  http_status : Z;
  success : bool;
  message : string;
  code : option string
}.

Definition parsed_init : Parsed :=
  {| p_custom_order_id := JNull;
     p_collect_request_id := JNull;
     p_transaction_id := JNull;
     p_order_amount := JNull;
     p_transaction_amount := JNull;
     p_payment_mode := JNull;
     p_payment_details := JNull;
     p_bank_reference := JNull;
     p_payment_message := JNull;
     p_status := JNull;
     p_error_message := JNull;
     p_payment_time := None;
     p_gateway := JStr "edviron" |}.

(** The [if (payload.order_info)] block.  [order_id.split('/')] is a call of
    a string method: on a truthy value that is not a string it throws. *)
Definition parse_order_info (order_info : JsVal) (p : Parsed) : Res Parsed :=
  let order_id := prop "order_id" order_info in
  ids <-?
    (if truthy order_id then
       match order_id with
       | JStr s =>
           match split_slash s with
           | [part0; part1] => Ok (JStr part0, JStr part1)
           | _ => Ok (order_id, p_transaction_id p)
           end
       | _ => Throw (Error "order_id.split is not a function")
       end
     else Ok (p_collect_request_id p, p_transaction_id p)) ;;
  Ok {| p_custom_order_id := prop "custom_order_id" order_info;
        p_collect_request_id := fst ids;
        p_transaction_id := snd ids;
        p_order_amount := p_order_amount p;
        p_transaction_amount := p_transaction_amount p;
        p_payment_mode := p_payment_mode p;
        p_payment_details := p_payment_details p;
        p_bank_reference := p_bank_reference p;
        p_payment_message := p_payment_message p;
        p_status := p_status p;
        p_error_message := p_error_message p;
        p_payment_time := p_payment_time p;
        p_gateway := p_gateway p |}.

(** The [if (payload.payment_info)] block. *)
Definition parse_payment_info (rt : Runtime) (payment_info : JsVal)
    (p : Parsed) : Parsed :=
  {| p_custom_order_id := p_custom_order_id p;
     p_collect_request_id := p_collect_request_id p;
     p_transaction_id :=
       if truthy (prop "transaction_id" payment_info)
       then prop "transaction_id" payment_info
       else p_transaction_id p;
     p_order_amount := prop "order_amount" payment_info;
     p_transaction_amount :=
       or_else (prop "transaction_amount" payment_info)
               (prop "amount" payment_info);
     p_payment_mode := prop "payment_mode" payment_info;
     p_payment_details := prop "payment_details" payment_info;
     p_bank_reference := prop "bank_reference" payment_info;
     p_payment_message :=
       or_else (prop "payment_message" payment_info)
               (prop "message" payment_info);
     p_status := prop "status" payment_info;
     p_error_message := prop "error_message" payment_info;
     p_payment_time :=
       if truthy (prop "payment_time" payment_info)
       then Some (newDate rt (prop "payment_time" payment_info))
       else p_payment_time p;
     p_gateway := or_else (prop "gateway" payment_info) (JStr "edviron") |}.

(** The flat fallback, taken when the payload has neither block. *)
Definition parse_flat (rt : Runtime) (payload : JsVal) (p : Parsed) : Parsed :=
  {| p_custom_order_id := prop "custom_order_id" payload;
     p_collect_request_id := prop "collect_request_id" payload;
     p_transaction_id := prop "transaction_id" payload;
     p_order_amount := prop "order_amount" payload;
     p_transaction_amount :=
       or_else (prop "transaction_amount" payload) (prop "amount" payload);
     p_payment_mode := prop "payment_mode" payload;
     p_payment_details := prop "payment_details" payload;
     p_bank_reference := prop "bank_reference" payload;
     p_payment_message :=
       or_else (prop "payment_message" payload) (prop "message" payload);
     p_status := prop "status" payload;
     p_error_message := prop "error_message" payload;
     p_payment_time :=
       if truthy (prop "payment_time" payload)
       then Some (newDate rt (prop "payment_time" payload))
       else p_payment_time p;
     p_gateway := or_else (prop "gateway" payload) (JStr "edviron") |}.

(** The last step: a missing payment time becomes the time of ingestion.
    A [Date] object is truthy, valid or not. *)
Definition default_payment_time (rt : Runtime) (p : Parsed) : Parsed :=
  {| p_custom_order_id := p_custom_order_id p;
     p_collect_request_id := p_collect_request_id p;
     p_transaction_id := p_transaction_id p;
     p_order_amount := p_order_amount p;
     p_transaction_amount := p_transaction_amount p;
     p_payment_mode := p_payment_mode p;
     p_payment_details := p_payment_details p;
     p_bank_reference := p_bank_reference p;
     p_payment_message := p_payment_message p;
     p_status := p_status p;
     p_error_message := p_error_message p;
     p_payment_time :=
       match p_payment_time p with
       | Some d => Some d
       | None => Some (ValidDate (now rt))
       end;
     p_gateway := p_gateway p |}.

(** The body of the [try] in [parseWebhookPayload].  Reading a property of
    [undefined] or [null] throws. *)
Definition parse_body (rt : Runtime) (payload : JsVal) : Res Parsed :=
  if nullish payload then Throw (Error "Cannot read properties of undefined")
  else
    p1 <-? (if truthy (prop "order_info" payload)
            then parse_order_info (prop "order_info" payload) parsed_init
            else Ok parsed_init) ;;
    let p2 := if truthy (prop "payment_info" payload)
              then parse_payment_info rt (prop "payment_info" payload) p1
              else p1 in
    let p3 := if negb (truthy (prop "order_info" payload))
                 && negb (truthy (prop "payment_info" payload))
              then parse_flat rt payload p2
              else p2 in
    Ok (default_payment_time rt p3).

(** [parseWebhookPayload(payload)]: whatever the body throws is replaced by
    one error. *)
Definition parseWebhookPayload (rt : Runtime) (payload : JsVal) : Res Parsed :=
  match parse_body rt payload with
  | Ok parsed => Ok parsed
  | Throw _ => Throw (Error "Invalid webhook payload format")
  end.

Definition final_statuses : list string := ["completed"; "failed"; "cancelled"].

Definition order_not_found_message (parsed : Parsed) : string :=
  "Order not found for identifiers: custom_order_id="
  +:+ to_string (p_custom_order_id parsed)
  +:+ ", collect_request_id="
  +:+ to_string (p_collect_request_id parsed).

(** The three assignments to [webhookLog] before its [save()]. *)
Definition link_order (w : WebhookLog) (order : Order) : WebhookLog :=
  {| wl_id := wl_id w;
     wl_raw_payload := wl_raw_payload w;
     wl_parsed := wl_parsed w;
     wl_received_at := wl_received_at w;
     wl_signature_valid := wl_signature_valid w;
     wl_processing_status := wl_processing_status w;
     wl_processing_message := wl_processing_message w;
     wl_order_id := Some (o_id order);
     wl_custom_order_id := Some (trim (o_custom_order_id order));
     wl_collect_request_id := trim <$> o_collect_request_id order;
     wl_transaction_id := wl_transaction_id w;
     wl_source_ip := wl_source_ip w;
     wl_user_agent := wl_user_agent w;
     wl_headers := wl_headers w;
     wl_retries := wl_retries w;
     wl_last_retry_at := wl_last_retry_at w;
     wl_processed_at := wl_processed_at w |}.

(** The [statusData] literal of [processWebhookData]. *)
Definition webhook_status_data (parsed : Parsed) (order : Order) : StatusData :=
  {| sd_order_amount := or_else (p_order_amount parsed) (JNum (o_amount order));
     sd_transaction_amount := p_transaction_amount parsed;
     sd_payment_mode := p_payment_mode parsed;
     sd_payment_details := p_payment_details parsed;
     sd_bank_reference := p_bank_reference parsed;
     sd_payment_message := p_payment_message parsed;
     sd_status := p_status parsed;
     sd_error_message := p_error_message parsed;
     sd_payment_time := p_payment_time parsed;
     sd_transaction_id := p_transaction_id parsed;
     sd_gateway := p_gateway parsed;
     sd_vendor_data := MixedParsed parsed |}.

(** The lookup of the owning order: by [custom_order_id] when the payload has
    one, otherwise by [collect_request_id]. *)
Definition find_order (parsed : Parsed) : M (option (nat * Order)) :=
  if truthy (p_custom_order_id parsed) then
    findByCustomOrderId (p_custom_order_id parsed)
  else if truthy (p_collect_request_id parsed) then
    findOne_collect_request_id (p_collect_request_id parsed)
  else ret None.

(** [processWebhookData(parsed, webhookLog)].  The log document is changed in
    place; the value returned is the document as the caller sees it
    afterwards. *)
Definition processWebhookData (parsed : Parsed) (webhookLog : WebhookLog)
    : M WebhookLog :=
  if negb (truthy (p_custom_order_id parsed))
     && negb (truthy (p_collect_request_id parsed))
  then throw (Error "No order identifier found in webhook payload")
  else
    found <- find_order parsed ;;
    match found with
    | None => throw (Error (order_not_found_message parsed))
    | Some (i, order) =>
        webhookLog' <- save_log (link_order webhookLog order) ;;
        upsertStatus (o_id order) (webhook_status_data parsed order) ;;;
        (if includes final_statuses (p_status parsed)
         then updateStatus i order (p_status parsed) None ;;; ret tt
         else ret tt) ;;;
        ret webhookLog'
    end.

Definition log_data_init (rt : Runtime) (req : Request) : WebhookLogData :=
  {| wd_id := None;
     wd_raw_payload := body req;
     wd_received_at := now rt;
     wd_source_ip := ip req;
     wd_user_agent := userAgent req;
     wd_headers := headers req;
     wd_processing_status := "queued";
     wd_processing_message := None;
     wd_parsed := None;
     wd_custom_order_id := JUndefined;
     wd_collect_request_id := JUndefined;
     wd_transaction_id := JUndefined |}.

(** [webhookLogData.parsed = parsed] and the three guarded copies of the
    identifiers. *)
Definition log_data_parsed (d : WebhookLogData) (parsed : Parsed)
    : WebhookLogData :=
  {| wd_id := wd_id d;
     wd_raw_payload := wd_raw_payload d;
     wd_received_at := wd_received_at d;
     wd_source_ip := wd_source_ip d;
     wd_user_agent := wd_user_agent d;
     wd_headers := wd_headers d;
     wd_processing_status := wd_processing_status d;
     wd_processing_message := wd_processing_message d;
     wd_parsed := Some parsed;
     wd_custom_order_id :=
       if truthy (p_custom_order_id parsed) then p_custom_order_id parsed
       else wd_custom_order_id d;
     wd_collect_request_id :=
       if truthy (p_collect_request_id parsed) then p_collect_request_id parsed
       else wd_collect_request_id d;
     wd_transaction_id :=
       if truthy (p_transaction_id parsed) then p_transaction_id parsed
       else wd_transaction_id d |}.

(** The two assignments of the [else] branch of the failure handler. *)
Definition log_data_failed (d : WebhookLogData) (msg : string)
    : WebhookLogData :=
  {| wd_id := wd_id d;
     wd_raw_payload := wd_raw_payload d;
     wd_received_at := wd_received_at d;
     wd_source_ip := wd_source_ip d;
     wd_user_agent := wd_user_agent d;
     wd_headers := wd_headers d;
     wd_processing_status := "failed";
     wd_processing_message := Some msg;
     wd_parsed := wd_parsed d;
     wd_custom_order_id := wd_custom_order_id d;
     wd_collect_request_id := wd_collect_request_id d;
     wd_transaction_id := wd_transaction_id d |}.

Definition response_ok : Response :=
  {| http_status := 200; success := true;
     message := "Webhook processed successfully"; code := None |}.

Definition response_failed : Response :=
  {| http_status := 400; success := false;
     message := "Webhook processing failed";
     code := Some "WEBHOOK_PROCESSING_FAILED" |}.

(** The [catch (error)] block of [processWebhook], entered with the
    [webhookLogData] object as the [try] block left it. *)
Definition on_failure (rt : Runtime) (webhookLogData : WebhookLogData)
    (error : JsError) : M Response :=
  match wd_id webhookLogData with
  | Some id =>
      try_catch
        (webhookLog <- findById id ;;
         match webhookLog with
         | Some w => markAsFailed rt w (message_of error) ;;; ret tt
         | None => ret tt
         end)
        (fun logError => ret tt)
  | None =>
      createLog (log_data_failed webhookLogData (message_of error)) ;;;
      ret tt
  end ;;;
  ret response_failed.

(** [processWebhook(req, res)].  [Object.keys(rawPayload)] precedes the [try]
    and throws on [undefined] and [null].  A result [Throw] is a rejected
    promise: no answer is sent by this function. *)
Definition processWebhook (rt : Runtime) (req : Request) : M Response :=
  let rawPayload := body req in
  if nullish rawPayload
  then throw (Error "Cannot convert undefined or null to object")
  else
    let webhookLogData := log_data_init rt req in
    match parseWebhookPayload rt rawPayload with
    | Throw error => on_failure rt webhookLogData error
    | Ok parsed =>
        let webhookLogData := log_data_parsed webhookLogData parsed in
        try_catch
          (webhookLog <- createLog webhookLogData ;;
           webhookLog' <- processWebhookData parsed webhookLog ;;
           markAsProcessed rt webhookLog'
             (Some "Webhook processed successfully") ;;;
           ret response_ok)
          (on_failure rt webhookLogData)
    end.

End WebhookController.
Export WebhookController.

(** ** [unnamed/part_001]: utils/asyncHelpers.js *)

Module AsyncHelpers.

(** What a run of [retryWithBackoff] does, in order: calls of the operation
    and waits. *)
Inductive Event : Type :=
| Call (attempt : Z)
| Delay (ms : Z).

(** How the promise settles; [lastError] is [undefined] when the loop body
    never ran. *)
Inductive Settled (A E : Type) : Type :=
| Resolved (a : A)
| Rejected (lastError : option E).
Arguments Resolved {A E} a.
Arguments Rejected {A E} lastError.

Section Retry.

Context {A E : Type}.

(** [operation k] is how the call made in iteration [attempt = k] ends. *)
Variable operation : Z -> A + E.
Variables maxRetries baseDelay maxDelay : Z.

(** [Math.min(baseDelay * Math.pow(2, attempt), maxDelay)]. *)
Definition delayTime (attempt : Z) : Z :=
  Z.min (baseDelay * 2 ^ attempt) maxDelay.

(** The [for (let attempt = 0; attempt <= maxRetries; attempt++)] loop, from
    iteration [attempt] on; [fuel] bounds the iterations left. *)
Fixpoint retry_loop (fuel : nat) (attempt : Z) (lastError : option E)
    : list Event * Settled A E :=
  match fuel with
  | O => ([], Rejected lastError)
  | S fuel' =>
      if attempt <=? maxRetries then
        match operation attempt with
        | inl result => ([Call attempt], Resolved result)
        | inr error =>
            if attempt =? maxRetries
            then ([Call attempt], Rejected (Some error))
            else
              let '(events, settled) :=
                retry_loop fuel' (attempt + 1) (Some error) in
              (Call attempt :: Delay (delayTime attempt) :: events, settled)
        end
      else ([], Rejected lastError)
  end.

(** [retryWithBackoff(operation, maxRetries, baseDelay, maxDelay)]. *)
Definition retryWithBackoff : list Event * Settled A E :=
  retry_loop (Z.to_nat (maxRetries + 1)) 0 None.

End Retry.

Definition is_call (e : Event) : bool :=
  match e with
  | Call _ => true
  | Delay _ => false
  end.

(** The number of times the operation was called. *)
Definition attempts (events : list Event) : nat :=
  List.length (List.filter is_call events).

(** The waits, in order. *)
Fixpoint delays (events : list Event) : list Z :=
  match events with
  | [] => []
  | Delay ms :: events' => ms :: delays events'
  | Call _ :: events' => delays events'
  end.

End AsyncHelpers.
Export AsyncHelpers.

(** ** [src/services/paymentService.js] *)

Module PaymentService.

(** An error thrown by the HTTP client: with the vendor's response (status
    and body) when one arrived, without it on a network failure. *)
Record AxiosError : Type := {
  ax_message : string;
  ax_response : option (Z * JsVal)
}.

(** The [error] object of a failed result. *)
Record ServiceError : Type := {
  se_message : JsVal;
  se_status : Z;
  se_code : JsVal
}.

(** [{ success: true, data }] or [{ success: false, error }]. *)
Inductive ServiceResult : Type :=
| Success (data : list (string * JsVal))
| Failure (error : ServiceError).

Definition response_status (e : AxiosError) : Z :=
  match ax_response e with
  | Some (st, _) => if st =? 0 then 500 else st
  | None => 500
  end.

Definition response_data (e : AxiosError) : JsVal :=
  match ax_response e with
  | Some (_, data) => data
  | None => JUndefined
  end.

Definition service_error (default_code : string) (e : AxiosError) : ServiceError :=
  {| se_message := or_else (prop "message" (response_data e)) (JStr (ax_message e));
     se_status := response_status e;
     se_code := or_else (prop "code" (response_data e)) (JStr default_code) |}.

Definition type_error : AxiosError :=
  {| ax_message := "Cannot read properties of undefined"; ax_response := None |}.

(** [createCollectRequest(paymentData)]; [post k] is how the [client.post]
    of iteration [k] ends, with the response body on success.  ([Rejected
    None] does not arise: the loop runs at least once.) *)
Definition createCollectRequest (post : Z -> JsVal + AxiosError)
    : list Event * ServiceResult :=
  let '(events, settled) := retryWithBackoff post 3 1000 5000 in
  (events,
   match settled with
   | Resolved data =>
       if nullish data then Failure (service_error "PAYMENT_API_ERROR" type_error)
       else Success [("collect_request_id", prop "collect_request_id" data);
                     ("payment_url", prop "collect_request_url" data);
                     ("sign", prop "sign" data)]
   | Rejected (Some error) => Failure (service_error "PAYMENT_API_ERROR" error)
   | Rejected None => Failure (service_error "PAYMENT_API_ERROR" type_error)
   end).

(** [checkPaymentStatus(collectRequestId, schoolId, sign)]. *)
Definition checkPaymentStatus (get : Z -> JsVal + AxiosError)
    : list Event * ServiceResult :=
  let '(events, settled) := retryWithBackoff get 3 1000 5000 in
  (events,
   match settled with
   | Resolved data =>
       if nullish data then Failure (service_error "PAYMENT_STATUS_ERROR" type_error)
       else Success [("status", prop "status" data);
                     ("amount", prop "amount" data);
                     ("details", prop "details" data);
                     ("jwt", prop "jwt" data)]
   | Rejected (Some error) => Failure (service_error "PAYMENT_STATUS_ERROR" error)
   | Rejected None => Failure (service_error "PAYMENT_STATUS_ERROR" type_error)
   end).

End PaymentService.

(** ** [src/config/env.js], [class PaymentController]: the client-poll
    path *)

Module PaymentController.

Import PaymentService.

(** The answer of [checkPaymentStatus]. *)
Record StatusResponse : Type := {
  sr_collect_request_id : string;
  sr_payment_status : JsVal;
  sr_amount : JsVal;
  sr_details : JsVal;
  sr_order_id : option ObjectId
}.

(** The mapping of the vendor's status to the ledger's, as the
    [let dbStatus = 'pending'; if ... else if ...] statements compute it. *)
Definition dbStatus (vendor_status : JsVal) : string :=
  if strict_eq_str vendor_status "SUCCESS" then "completed"
  else if strict_eq_str vendor_status "FAILED" then "failed"
  else "pending".

(** The assignments to [orderStatus] before its [save()]. *)
Definition poll_update (rt : Runtime) (orderStatus : OrderStatus)
    (data : list (string * JsVal)) : Res OrderStatus :=
  let st := dbStatus (assoc "status" data) in
  ta <-? on_path "transaction_amount"
           (castNumber (or_else (assoc "amount" data)
                          match order_amount orderStatus with
                          | Some n => JNum n
                          | None => JUndefined
                          end)) ;;
  Ok {| os_id := os_id orderStatus;
        collect_id := collect_id orderStatus;
        order_amount := order_amount orderStatus;
        transaction_amount := ta;
        payment_mode := payment_mode orderStatus;
        payment_details := payment_details orderStatus;
        bank_reference := bank_reference orderStatus;
        payment_message :=
          Some (trim ("Payment " +:+ to_string (assoc "status" data)));
        status := Some st;
        error_message := error_message orderStatus;
        payment_time :=
          if String.eqb st "completed" then Some (now rt)
          else payment_time orderStatus;
        transaction_id := transaction_id orderStatus;
        gateway := gateway orderStatus;
        vendor_data := vendor_data orderStatus |}.

(** The [if (order_id) { try { ... } catch (dbError) { ... } }] block: the
    first ledger entry of the order is rewritten; an error is logged and
    dropped. *)
Definition poll_store (rt : Runtime) (order_id : option ObjectId)
    (data : list (string * JsVal)) : M unit :=
  match order_id with
  | Some order_id =>
      try_catch
        (db <- get_db ;;
         match find_by_order order_id (ledger db) with
         | Some (i, orderStatus) =>
             updated <- lift (poll_update rt orderStatus data) ;;
             save_at i updated ;;;
             ret tt
         | None => ret tt
         end)
        (fun dbError => ret tt)
  | None => ret tt
  end.

(** [checkPaymentStatus(req, res)].  [school_id] is the [SCHOOL_ID] of the
    environment, [statusResult] what the payment service returned for the
    signed request. *)
Definition checkPaymentStatus (rt : Runtime) (collect_request_id : string)
    (order_id : option ObjectId) (school_id : option string)
    (statusResult : ServiceResult) : M StatusResponse :=
  if String.eqb collect_request_id "" then
    throw (AppError "Collect request ID is required" 400)
  else if String.eqb (default "" school_id) "" then
    throw (AppError "School ID not configured" 500)
  else
    match statusResult with
    | Failure error =>
        throw (AppError
                 (to_string (or_else (se_message error)
                               (JStr "Failed to check payment status")))
                 (if se_status error =? 0 then 500 else se_status error))
    | Success data =>
        poll_store rt order_id data ;;;
        ret {| sr_collect_request_id := collect_request_id;
               sr_payment_status := assoc "status" data;
               sr_amount := assoc "amount" data;
               sr_details := assoc "details" data;
               sr_order_id := order_id |}
    end.

End PaymentController.

(** ** Notions the statements use *)

(** The set of terminal statuses of the ledger's data model; the code has no
    such predicate of its own. *)
Definition terminal_statuses : list string :=
  ["completed"; "failed"; "cancelled"; "refunded"].

Definition is_terminal (s : option string) : bool :=
  match s with
  | Some s => in_enum terminal_statuses s
  | None => false
  end.

(** A ledger entry carries a transaction id when the path holds a string that
    [if (statusData.transaction_id)] would take for one. *)
Definition carries_transaction_id (d : OrderStatus) : Prop :=
  exists t, transaction_id d = Some t /\ t <> "".

(** At most one entry per order and transaction id. *)
Definition unique_transactions (l : list OrderStatus) : Prop :=
  forall i j d1 d2,
    l !! i = Some d1 -> l !! j = Some d2 ->
    collect_id d1 = collect_id d2 ->
    transaction_id d1 = transaction_id d2 ->
    carries_transaction_id d1 ->
    i = j.


(** The two values of a transaction id that are stored without a lookup:
    [if (statusData.transaction_id)] takes them for no id, and the cast
    stores them as the strings ["0"] and ["false"]. *)
Definition stored_without_lookup (v : JsVal) : Prop :=
  v = JNum 0 \/ v = JBool false.

(** The store with another ledger. *)
Definition with_ledger (db : Db) (l : list OrderStatus) : Db :=
  {| orders := orders db; ledger := l;
     webhookLogs := webhookLogs db; nextId := nextId db |}.

(** The store after one more [_id] was handed out. *)
Definition bump (db : Db) : Db :=
  {| orders := orders db; ledger := ledger db;
     webhookLogs := webhookLogs db; nextId := S (nextId db) |}.

(** The same entry under another [_id]. *)
Definition with_id (d : OrderStatus) (id : ObjectId) : OrderStatus :=
  {| os_id := id;
     collect_id := collect_id d;
     order_amount := order_amount d;
     transaction_amount := transaction_amount d;
     payment_mode := payment_mode d;
     payment_details := payment_details d;
     bank_reference := bank_reference d;
     payment_message := payment_message d;
     status := status d;
     error_message := error_message d;
     payment_time := payment_time d;
     transaction_id := transaction_id d;
     gateway := gateway d;
     vendor_data := vendor_data d |}.

(** Splits a hypothesis [assign ... = Ok d] or [construct ... = Ok d] into
    its successful casts. *)
Ltac cast_steps H :=
  unfold res_bind in H;
  repeat match type of H with
         | match on_path ?p ?c with _ => _ end = _ =>
             let E := fresh "Hcast" in
             destruct (on_path p c) eqn:E; [|discriminate H]
         end;
  injection H as H.

(** A failed round of [retryWithBackoff]: the call of iteration [j] and the
    wait that follows it. *)
Definition failed_round (baseDelay maxDelay j : Z) : list Event :=
  [Call j; Delay (delayTime baseDelay maxDelay j)].

(** A vendor answer with HTTP status [st] and an empty body. *)
Definition http_error (st : Z) : PaymentService.AxiosError :=
  {| PaymentService.ax_message := "Request failed";
     PaymentService.ax_response := Some (st, JObj []) |}.

(** The status a payload carries: [payment_info.status] when the payload has
    a [payment_info] block, the root's [status] when it has neither block. *)
Definition payload_status (payload : JsVal) : JsVal :=
  if truthy (prop "payment_info" payload)
  then prop "status" (prop "payment_info" payload)
  else if truthy (prop "order_info" payload) then JNull
  else prop "status" payload.


(** The store with other delivery records. *)
Definition with_logs (db : Db) (l : list WebhookLog) : Db :=
  {| orders := orders db; ledger := ledger db;
     webhookLogs := l; nextId := nextId db |}.

(** The delivery record the failure handler creates from the same
    [webhookLogData]: the record [w] once more, under a new [_id], in state
    [failed] with the error's message, trimmed as the path stores it. *)
Definition failed_copy (w : WebhookLog) (id : ObjectId) (msg : string)
    : WebhookLog :=
  {| wl_id := id;
     wl_raw_payload := wl_raw_payload w;
     wl_parsed := wl_parsed w;
     wl_received_at := wl_received_at w;
     wl_signature_valid := wl_signature_valid w;
     wl_processing_status := "failed";
     wl_processing_message := Some (trim msg);
     wl_order_id := wl_order_id w;
     wl_custom_order_id := wl_custom_order_id w;
     wl_collect_request_id := wl_collect_request_id w;
     wl_transaction_id := wl_transaction_id w;
     wl_source_ip := wl_source_ip w;
     wl_user_agent := wl_user_agent w;
     wl_headers := wl_headers w;
     wl_retries := wl_retries w;
     wl_last_retry_at := wl_last_retry_at w;
     wl_processed_at := wl_processed_at w |}.


(** The steps of [processWebhook] that follow the creation of the delivery
    record. *)
Definition after_createLog (rt : Runtime) (parsed : Parsed) (w : WebhookLog)
    : M Response :=
  webhookLog' <- processWebhookData parsed w ;;
  markAsProcessed rt webhookLog' (Some "Webhook processed successfully") ;;;
  ret response_ok.

(** What [processWebhookData] may do to the delivery records: nothing, or
    replace the stored record of [w] by [w] linked to its order. *)
Definition logs_step (w : WebhookLog) (l l' : list WebhookLog) : Prop :=
  l' = l
  \/ exists i x order,
       find_log (wl_id w) l = Some (i, x)
       /\ l' = <[i := link_order w order]> l.

(** ** Sample data *)

(** A runtime whose [new Date(value)] takes epoch milliseconds and finds
    every other value invalid. *)
Definition sample_runtime : Runtime :=
  {| now := 1700000000000;
     newDate := fun v => match v with
                         | JNum n => ValidDate n
                         | _ => InvalidDate
                         end |}.

(** An observation [{ transaction_id, status, amount }] as [statusData]. *)
Definition observation (tid st : JsVal) (amount : Z) : StatusData :=
  {| sd_order_amount := JNum amount;
     sd_transaction_amount := JNum amount;
     sd_payment_mode := JStr "UPI";
     sd_payment_details := JUndefined;
     sd_bank_reference := JUndefined;
     sd_payment_message := JUndefined;
     sd_status := st;
     sd_error_message := JUndefined;
     sd_payment_time := Some (ValidDate 1700000000000);
     sd_transaction_id := tid;
     sd_gateway := JStr "edviron";
     sd_vendor_data := MixedAbsent |}.

(** The ledger entry that observation leaves. *)
Definition sample_entry (id : ObjectId) (tid : option string) (st : string)
    (amount : Z) : OrderStatus :=
  {| os_id := id;
     collect_id := 1;
     order_amount := Some amount;
     transaction_amount := Some amount;
     payment_mode := Some "UPI";
     payment_details := JUndefined;
     bank_reference := None;
     payment_message := None;
     status := Some st;
     error_message := None;
     payment_time := Some 1700000000000;
     transaction_id := tid;
     gateway := Some "edviron";
     vendor_data := MixedAbsent |}.

Definition sample_order : Order :=
  {| o_id := 1;
     o_school_id := "SCH001";
     o_trustee_id := None;
     o_student_info :=
       {| student_name := "Asha"; student_id := "STU-7";
          student_email := "asha@example.com" |};
     o_gateway_name := "edviron";
     o_custom_order_id := "ORD-1";
     o_collect_request_id := Some "CRQ123";
     o_amount := 100;
     o_callback_url := "https://school.example/cb";
     o_status := Some "pending";
     o_vendor_response := MixedAbsent |}.

(** One order, no ledger entry, no delivery record. *)
Definition db_fresh : Db :=
  {| orders := [sample_order]; ledger := []; webhookLogs := [];
     nextId := 2 |}.

(** One order whose ledger holds a completed entry for transaction [T1]. *)
Definition db_completed : Db :=
  {| orders := [sample_order];
     ledger := [sample_entry 2 (Some "T1") "completed" 100];
     webhookLogs := [];
     nextId := 3 |}.

(** One order whose ledger holds the placeholder entry written at creation:
    pending, without a transaction id. *)
Definition db_pending : Db :=
  {| orders := [sample_order];
     ledger := [sample_entry 2 None "pending" 100];
     webhookLogs := [];
     nextId := 3 |}.

(** A nested webhook payload for the sample order. *)
Definition webhook_payload (custom_order_id order_id st : string) : JsVal :=
  JObj [("order_info",
         JObj [("order_id", JStr order_id);
               ("custom_order_id", JStr custom_order_id)]);
        ("payment_info",
         JObj [("status", JStr st); ("amount", JNum 100);
               ("payment_mode", JStr "UPI")])].

Definition webhook_request (payload : JsVal) : Request :=
  {| body := payload;
     ip := JStr "203.0.113.7";
     userAgent := JStr "vendor-hook/1.0";
     headers := JObj [("content-type", JStr "application/json")] |}.

(** What the vendor answers to a status poll. *)
Definition poll_data (st : string) : list (string * JsVal) :=
  [("status", JStr st); ("amount", JNum 100);
   ("details", JUndefined); ("jwt", JUndefined)].

(** The placeholder entry after a poll that the vendor answered with
    ["SUCCESS"]. *)
Definition polled_entry : OrderStatus :=
  {| os_id := 2;
     collect_id := 1;
     order_amount := Some 100;
     transaction_amount := Some 100;
     payment_mode := Some "UPI";
     payment_details := JUndefined;
     bank_reference := None;
     payment_message := Some "Payment SUCCESS";
     status := Some "completed";
     error_message := None;
     payment_time := Some 1700000000000;
     transaction_id := None;
     gateway := Some "edviron";
     vendor_data := MixedAbsent |}.

(** The delivery record [processWebhook] stores first for a nested payload
    of the sample vendor. *)
Definition queued_record (id : ObjectId) (payload : JsVal) (parsed : Parsed)
    (coid crid tid : option string) : WebhookLog :=
  {| wl_id := id;
     wl_raw_payload := payload;
     wl_parsed := Some parsed;
     wl_received_at := 1700000000000;
     wl_signature_valid := None;
     wl_processing_status := "queued";
     wl_processing_message := None;
     wl_order_id := None;
     wl_custom_order_id := coid;
     wl_collect_request_id := crid;
     wl_transaction_id := tid;
     wl_source_ip := Some "203.0.113.7";
     wl_user_agent := Some "vendor-hook/1.0";
     wl_headers := JObj [("content-type", JStr "application/json")];
     wl_retries := 0;
     wl_last_retry_at := None;
     wl_processed_at := None |}.

(** What [parseWebhookPayload] returns for [webhook_payload coid "CRQ123" st]
    under the sample runtime. *)
Definition sample_parsed (coid st : string) : Parsed :=
  {| p_custom_order_id := JStr coid;
     p_collect_request_id := JStr "CRQ123";
     p_transaction_id := JNull;
     p_order_amount := JUndefined;
     p_transaction_amount := JNum 100;
     p_payment_mode := JStr "UPI";
     p_payment_details := JUndefined;
     p_bank_reference := JUndefined;
     p_payment_message := JUndefined;
     p_status := JStr st;
     p_error_message := JUndefined;
     p_payment_time := Some (ValidDate 1700000000000);
     p_gateway := JStr "edviron" |}.



(** * The rest of the cited files *)

(** ** [src/models/OrderStatus.js]: queries and status predicates *)

Module OrderStatusQueries.

(** [a <= b] on [payment_time] values as MongoDB orders them: a missing value
    sorts below every date. *)
Definition time_leb (a b : option Z) : bool :=
  match a, b with
  | None, _ => true
  | Some _, None => false
  | Some x, Some y => x <=? y
  end.

(** The order [.sort({ payment_time: -1, createdAt: -1 })] puts two ledger
    entries in, each taken with its position in the collection: the greater
    [payment_time] first and, for equal ones, the entry created later first.
    Entries are created in the order of their positions. *)
Definition sorts_before (a b : nat * OrderStatus) : Prop :=
  if decide (payment_time (snd a) = payment_time (snd b))
  then (fst b <= fst a)%nat
  else time_leb (payment_time (snd b)) (payment_time (snd a)) = true.

#[global] Instance sorts_before_dec a b : Decision (sorts_before a b).
Proof. unfold sorts_before. destruct (decide _); apply _. Defined.

(** The documents of a collection with their positions. *)
Definition indexed {A} (l : list A) : list (nat * A) :=
  imap (fun i x => (i, x)) l.

(** [.populate('collect_id')]: the entry with the order it refers to, if that
    order exists. *)
Definition populate (os : list Order) (d : OrderStatus)
    : OrderStatus * option Order :=
  (d, snd <$> list_find (fun o => o_id o = collect_id d) os).

(** [OrderStatus.findAllByOrderId(orderId)]. *)
Definition findAllByOrderId (orderId : ObjectId) (db : Db)
    : list (OrderStatus * option Order) :=
  map (fun p => populate (orders db) (snd p))
    (merge_sort sorts_before
       (filter (fun p => collect_id (snd p) = orderId) (indexed (ledger db)))).

(** [OrderStatus.findLatestByOrderId(orderId)]: [findOne] under the same
    sort, that is the first document of the sorted result. *)
Definition findLatestByOrderId (orderId : ObjectId) (db : Db)
    : option (OrderStatus * option Order) :=
  head (findAllByOrderId orderId db).

(** [status === lit] on a stored status. *)
Definition status_is (s : option string) (lit : string) : bool :=
  match s with
  | Some s => String.eqb s lit
  | None => false
  end.

(** [orderStatus.isSuccessful()]. *)
Definition isSuccessful (d : OrderStatus) : bool :=
  status_is (status d) "completed".

(** [orderStatus.isPending()]. *)
Definition isPending (d : OrderStatus) : bool :=
  existsb (status_is (status d)) ["created"; "pending"].

(** [orderStatus.hasFailed()]. *)
Definition hasFailed (d : OrderStatus) : bool :=
  existsb (status_is (status d)) ["failed"; "cancelled"].

End OrderStatusQueries.
Export OrderStatusQueries.

(** ** [unnamed/part_007]: the retry side of a delivery record *)

Module WebhookLogRetry.

(** [webhookLog.retryProcessing()]. *)
Definition retryProcessing (rt : Runtime) (w : WebhookLog) : M WebhookLog :=
  save_log
    {| wl_id := wl_id w;
       wl_raw_payload := wl_raw_payload w;
       wl_parsed := wl_parsed w;
       wl_received_at := wl_received_at w;
       wl_signature_valid := wl_signature_valid w;
       wl_processing_status := "queued";
       wl_processing_message := wl_processing_message w;
       wl_order_id := wl_order_id w;
       wl_custom_order_id := wl_custom_order_id w;
       wl_collect_request_id := wl_collect_request_id w;
       wl_transaction_id := wl_transaction_id w;
       wl_source_ip := wl_source_ip w;
       wl_user_agent := wl_user_agent w;
       wl_headers := wl_headers w;
       wl_retries := wl_retries w + 1;
       wl_last_retry_at := Some (now rt);
       wl_processed_at := wl_processed_at w |}.

(** [webhookLog.hasMaxRetriesReached(maxRetries = 3)]. *)
Definition hasMaxRetriesReached (w : WebhookLog) (maxRetries : option Z)
    : bool :=
  default 3 maxRetries <=? wl_retries w.

(** One call of a method of a delivery record. *)
Inductive LogCall : Type :=
| MarkAsProcessed (message : option string)
| MarkAsFailed (errorMessage : string)
| RetryProcessing.

Definition call (rt : Runtime) (c : LogCall) (w : WebhookLog) : M WebhookLog :=
  match c with
  | MarkAsProcessed message => markAsProcessed rt w message
  | MarkAsFailed errorMessage => markAsFailed rt w errorMessage
  | RetryProcessing => retryProcessing rt w
  end.

(** The calls of a list, one after the other, on the same document. *)
Fixpoint calls (rt : Runtime) (cs : list LogCall) (w : WebhookLog)
    : M WebhookLog :=
  match cs with
  | [] => ret w
  | c :: cs' => w' <- call rt c w ;; calls rt cs' w'
  end.

(** The calls that count as a retry: both a failure and a retry do. *)
Definition counts (c : LogCall) : bool :=
  match c with
  | MarkAsProcessed _ => false
  | MarkAsFailed _ | RetryProcessing => true
  end.

(** The state a call leaves the record in. *)
Definition state_after (c : LogCall) : string :=
  match c with
  | MarkAsProcessed _ => "processed"
  | MarkAsFailed _ => "failed"
  | RetryProcessing => "queued"
  end.

End WebhookLogRetry.
Export WebhookLogRetry.

(** ** Invariants of the store *)

(** Every ledger entry passes the validators of its schema. *)
Definition ledger_valid (db : Db) : Prop :=
  Forall (fun d => validate d = Ok d) (ledger db).

(** Every order's cached status, when it has one, is in the order's enum. *)
Definition orders_valid (db : Db) : Prop :=
  Forall (fun o => match o_status o with
                   | Some s => in_enum order_status_enum s = true
                   | None => True
                   end) (orders db).

(** The [_id]s of the delivery records differ, and all were handed out
    already. *)
Definition log_ids_fresh (db : Db) : Prop :=
  NoDup (map wl_id (webhookLogs db))
  /\ Forall (fun w => (wl_id w < nextId db)%nat) (webhookLogs db).


(** ** More sample data *)

(** A refund of transaction [T2], reported later than the sample
    observations. *)
Definition refund_observation : StatusData :=
  {| sd_order_amount := JNum 100;
     sd_transaction_amount := JNum 100;
     sd_payment_mode := JStr "UPI";
     sd_payment_details := JUndefined;
     sd_bank_reference := JUndefined;
     sd_payment_message := JUndefined;
     sd_status := JStr "refunded";
     sd_error_message := JUndefined;
     sd_payment_time := Some (ValidDate 1700000009999);
     sd_transaction_id := JStr "T2";
     sd_gateway := JStr "edviron";
     sd_vendor_data := MixedAbsent |}.

(** The ledger entry that refund leaves. *)
Definition refund_entry : OrderStatus :=
  {| os_id := 3;
     collect_id := 1;
     order_amount := Some 100;
     transaction_amount := Some 100;
     payment_mode := Some "UPI";
     payment_details := JUndefined;
     bank_reference := None;
     payment_message := None;
     status := Some "refunded";
     error_message := None;
     payment_time := Some 1700000009999;
     transaction_id := Some "T2";
     gateway := Some "edviron";
     vendor_data := MixedAbsent |}.

(** ** Notions for the webhook parser *)


(** The payload reduced to its two blocks. *)
Definition blocks_only (payload : JsVal) : JsVal :=
  JObj [("order_info", prop "order_info" payload);
        ("payment_info", prop "payment_info" payload)].

(** The stored orders and ledger entries are as their schemas want them. *)
Definition store_valid (db : Db) : Prop :=
  ledger_valid db /\ orders_valid db.

(** The order a parsed payload identifies: by [custom_order_id] when the
    payload has one, otherwise by [collect_request_id]. *)
Definition identified_by (parsed : Parsed) (order : Order) : Prop :=
  if truthy (p_custom_order_id parsed)
  then exists c, castString (p_custom_order_id parsed) = CastOk (Some c)
                 /\ o_custom_order_id order = trim c
  else exists r, castString (p_collect_request_id parsed) = CastOk (Some r)
                 /\ o_collect_request_id order = Some (trim r).

(** ** [src/middlewares/error.js]: the application error class *)

Module ErrorMiddleware.

(** [new AppError(message, statusCode, code)]. *)
Record AppError : Type := {
  message : JsVal;
  statusCode : Z;
  code : string
}.

End ErrorMiddleware.

(** ** [unnamed/part_004]: services/vendorClient.js *)

Module VendorClient.

(** An error thrown by the HTTP client: with the vendor's response
    ([error.response]), with the request only ([error.request]) or with
    neither. *)
Inductive AxiosError : Type :=
| ErrorResponse (status : Z) (data : JsVal)
| NoResponse
| SetupError.

Definition sign_error : ErrorMiddleware.AppError :=
  {| ErrorMiddleware.message := JStr "Failed to sign vendor payload";
     ErrorMiddleware.statusCode := 500;
     ErrorMiddleware.code := "VENDOR_SIGN_ERROR" |}.

Definition invalid_response : ErrorMiddleware.AppError :=
  {| ErrorMiddleware.message := JStr "Invalid response from vendor API";
     ErrorMiddleware.statusCode := 502;
     ErrorMiddleware.code := "VENDOR_INVALID_RESPONSE" |}.

(** The [catch] block of both methods, for an error of the HTTP client. *)
Definition vendor_error (fallback : string) (error : AxiosError)
    : ErrorMiddleware.AppError :=
  match error with
  | ErrorResponse status data =>
      {| ErrorMiddleware.message :=
           or_else (if nullish data then JUndefined else prop "message" data)
                   (JStr fallback);
         ErrorMiddleware.statusCode := if 500 <=? status then 502 else 400;
         ErrorMiddleware.code := "VENDOR_API_ERROR" |}
  | NoResponse =>
      {| ErrorMiddleware.message :=
           JStr "Network error connecting to vendor API";
         ErrorMiddleware.statusCode := 502;
         ErrorMiddleware.code := "VENDOR_NETWORK_ERROR" |}
  | SetupError =>
      {| ErrorMiddleware.message := JStr "Unexpected error with vendor API";
         ErrorMiddleware.statusCode := 500;
         ErrorMiddleware.code := "VENDOR_UNEXPECTED_ERROR" |}
  end.

(** The body both methods share.  [sign] is what [signVendorPayload]
    returned, [None] when it threw; [http] is how the request ends when it
    is made: with [response.data] or with an error.  An [AppError] thrown
    inside the [try] is thrown again as it is. *)
Definition request (fallback : string) (sign : option string)
    (http : JsVal + AxiosError) : JsVal + ErrorMiddleware.AppError :=
  match sign with
  | None => inr sign_error
  | Some _ =>
      match http with
      | inl data => if truthy data then inl data else inr invalid_response
      | inr error => inr (vendor_error fallback error)
      end
  end.

(** [vendorClient.createCollectRequest(requestData)]. *)
Definition createCollectRequest (sign : option string)
    (http : JsVal + AxiosError) : JsVal + ErrorMiddleware.AppError :=
  request "Vendor API request failed" sign http.

(** [vendorClient.getCollectRequest({ collect_request_id, school_id })]. *)
Definition getCollectRequest (sign : option string)
    (http : JsVal + AxiosError) : JsVal + ErrorMiddleware.AppError :=
  request "Failed to get collect request status" sign http.

End VendorClient.

(** ** [src/controllers/transactions.controller.js], [class
    TransactionsController]: the status of one transaction *)

Module TransactionsController.

(** What the handler reads of [req.user]. *)
Record User : Type := {
  role : JsVal;
  school_id : JsVal
}.

(** The [order] object of the answer. *)
Record OrderSummary : Type := {
  id : ObjectId;
  custom_order_id : string;
  order_school_id : string;
  amount : Z;
  student_info : StudentInfo;
  collect_request_id : option string
}.

(** The [data] object of the answer. *)
Record StatusData200 : Type := {
  order : OrderSummary;
  latest_status : option (OrderStatus * option Order);
  vendor_status : JsVal
}.

(** The JSON answer, with its HTTP status. *)
Record Answer : Type := {
  http_status : Z;
  success : bool;
  code : option string;
  data : option StatusData200
}.

Definition summary (o : Order) : OrderSummary :=
  {| id := o_id o;
     custom_order_id := o_custom_order_id o;
     order_school_id := o_school_id o;
     amount := o_amount o;
     student_info := o_student_info o;
     collect_request_id := o_collect_request_id o |}.

Definition order_not_found : Answer :=
  {| http_status := 404; success := false;
     code := Some "ORDER_NOT_FOUND"; data := None |}.

Definition access_denied : Answer :=
  {| http_status := 403; success := false;
     code := Some "SCHOOL_ACCESS_DENIED"; data := None |}.

Definition retrieval_failed : Answer :=
  {| http_status := 500; success := false;
     code := Some "STATUS_RETRIEVAL_FAILED"; data := None |}.

Definition retrieved (o : Order)
    (latest : option (OrderStatus * option Order)) (vendorStatus : JsVal)
    : Answer :=
  {| http_status := 200; success := true; code := None;
     data := Some {| order := summary o; latest_status := latest;
                     vendor_status := vendorStatus |} |}.

(** The [statusData] literal built from the vendor's answer. *)
Definition refresh_status_data (rt : Runtime) (vendorStatus : JsVal)
    (o : Order) : StatusData :=
  {| sd_order_amount :=
       or_else (prop "order_amount" vendorStatus) (JNum (o_amount o));
     sd_transaction_amount := prop "transaction_amount" vendorStatus;
     sd_payment_mode := prop "payment_mode" vendorStatus;
     sd_payment_details := prop "payment_details" vendorStatus;
     sd_bank_reference := prop "bank_reference" vendorStatus;
     sd_payment_message := prop "payment_message" vendorStatus;
     sd_status := prop "status" vendorStatus;
     sd_error_message := prop "error_message" vendorStatus;
     sd_payment_time :=
       Some (if truthy (prop "payment_time" vendorStatus)
             then newDate rt (prop "payment_time" vendorStatus)
             else ValidDate (now rt));
     sd_transaction_id := prop "transaction_id" vendorStatus;
     sd_gateway := or_else (prop "gateway" vendorStatus) (JStr "edviron");
     sd_vendor_data := MixedJs vendorStatus |}.

(** [if (order.collect_request_id)]. *)
Definition has_collect_request_id (o : Order) : bool :=
  match o_collect_request_id o with
  | Some r => negb (String.eqb r "")
  | None => false
  end.

(** The [if (order.collect_request_id) { try { ... } catch { } }] block:
    the vendor's answer, when there is one, is upserted into the ledger; an
    error of the vendor or of the upsert is logged and dropped.  The value
    is [vendorStatus] as the block leaves it. *)
Definition refresh (rt : Runtime) (o : Order)
    (vendor : JsVal + ErrorMiddleware.AppError) : M JsVal :=
  if has_collect_request_id o then
    match vendor with
    | inl vendorStatus =>
        try_catch
          (if truthy vendorStatus
           then upsertStatus (o_id o)
                  (refresh_status_data rt vendorStatus o) ;;; ret tt
           else ret tt)
          (fun vendorError => ret tt) ;;;
        ret vendorStatus
    | inr vendorError => ret JNull
    end
  else ret JNull.

(** [getTransactionStatus(req, res)]; [custom_order_id] is the parameter of
    the route and [vendor] what [vendorClient.getCollectRequest] gives when
    it is called. *)
Definition getTransactionStatus (rt : Runtime) (custom_order_id : string)
    (user : User) (vendor : JsVal + ErrorMiddleware.AppError) : M Answer :=
  try_catch
    (found <- findByCustomOrderId (JStr custom_order_id) ;;
     match found with
     | None => ret order_not_found
     | Some (_, o) =>
         if negb (strict_eq_str (role user) "admin")
            && negb (strict_eq_str (school_id user) (o_school_id o))
         then ret access_denied
         else
           vendorStatus <- refresh rt o vendor ;;
           db <- get_db ;;
           ret (retrieved o (findLatestByOrderId (o_id o) db) vendorStatus)
     end)
    (fun error => ret retrieval_failed).

End TransactionsController.

(** ** [unnamed/part_001]: [processBatches] *)

Module ProcessBatches.

(** [items.slice(start, end)] for integers [start] and [end]. *)
Definition slice {A} (items : list A) (start finish : Z) : list A :=
  let len := Z.of_nat (List.length items) in
  let k := if start <? 0 then Z.max (len + start) 0 else Z.min start len in
  let final := if finish <? 0 then Z.max (len + finish) 0
               else Z.min finish len in
  take (Z.to_nat (final - k)) (drop (Z.to_nat k) items).

(** How the promise of [processBatches] stands when the loop has run for
    the given number of iterations: resolved, rejected, or still running. *)
Inductive Outcome (B E : Type) : Type :=
| Resolved (results : list B)
| Rejected (error : E)
| Running.
Arguments Resolved {B E} results.
Arguments Rejected {B E} error.
Arguments Running {B E}.

Section ProcessBatches.

Context {A B E : Type}.

Variable items : list A.
(** [processFn batch index] is how the call for that batch ends. *)
Variable processFn : list A -> option Z -> B + E.
Variable batchSize : Z.

(** [Math.floor(i / batchSize)]; [None] is the [NaN] that [0 / 0] gives. *)
Definition batch_index (i : Z) : option Z :=
  if batchSize =? 0 then None else Some (i / batchSize).

(** The [for (let i = 0; i < items.length; i += batchSize)] loop from [i]
    on, with the calls of [processFn] it makes; [fuel] bounds the
    iterations. *)
Fixpoint loop (fuel : nat) (i : Z) (results : list B)
    : list (list A * option Z) * Outcome B E :=
  match fuel with
  | O => ([], Running)
  | S fuel' =>
      if i <? Z.of_nat (List.length items) then
        let batch := slice items i (i + batchSize) in
        match processFn batch (batch_index i) with
        | inl batchResult =>
            let '(calls, outcome) :=
              loop fuel' (i + batchSize) (results ++ [batchResult]) in
            ((batch, batch_index i) :: calls, outcome)
        | inr error => ([(batch, batch_index i)], Rejected error)
        end
      else ([], Resolved results)
  end.

(** [processBatches(items, processFn, batchSize)], run for at most [fuel]
    iterations. *)
Definition processBatches (fuel : nat)
    : list (list A * option Z) * Outcome B E :=
  loop fuel 0 [].

End ProcessBatches.

End ProcessBatches.
(** * Properties *)

(** ** The status ledger *)

Lemma validate_inv d d' : validate d = Ok d' -> d' = d.
Proof.
  unfold validate, res_bind, check. intros H.
  repeat case_match; simplify_eq; done.
Qed.

Lemma validate_status d d' :
  validate d = Ok d' -> exists s, status d = Some s /\ in_enum status_enum s = true.
Proof.
  unfold validate, res_bind, check. intros H.
  repeat case_match; simplify_eq; eauto.
Qed.

Lemma assign_inv existing sd d :
  assign existing sd = Ok d ->
  os_id d = os_id existing /\ collect_id d = collect_id existing /\
  on_path "status" (castString (sd_status sd)) = Ok (status d) /\
  on_path "transaction_id" (trimmed (castString (sd_transaction_id sd)))
    = Ok (transaction_id d) /\
  on_path "order_amount" (castNumber (sd_order_amount sd)) = Ok (order_amount d) /\
  on_path "transaction_amount" (castNumber (sd_transaction_amount sd))
    = Ok (transaction_amount d).
Proof.
  unfold assign. intros H. cast_steps H. subst d. simpl. done.
Qed.

Lemma construct_inv id orderId sd d :
  construct id orderId sd = Ok d ->
  os_id d = id /\ collect_id d = orderId /\
  on_path "status" (castString (with_default "created" (sd_status sd)))
    = Ok (status d) /\
  on_path "transaction_id" (trimmed (castString (sd_transaction_id sd)))
    = Ok (transaction_id d) /\
  on_path "order_amount" (castNumber (sd_order_amount sd)) = Ok (order_amount d) /\
  on_path "transaction_amount" (castNumber (sd_transaction_amount sd))
    = Ok (transaction_amount d).
Proof.
  unfold construct. intros H. cast_steps H. subst d. simpl. done.
Qed.

Lemma with_default_defined dflt v : v <> JUndefined -> with_default dflt v = v.
Proof. destruct v; simpl; congruence. Qed.

(** Assigning an observation to the entry that was built from it changes
    nothing, provided the two paths with a default were given. *)
Lemma assign_after_construct id orderId sd d :
  sd_status sd <> JUndefined -> sd_gateway sd <> JUndefined ->
  construct id orderId sd = Ok d -> assign d sd = Ok d.
Proof.
  intros Hs Hg. unfold construct, assign.
  rewrite !with_default_defined by done.
  intros H. unfold res_bind in *.
  repeat match type of H with
         | match on_path ?p ?c with _ => _ end = _ =>
             destruct (on_path p c); [|discriminate H]
         end.
  injection H as <-. done.
Qed.

Lemma assign_idem e sd d : assign e sd = Ok d -> assign d sd = Ok d.
Proof.
  unfold assign. intros H. unfold res_bind in *.
  repeat match type of H with
         | match on_path ?p ?c with _ => _ end = _ =>
             destruct (on_path p c); [|discriminate H]
         end.
  injection H as <-. done.
Qed.

Lemma truthy_JStr t : truthy (JStr t) = true <-> t <> "".
Proof.
  simpl. rewrite negb_true_iff. split.
  - intros H ->. done.
  - intros H. apply String.eqb_neq. done.
Qed.

(** A non-empty string is truthy and is cast to itself. *)
Lemma cast_string_id t :
  t <> "" -> truthy (JStr t) = true /\ castString (JStr t) = CastOk (Some t).
Proof. intros Hne. split; [by apply truthy_JStr|done]. Qed.

(** The update branch of [upsertStatus], as one step on the store. *)
Lemma upsertStatus_existing db orderId sd t i existing :
  truthy (sd_transaction_id sd) = true ->
  castString (sd_transaction_id sd) = CastOk (Some t) ->
  find_by_transaction orderId t (ledger db) = Some (i, existing) ->
  upsertStatus orderId sd db =
    match res_bind (assign existing sd) validate with
    | Ok d => (Ok d, with_ledger db (<[i := d]> (ledger db)))
    | Throw e => (Throw e, db)
    end.
Proof.
  intros Htr Hc Hfind. unfold upsertStatus. rewrite Htr.
  unfold findOne_transaction, bind, lift, get_db, ret. rewrite Hc. simpl.
  rewrite Hfind. unfold save_at, bind, lift, get_db, ret, set_ledger, res_bind.
  destruct (assign existing sd) as [u|e]; [|done].
  destruct (validate u) as [d|e]; done.
Qed.

(** The create branch of [upsertStatus], as one step on the store. *)
Lemma create_new_run db orderId sd :
  create_new orderId sd db =
    match res_bind (construct (nextId db) orderId sd) validate with
    | Ok d => (Ok d, with_ledger (bump db) (ledger db ++ [d]))
    | Throw e => (Throw e, bump db)
    end.
Proof.
  unfold create_new, fresh, save_new, bind, lift, get_db, ret, set_ledger,
    res_bind. simpl.
  destruct (construct _ _ _) as [u|e]; [|done].
  destruct (validate u) as [d|e]; done.
Qed.

Lemma upsertStatus_no_match db orderId sd t :
  castString (sd_transaction_id sd) = CastOk (Some t) ->
  find_by_transaction orderId t (ledger db) = None ->
  upsertStatus orderId sd db = create_new orderId sd db.
Proof.
  intros Hc Hfind. unfold upsertStatus.
  destruct (truthy (sd_transaction_id sd)); [|done].
  unfold findOne_transaction, bind, lift, get_db, ret. rewrite Hc. simpl.
  by rewrite Hfind.
Qed.

Lemma upsertStatus_no_id db orderId sd :
  truthy (sd_transaction_id sd) = false ->
  upsertStatus orderId sd db = create_new orderId sd db.
Proof. intros H. unfold upsertStatus. by rewrite H. Qed.

(** A truthy value that a String path takes is cast to a string. *)
Lemma truthy_cast_string path v o :
  truthy v = true -> on_path path (castString v) = Ok o ->
  exists t, castString v = CastOk (Some t) /\ o = Some t.
Proof.
  destruct v; try discriminate; intros _ [= <-]; eexists; done.
Qed.

(** What a path with [trim] stores of a value that is cast to [t]. *)
Lemma trimmed_cast path v t o :
  castString v = CastOk (Some t) ->
  on_path path (trimmed (castString v)) = Ok o -> o = Some (trim t).
Proof. intros ->. by intros [= <-]. Qed.

(** A falsy value is stored on a String path with [trim] as nothing, as the
    empty string, or, when it is [0] or [false], as its string form. *)
Lemma falsy_cast_string path v o :
  truthy v = false -> on_path path (trimmed (castString v)) = Ok o ->
  stored_without_lookup v \/ o = None \/ o = Some "".
Proof.
  unfold stored_without_lookup.
  destruct v as [| |b|n|s|l]; simpl; try discriminate.
  - intros _ [= <-]. tauto.
  - intros _ [= <-]. tauto.
  - intros -> _. tauto.
  - intros Hn%negb_false_iff%Z.eqb_eq _. subst n. tauto.
  - intros Hs%negb_false_iff%String.eqb_eq [= <-]. subst s. tauto.
Qed.

(** The decimal form of a number begins with a digit or with the sign. *)
Lemma pretty_N_go_head x s :
  (0 < x)%N -> exists d rest, pretty_N_go x s = String (pretty_N_char d) rest.
Proof.
  revert s. induction (N.lt_wf_0 x) as [x _ IH]; intros s Hx.
  rewrite pretty_N_go_step by done.
  destruct (decide (x `div` 10 = 0)%N) as [->|Hd].
  - rewrite pretty_N_go_0. eauto.
  - apply IH; [by apply N.div_lt|by apply N.neq_0_lt_0].
Qed.

Lemma pretty_Z_head (n : Z) :
  exists c rest, pretty n = String c rest
                 /\ (c = "-"%char \/ exists d, c = pretty_N_char d).
Proof.
  destruct n as [|p|p]; unfold pretty, pretty_Z, pretty, pretty_positive,
    pretty, pretty_N.
  - exists "0"%char, "". split; [done|]. right. by exists 0%N.
  - destruct (decide (N.pos p = 0%N)) as [|_]; [done|].
    destruct (pretty_N_go_head (N.pos p) "") as (d & rest & ->); [lia|].
    exists (pretty_N_char d), rest. split; [done|]. right. by exists d.
  - eexists "-"%char, _. split; [reflexivity|]. by left.
Qed.

(** No status of the two enumerations is the string form of a number or of a
    boolean: a status that is accepted was given as a string. *)
Lemma in_enum_pretty enum (n : Z) :
  Forall (fun s => exists c rest, s = String c rest /\ (97 <= nat_of_ascii c)%nat)
    enum ->
  in_enum enum (pretty n) = false.
Proof.
  intros Henum. unfold in_enum. apply not_true_iff_false.
  intros (s & Hin & Heq%String.eqb_eq)%existsb_exists.
  rewrite Forall_forall in Henum.
  destruct (Henum s) as (c & rest & -> & Hc).
  { by apply list_elem_of_In. }
  destruct (pretty_Z_head n) as (c' & rest' & Hp & Hhead).
  rewrite Hp in Heq. injection Heq as -> _.
  destruct Hhead as [->|[d ->]]; [vm_compute in Hc; lia|].
  unfold pretty_N_char in Hc. repeat case_match; vm_compute in Hc; lia.
Qed.

Lemma enum_lower_case :
  Forall (fun s => exists c rest, s = String c rest /\ (97 <= nat_of_ascii c)%nat)
    status_enum.
Proof.
  repeat constructor; eexists _, _; (split; [reflexivity|vm_compute; lia]).
Qed.

Lemma cast_status_string path v s :
  on_path path (castString v) = Ok (Some s) ->
  in_enum status_enum s = true -> v = JStr s.
Proof.
  destruct v as [| |b|n|s'|l]; try discriminate.
  - destruct b; intros [= <-]; discriminate.
  - intros [= <-]. change (to_string (JNum n)) with (pretty n).
    by rewrite (in_enum_pretty _ _ enum_lower_case).
  - by intros [= <-].
Qed.

(** Whatever [upsertStatus] does, it does to the ledger alone. *)
Lemma upsertStatus_frame db orderId sd r db' :
  upsertStatus orderId sd db = (r, db') ->
  orders db' = orders db /\ webhookLogs db' = webhookLogs db.
Proof.
  unfold upsertStatus.
  destruct (truthy (sd_transaction_id sd)) eqn:Htr.
  - unfold findOne_transaction, bind, lift, get_db, ret.
    destruct (on_path _ _) as [o|e] eqn:Hc; [|by intros [= <- <-]].
    destruct (match o with Some t => _ | None => None end) as [[i ex]|].
    + unfold save_at, bind, lift, get_db, ret, set_ledger.
      destruct (assign ex sd) as [u|e]; [|by intros [= <- <-]].
      destruct (validate u) as [d|e]; by intros [= <- <-].
    + rewrite create_new_run. destruct (res_bind _ _); by intros [= <- <-].
  - rewrite create_new_run. destruct (res_bind _ _); by intros [= <- <-].
Qed.

Lemma with_ledger_twice db l1 l2 :
  with_ledger (with_ledger db l1) l2 = with_ledger db l2.
Proof. done. Qed.

Lemma find_after_insert {A} (P : A -> Prop) `{!forall x, Decision (P x)}
    (l : list A) i x y :
  list_find P l = Some (i, x) -> P y ->
  list_find P (<[i := y]> l) = Some (i, y).
Proof.
  intros (Hi & _ & Hleast)%list_find_Some Hy.
  apply list_find_insert_Some. right; left.
  split_and!; eauto using lookup_lt_Some.
Qed.

Lemma find_after_append {A} (P : A -> Prop) `{!forall x, Decision (P x)}
    (l : list A) y :
  list_find P l = None -> P y ->
  list_find P (l ++ [y]) = Some (List.length l, y).
Proof.
  intros Hnone Hy. rewrite list_find_app_r by done.
  cbn. destruct (decide (P y)); [|done]. done.
Qed.

Lemma bind_validate_inv r d :
  res_bind r validate = Ok d -> r = Ok d /\ validate d = Ok d.
Proof.
  destruct r as [u|e]; simpl; [|done].
  intros H. pose proof (validate_inv _ _ H) as ->. done.
Qed.

Lemma cast_string_JStr path s o :
  on_path path (castString (JStr s)) = Ok o -> o = Some s.
Proof. by intros [= <-]. Qed.

Lemma trimmed_cast_JStr path s o :
  on_path path (trimmed (castString (JStr s))) = Ok o -> o = Some (trim s).
Proof. by intros [= <-]. Qed.

(** An accepted application of [upsertStatus] is one of three steps. *)
Lemma upsertStatus_accepted db orderId sd d db' :
  upsertStatus orderId sd db = (Ok d, db') ->
  validate d = Ok d /\
  ((exists t i existing,
       truthy (sd_transaction_id sd) = true /\
       castString (sd_transaction_id sd) = CastOk (Some t) /\
       find_by_transaction orderId t (ledger db) = Some (i, existing) /\
       assign existing sd = Ok d /\
       db' = with_ledger db (<[i := d]> (ledger db)))
   \/ (construct (nextId db) orderId sd = Ok d /\
       db' = with_ledger (bump db) (ledger db ++ [d]) /\
       ((exists t, truthy (sd_transaction_id sd) = true /\
                   castString (sd_transaction_id sd) = CastOk (Some t) /\
                   find_by_transaction orderId t (ledger db) = None)
        \/ truthy (sd_transaction_id sd) = false))).
Proof.
  intros Hrun.
  destruct (truthy (sd_transaction_id sd)) eqn:Htr.
  - destruct (on_path "transaction_id" (castString (sd_transaction_id sd)))
      as [o|e] eqn:Hc.
    + destruct (truthy_cast_string _ _ _ Htr Hc) as (t & Ht & ->).
      destruct (find_by_transaction orderId t (ledger db)) as [[i ex]|] eqn:Hf.
      * rewrite (upsertStatus_existing _ _ _ _ _ _ Htr Ht Hf) in Hrun.
        destruct (res_bind (assign ex sd) validate) as [u|e] eqn:Hb;
          [|done].
        injection Hrun as -> <-.
        apply bind_validate_inv in Hb as [? ?].
        split; [done|]. left. naive_solver.
      * rewrite (upsertStatus_no_match _ _ _ _ Ht Hf), create_new_run in Hrun.
        destruct (res_bind _ validate) as [u|e] eqn:Hb; [|done].
        injection Hrun as -> <-.
        apply bind_validate_inv in Hb as [? ?].
        split; [done|]. right. naive_solver.
    + unfold upsertStatus in Hrun. rewrite Htr in Hrun.
      unfold findOne_transaction, bind, lift in Hrun. rewrite Hc in Hrun.
      done.
  - rewrite (upsertStatus_no_id _ _ _ Htr), create_new_run in Hrun.
    destruct (res_bind _ validate) as [u|e] eqn:Hb; [|done].
    injection Hrun as -> <-.
    apply bind_validate_inv in Hb as [? ?].
    split; [done|]. right. naive_solver.
Qed.

(** A rejected application leaves the ledger as it was. *)
Lemma upsertStatus_rejected db orderId sd e db' :
  upsertStatus orderId sd db = (Throw e, db') -> ledger db' = ledger db.
Proof.
  unfold upsertStatus.
  destruct (truthy (sd_transaction_id sd)) eqn:Htr.
  - unfold findOne_transaction, bind, lift, get_db, ret.
    destruct (on_path _ _) as [o|e'] eqn:Hc; [|by intros [= <- <-]].
    destruct (match o with Some t => _ | None => None end) as [[i ex]|].
    + unfold save_at, bind, lift, get_db, ret, set_ledger.
      destruct (assign ex sd) as [u|e']; [|by intros [= <- <-]].
      destruct (validate u) as [d|e']; [done|by intros [= <- <-]].
    + rewrite create_new_run. destruct (res_bind _ _); [done|by intros [= <- <-]].
  - rewrite create_new_run. destruct (res_bind _ _); [done|by intros [= <- <-]].
Qed.

(** C1 (amended).  When the observation's transaction id matches a ledger
    entry of the order and the observation passes the schema, [upsertStatus]
    replaces that entry, in place, by the entry with every field of the
    observation assigned to it, the status included: the stored status is the
    observation's, whatever the status of the entry was. *)
Theorem upsertStatus_overwrites_matching_entry
    db orderId sd t i existing d :
  sd_transaction_id sd = JStr t -> t <> "" ->
  find_by_transaction orderId t (ledger db) = Some (i, existing) ->
  res_bind (assign existing sd) validate = Ok d ->
  upsertStatus orderId sd db
    = (Ok d, with_ledger db (<[i := d]> (ledger db)))
  /\ assign existing sd = Ok d
  /\ os_id d = os_id existing
  /\ exists s, sd_status sd = JStr s /\ status d = Some s.
Proof.
  intros Ht Hne Hfind Hok.
  destruct (cast_string_id t Hne) as [Htr Hc]. rewrite <- Ht in Htr, Hc.
  rewrite (upsertStatus_existing _ _ _ _ _ _ Htr Hc Hfind), Hok.
  apply bind_validate_inv in Hok as [Ha Hv].
  split_and!; [done..| |].
  - by apply assign_inv in Ha as (? & _).
  - apply assign_inv in Ha as (_ & _ & Hst & _).
    apply validate_status in Hv as (s & Hs & Hin).
    rewrite Hs in Hst. exists s. split; [|done].
    by apply (cast_status_string "status").
Qed.

Lemma upsertStatus_overwrites_matching_entry_witness :
  upsertStatus 1 (observation (JStr "T1") (JStr "pending") 100)
    db_completed
  = (Ok (sample_entry 2 (Some "T1") "pending" 100),
     with_ledger db_completed
       (<[0%nat := sample_entry 2 (Some "T1") "pending" 100]>
          (ledger db_completed)))
  /\ assign (sample_entry 2 (Some "T1") "completed" 100)
       (observation (JStr "T1") (JStr "pending") 100)
     = Ok (sample_entry 2 (Some "T1") "pending" 100)
  /\ os_id (sample_entry 2 (Some "T1") "pending" 100)
     = os_id (sample_entry 2 (Some "T1") "completed" 100)
  /\ exists s, sd_status (observation (JStr "T1") (JStr "pending") 100) = JStr s
               /\ status (sample_entry 2 (Some "T1") "pending" 100) = Some s.
Proof.
  apply (upsertStatus_overwrites_matching_entry db_completed 1
           (observation (JStr "T1") (JStr "pending") 100) "T1" 0%nat
           (sample_entry 2 (Some "T1") "completed" 100)
           (sample_entry 2 (Some "T1") "pending" 100)).
  - reflexivity.
  - discriminate.
  - reflexivity.
  - reflexivity.
Defined.

(** C1, as stated, fails: the ledger holds a completed (terminal) entry for
    transaction [T1]; the observation [{T1, pending}] is accepted and the
    entry's status becomes [pending]. *)
Lemma upsertStatus_regresses_terminal_status :
  find_by_transaction 1 "T1" (ledger db_completed)
    = Some (0%nat, sample_entry 2 (Some "T1") "completed" 100)
  /\ is_terminal (status (sample_entry 2 (Some "T1") "completed" 100)) = true
  /\ is_terminal (Some "pending") = false
  /\ exists d db',
       upsertStatus 1 (observation (JStr "T1") (JStr "pending") 100)
         db_completed = (Ok d, db')
       /\ ledger db' = [d]
       /\ status d = Some "pending"
       /\ status d <> status (sample_entry 2 (Some "T1") "completed" 100).
Proof.
  split_and!; try reflexivity.
  eexists _, _. split_and!; try reflexivity. discriminate.
Qed.

Lemma filter_none {A} (P : A -> Prop) `{!forall x, Decision (P x)} (l : list A) :
  list_find P l = None -> filter P l = [].
Proof.
  intros Hall%list_find_None. induction Hall as [|x l Hx _ IH]; [done|].
  by rewrite filter_cons_False.
Qed.

Lemma construct_other_id id id' orderId sd d :
  construct id orderId sd = Ok d ->
  construct id' orderId sd = Ok (with_id d id').
Proof.
  unfold construct, res_bind. intros H.
  repeat match type of H with
         | match on_path ?p ?c with _ => _ end = _ =>
             destruct (on_path p c); [|discriminate H]
         end.
  injection H as <-. done.
Qed.

(** The validators read the two amounts and the status only. *)
Lemma validate_same_fields d d' :
  order_amount d' = order_amount d ->
  transaction_amount d' = transaction_amount d ->
  status d' = status d ->
  validate d = Ok d -> validate d' = Ok d'.
Proof.
  unfold validate, res_bind, check. intros -> -> -> H.
  repeat case_match; simplify_eq; done.
Qed.


(** C2 (amended).  An accepted observation stores its own status (last writer
    wins).  Applied a second time, an observation that carries a transaction
    id changes nothing more: result and store are those of the first
    application.  One without a transaction id is appended once more, as a
    copy of the first entry under a new [_id]. *)
Theorem upsertStatus_reapplied db orderId sd d1 db1 :
  sd_status sd <> JUndefined -> sd_gateway sd <> JUndefined ->
  upsertStatus orderId sd db = (Ok d1, db1) ->
  (exists s, sd_status sd = JStr s /\ status d1 = Some s)
  /\ if truthy (sd_transaction_id sd)
     then upsertStatus orderId sd db1 = (Ok d1, db1)
     else upsertStatus orderId sd db1
          = (Ok (with_id d1 (nextId db1)),
             with_ledger (bump db1)
               (ledger db ++ [d1; with_id d1 (nextId db1)])).
Proof.
  intros Hs Hg Hrun.
  apply upsertStatus_accepted in Hrun as [Hv Hcase]. split.
  { apply validate_status in Hv as (s & Hst & Hin). exists s. split; [|done].
    assert (on_path "status" (castString (sd_status sd)) = Ok (status d1))
      as Hc.
    { destruct Hcase as [(?&?&?&_&_&_&Ha&_)|(Hc&_)].
      - by apply assign_inv in Ha as (_&_&?&_).
      - apply construct_inv in Hc as (_&_&Hc&_).
        by rewrite (with_default_defined _ _ Hs) in Hc. }
    rewrite Hst in Hc. by apply (cast_status_string "status"). }
  destruct Hcase as [(t & i & ex & Htr & Ht & Hf & Ha & ->)
                    |(Hc & -> & [(t & Htr & Ht & Hf)|Hfalsy])].
  - rewrite Htr.
    assert (find_by_transaction orderId t
              (ledger (with_ledger db (<[i := d1]> (ledger db))))
            = Some (i, d1)) as Hf'.
    { simpl. unfold find_by_transaction in *.
      apply (find_after_insert _ _ _ ex); [done|].
      pose proof Hf as (_ & [Hc1 _] & _)%list_find_Some.
      apply assign_inv in Ha as (_ & Hcd & _ & Hcast & _).
      apply (trimmed_cast _ _ _ _ Ht) in Hcast.
      split; congruence. }
    rewrite (upsertStatus_existing _ _ _ _ _ _ Htr Ht Hf').
    rewrite (assign_idem _ _ _ Ha). simpl. rewrite Hv.
    by rewrite with_ledger_twice, list_insert_insert_eq.
  - rewrite Htr.
    assert (find_by_transaction orderId t
              (ledger (with_ledger (bump db) (ledger db ++ [d1])))
            = Some (List.length (ledger db), d1)) as Hf'.
    { simpl. unfold find_by_transaction in *.
      apply find_after_append; [done|].
      apply construct_inv in Hc as (_ & Hcd & _ & Hcast & _).
      apply (trimmed_cast _ _ _ _ Ht) in Hcast.
      split; congruence. }
    rewrite (upsertStatus_existing _ _ _ _ _ _ Htr Ht Hf').
    rewrite (assign_after_construct _ _ _ _ Hs Hg Hc). simpl. rewrite Hv.
    rewrite with_ledger_twice. f_equal. f_equal.
    rewrite insert_app_r_alt by done.
    by rewrite Nat.sub_diag.
  - rewrite Hfalsy.
    rewrite (upsertStatus_no_id _ _ _ Hfalsy), create_new_run.
    rewrite (construct_other_id _ (nextId (with_ledger (bump db)
               (ledger db ++ [d1]))) _ _ _ Hc). simpl.
    rewrite (validate_same_fields d1 (with_id d1 (S (nextId db)))) by done.
    unfold with_ledger, bump. simpl. by rewrite <- app_assoc.
Qed.

Lemma upsertStatus_reapplied_witness :
  (exists s, sd_status (observation (JStr "T1") (JStr "completed") 100) = JStr s
             /\ status (sample_entry 2 (Some "T1") "completed" 100) = Some s)
  /\ upsertStatus 1 (observation (JStr "T1") (JStr "completed") 100)
       db_completed
     = (Ok (sample_entry 2 (Some "T1") "completed" 100), db_completed).
Proof.
  apply (upsertStatus_reapplied db_fresh 1
           (observation (JStr "T1") (JStr "completed") 100)
           (sample_entry 2 (Some "T1") "completed" 100) db_completed).
  - discriminate.
  - discriminate.
  - reflexivity.
Defined.

(** C2, as stated, fails twice over.  An observation without a transaction id
    is not idempotent: a second application adds a second entry.  And a
    pending observation applied after a completed one for the same
    transaction replaces the completed status. *)
Lemma upsertStatus_not_idempotent_without_transaction_id :
  (exists d1 db1 d2 db2,
     upsertStatus 1 (observation JUndefined (JStr "pending") 100) db_fresh
       = (Ok d1, db1)
     /\ upsertStatus 1 (observation JUndefined (JStr "pending") 100) db1
       = (Ok d2, db2)
     /\ ledger db1 = [d1]
     /\ ledger db2 = [d1; d2]
     /\ ledger db2 <> ledger db1)
  /\ (exists d1 db1 d2 db2,
        upsertStatus 1 (observation (JStr "T1") (JStr "completed") 100) db_fresh
          = (Ok d1, db1)
        /\ upsertStatus 1 (observation (JStr "T1") (JStr "pending") 100) db1
          = (Ok d2, db2)
        /\ map status (ledger db1) = [Some "completed"]
        /\ map status (ledger db2) = [Some "pending"]).
Proof.
  split.
  - eexists _, _, _, _. split_and!; try reflexivity. discriminate.
  - eexists _, _, _, _. split_and!; reflexivity.
Qed.

Lemma unique_insert_same_key l i existing d :
  unique_transactions l -> l !! i = Some existing ->
  collect_id d = collect_id existing ->
  transaction_id d = transaction_id existing ->
  unique_transactions (<[i := d]> l).
Proof.
  intros Hu Hi Hc Ht a b d1 d2 Ha Hb Hcc Htt Hcarry.
  assert (forall k x, <[i := d]> l !! k = Some x ->
            exists x', l !! k = Some x' /\ collect_id x' = collect_id x /\
                       transaction_id x' = transaction_id x) as Hback.
  { intros k x [(-> & <- & _)|[_ Hk]]%list_lookup_insert_Some; eauto. }
  destruct (Hback _ _ Ha) as (d1' & Ha' & Hc1 & Ht1).
  destruct (Hback _ _ Hb) as (d2' & Hb' & Hc2 & Ht2).
  apply (Hu a b d1' d2'); try done; try congruence.
  destruct Hcarry as (t & ? & ?). exists t. split; congruence.
Qed.

Lemma unique_append l d :
  unique_transactions l ->
  (carries_transaction_id d ->
   Forall (fun x => ~ (collect_id x = collect_id d /\
                      transaction_id x = transaction_id d)) l) ->
  unique_transactions (l ++ [d]).
Proof.
  intros Hu Hfresh a b d1 d2 Ha Hb Hcc Htt Hcarry.
  apply lookup_app_Some in Ha as [Ha|[Hla Ha]];
    apply lookup_app_Some in Hb as [Hb|[Hlb Hb]].
  - by apply (Hu a b d1 d2).
  - apply list_lookup_singleton_Some in Hb as [Hb ->].
    assert (carries_transaction_id d2) as Hc2.
    { destruct Hcarry as (t & ? & ?). exists t. split; congruence. }
    specialize (Hfresh Hc2). rewrite Forall_lookup in Hfresh.
    destruct (Hfresh _ _ Ha). done.
  - apply list_lookup_singleton_Some in Ha as [Ha ->].
    specialize (Hfresh Hcarry). rewrite Forall_lookup in Hfresh.
    destruct (Hfresh _ _ Hb). done.
  - apply list_lookup_singleton_Some in Ha as [Ha ->].
    apply list_lookup_singleton_Some in Hb as [Hb ->]. lia.
Qed.

(** [upsertStatus] keeps the ledger free of duplicates, at most one entry per
    order and transaction id, for every observation but those whose
    transaction id is [0] or [false]. *)
Lemma upsertStatus_unique db orderId sd r db' :
  ~ stored_without_lookup (sd_transaction_id sd) ->
  unique_transactions (ledger db) ->
  upsertStatus orderId sd db = (r, db') ->
  unique_transactions (ledger db').
Proof.
  intros Hlook Hu Hrun. destruct r as [d|e].
  - apply upsertStatus_accepted in Hrun as [Hv [Hupd|Hnew]].
    + destruct Hupd as (t & i & ex & Htr & Ht & Hf & Ha & ->). simpl.
      apply list_find_Some in Hf as (Hi & [Hc Htid] & _).
      apply assign_inv in Ha as (_ & Hcd & _ & Hcast & _).
      apply (trimmed_cast _ _ _ _ Ht) in Hcast.
      eapply unique_insert_same_key; eauto. congruence.
    + destruct Hnew as (Hc & -> & Hcase). simpl.
      apply construct_inv in Hc as (_ & Hcd & _ & Hcast & _).
      apply unique_append; [done|]. intros (t' & Ht' & Hne').
      destruct Hcase as [(t & Htr & Ht & Hf)|Hfalsy].
      * apply (trimmed_cast _ _ _ _ Ht) in Hcast.
        apply list_find_None in Hf. rewrite Hcd, Hcast. done.
      * destruct (falsy_cast_string _ _ _ Hfalsy Hcast) as [?|[Hn|Hn]];
          [done|congruence|congruence].
  - by rewrite (upsertStatus_rejected _ _ _ _ _ Hrun).
Qed.




(** A transaction id with white space around it is the entry's: the query
    trims it, the completed entry for [T1] is found and overwritten, and the
    ledger still has one entry. *)
Lemma untrimmed_transaction_id_matches :
  find_by_transaction 1 " T1 " (ledger db_completed)
    = Some (0%nat, sample_entry 2 (Some "T1") "completed" 100)
  /\ upsertStatus 1 (observation (JStr " T1 ") (JStr "pending") 100)
       db_completed
     = (Ok (sample_entry 2 (Some "T1") "pending" 100),
        with_ledger db_completed [sample_entry 2 (Some "T1") "pending" 100]).
Proof. split; reflexivity. Qed.

(** ** Retry with backoff *)

Section RetryFacts.

Context {A E : Type}.
Variable operation : Z -> A + E.
Variables maxRetries baseDelay maxDelay : Z.

Lemma retry_loop_run (n : nat) :
  forall attempt fuel lastError,
    0 <= attempt -> attempt + Z.of_nat n <= maxRetries -> (n < fuel)%nat ->
    (forall j, attempt <= j < attempt + Z.of_nat n ->
               exists e, operation j = inr e) ->
    ((exists a, operation (attempt + Z.of_nat n) = inl a)
     \/ attempt + Z.of_nat n = maxRetries) ->
    retry_loop operation maxRetries baseDelay maxDelay fuel attempt lastError
    = (flat_map (failed_round baseDelay maxDelay) (seqZ attempt (Z.of_nat n))
         ++ [Call (attempt + Z.of_nat n)],
       match operation (attempt + Z.of_nat n) with
       | inl a => Resolved a
       | inr e => Rejected (Some e)
       end).
Proof.
  induction n as [|n IH]; intros attempt fuel lastError Hpos Hle Hfuel Hfail Hend.
  - destruct fuel as [|fuel]; [lia|].
    change (Z.of_nat 0) with 0 in *. rewrite Z.add_0_r in *. simpl.
    rewrite (proj2 (Z.leb_le _ _)) by lia.
    destruct (operation attempt) as [a|e] eqn:Hop; [done|].
    destruct Hend as [[a Ha]|Hmax]; [congruence|].
    by rewrite (proj2 (Z.eqb_eq _ _) Hmax).
  - destruct fuel as [|fuel]; [lia|]. cbn [retry_loop].
    rewrite (proj2 (Z.leb_le _ _)) by lia.
    destruct (Hfail attempt) as [e He]; [lia|]. rewrite He.
    rewrite (proj2 (Z.eqb_neq _ _)) by lia.
    replace (attempt + Z.of_nat (S n)) with (attempt + 1 + Z.of_nat n) in *
      by lia.
    rewrite (IH (attempt + 1) fuel (Some e)); try lia; try done.
    + rewrite (seqZ_cons attempt) by lia.
      replace (Z.succ attempt) with (attempt + 1) by lia.
      replace (Z.pred (Z.of_nat (S n))) with (Z.of_nat n) by lia.
      done.
    + intros j Hj. apply Hfail. lia.
Qed.

Lemma attempts_rounds (l : list Z) (k : Z) :
  attempts (flat_map (failed_round baseDelay maxDelay) l ++ [Call k])
  = S (List.length l).
Proof.
  unfold attempts. induction l as [|j l IH]; [done|].
  simpl. by rewrite IH.
Qed.

Lemma delays_rounds (l : list Z) (k : Z) :
  delays (flat_map (failed_round baseDelay maxDelay) l ++ [Call k])
  = map (delayTime baseDelay maxDelay) l.
Proof.
  induction l as [|j l IH]; [done|].
  simpl. by rewrite IH.
Qed.

End RetryFacts.

(** C4 (amended).  [retryWithBackoff] retries every failure, whatever the
    error: when the calls of iterations [0 .. k-1] fail, and [k <= maxRetries]
    is the iteration that succeeds or the last one allowed, the operation is
    called [k + 1] times, the wait after failed iteration [j] is
    [min (baseDelay * 2^j, maxDelay)], and the promise settles as call [k]
    did.  So there are at most [maxRetries + 1] attempts, and exactly that
    many when every call fails. *)
Theorem retryWithBackoff_retries_every_failure {A E : Type}
    (operation : Z -> A + E) (maxRetries baseDelay maxDelay k : Z) :
  0 <= k <= maxRetries ->
  (forall j, 0 <= j < k -> exists e, operation j = inr e) ->
  ((exists a, operation k = inl a) \/ k = maxRetries) ->
  let run := retryWithBackoff operation maxRetries baseDelay maxDelay in
  attempts (fst run) = Z.to_nat (k + 1)
  /\ delays (fst run)
     = map (fun j => Z.min (baseDelay * 2 ^ j) maxDelay) (seqZ 0 k)
  /\ snd run = match operation k with
               | inl a => Resolved a
               | inr e => Rejected (Some e)
               end.
Proof.
  intros Hk Hfail Hend run. subst run. unfold retryWithBackoff.
  rewrite (retry_loop_run operation maxRetries baseDelay maxDelay
             (Z.to_nat k) 0 _ None); try lia.
  - rewrite !Z2Nat.id by lia. simpl.
    rewrite attempts_rounds, delays_rounds, length_seqZ.
    split_and!; [lia|done|done].
  - intros j Hj. apply Hfail. lia.
  - rewrite Z2Nat.id by lia. done.
Qed.

Lemma retryWithBackoff_retries_every_failure_witness :
  let run := retryWithBackoff
               (fun _ : Z => inr (http_error 400) : JsVal + _) 3 1000 5000 in
  attempts (fst run) = Z.to_nat (3 + 1)
  /\ delays (fst run)
     = map (fun j => Z.min (1000 * 2 ^ j) 5000) (seqZ 0 3)
  /\ snd run = Rejected (Some (http_error 400)).
Proof.
  apply (retryWithBackoff_retries_every_failure
           (fun _ : Z => inr (http_error 400) : JsVal + _) 3 1000 5000 3).
  - lia.
  - intros j _. eexists. reflexivity.
  - right. reflexivity.
Defined.

(** C4, as stated, fails: a [createCollectRequest] whose every call is
    answered with HTTP 400 makes four attempts, not one, and waits 1000, 2000
    and 4000 ms between them. *)
Lemma createCollectRequest_retries_client_errors :
  let run := PaymentService.createCollectRequest
               (fun _ => inr (http_error 400)) in
  attempts (fst run) = 4%nat
  /\ attempts (fst run) <> 1%nat
  /\ delays (fst run) = [1000; 2000; 4000]
  /\ exists e, snd run = PaymentService.Failure e
               /\ PaymentService.se_status e = 400.
Proof.
  split_and!; try reflexivity; try discriminate.
  eexists. split; reflexivity.
Qed.

(** ** The status mapping of the poll path *)

Lemma strict_eq_str_true v lit : strict_eq_str v lit = true <-> v = JStr lit.
Proof.
  destruct v; simpl; try (split; [discriminate|congruence]).
  rewrite String.eqb_eq. split; congruence.
Qed.

Lemma strict_eq_str_false v lit : strict_eq_str v lit = false <-> v <> JStr lit.
Proof.
  rewrite <- strict_eq_str_true. destruct (strict_eq_str v lit); split; congruence.
Qed.

Lemma dbStatus_cases v :
  (v = JStr "SUCCESS" -> PaymentController.dbStatus v = "completed")
  /\ (v = JStr "FAILED" -> PaymentController.dbStatus v = "failed")
  /\ (v <> JStr "SUCCESS" -> v <> JStr "FAILED" ->
      PaymentController.dbStatus v = "pending").
Proof.
  unfold PaymentController.dbStatus. split_and!.
  - intros ->. done.
  - intros ->. done.
  - intros H1%strict_eq_str_false H2%strict_eq_str_false. by rewrite H1, H2.
Qed.

Lemma poll_update_status rt existing data d :
  PaymentController.poll_update rt existing data = Ok d ->
  status d = Some (PaymentController.dbStatus (assoc "status" data)).
Proof.
  unfold PaymentController.poll_update, res_bind.
  destruct (on_path _ _); [|done]. by intros [= <-].
Qed.

(** C9.  On the client-poll path, when the order has a ledger entry and the
    rewritten entry passes the schema, the status stored is [completed] for
    the vendor status ["SUCCESS"], [failed] for ["FAILED"], and [pending] for
    every other value. *)
Theorem poll_path_status_mapping rt crid order_id school data db i existing d :
  crid <> "" -> school <> "" ->
  find_by_order order_id (ledger db) = Some (i, existing) ->
  res_bind (PaymentController.poll_update rt existing data) validate = Ok d ->
  snd (PaymentController.checkPaymentStatus rt crid (Some order_id)
         (Some school) (PaymentService.Success data) db)
    = with_ledger db (<[i := d]> (ledger db))
  /\ (assoc "status" data = JStr "SUCCESS" -> status d = Some "completed")
  /\ (assoc "status" data = JStr "FAILED" -> status d = Some "failed")
  /\ (assoc "status" data <> JStr "SUCCESS" ->
      assoc "status" data <> JStr "FAILED" -> status d = Some "pending").
Proof.
  intros Hc Hs Hfind Hok.
  apply bind_validate_inv in Hok as Hok'. destruct Hok' as [Hupd Hv].
  pose proof (poll_update_status _ _ _ _ Hupd) as Hst.
  destruct (dbStatus_cases (assoc "status" data)) as (H1 & H2 & H3).
  split_and!.
  - unfold PaymentController.checkPaymentStatus.
    rewrite (proj2 (String.eqb_neq _ _) Hc). simpl.
    rewrite (proj2 (String.eqb_neq _ _) Hs).
    unfold PaymentController.poll_store, try_catch, bind, get_db, lift, ret.
    rewrite Hfind, Hupd. unfold save_at, bind, lift, get_db, set_ledger, ret.
    rewrite Hv. done.
  - intros H. by rewrite Hst, H1.
  - intros H. by rewrite Hst, H2.
  - intros Ha Hb. by rewrite Hst, H3.
Qed.

Lemma poll_path_status_mapping_witness :
  snd (PaymentController.checkPaymentStatus sample_runtime "CRQ123" (Some 1%nat)
         (Some "SCH001") (PaymentService.Success (poll_data "SUCCESS"))
         db_pending)
    = with_ledger db_pending [polled_entry]
  /\ status polled_entry = Some "completed".
Proof.
  destruct (poll_path_status_mapping sample_runtime "CRQ123" 1 "SCH001"
              (poll_data "SUCCESS") db_pending 0%nat
              (sample_entry 2 None "pending" 100) polled_entry)
    as (Hrun & Hsuccess & _ & _).
  - discriminate.
  - discriminate.
  - reflexivity.
  - reflexivity.
  - split; [exact Hrun | apply Hsuccess; reflexivity].
Defined.

(** ** Payload normalisation *)



Lemma truthy_prop_not_nullish k v : truthy (prop k v) = true -> nullish v = false.
Proof. by destruct v. Qed.

(** The status of the parsed observation is the payload's, as received. *)
Lemma parse_status rt payload parsed :
  parseWebhookPayload rt payload = Ok parsed ->
  p_status parsed = payload_status payload.
Proof.
  unfold parseWebhookPayload, parse_body, payload_status.
  destruct (nullish payload); [done|].
  destruct (truthy (prop "order_info" payload)) eqn:Hoi.
  - destruct (parse_order_info _ _) as [p1|e] eqn:Hp1; simpl; [|done].
    assert (p_status p1 = JNull) as Hs1.
    { unfold parse_order_info, res_bind in Hp1.
      repeat case_match; simplify_eq; done. }
    destruct (truthy (prop "payment_info" payload)); intros [= <-]; done.
  - simpl. destruct (truthy (prop "payment_info" payload)); intros [= <-]; done.
Qed.




(** ** The two entry paths *)

Lemma upsertStatus_status db orderId sd d db' s :
  sd_status sd = JStr s ->
  upsertStatus orderId sd db = (Ok d, db') ->
  status d = Some s /\ in_enum status_enum s = true.
Proof.
  intros Hs Hrun.
  apply upsertStatus_accepted in Hrun as [Hv Hcase].
  assert (on_path "status" (castString (sd_status sd)) = Ok (status d)) as Hc.
  { destruct Hcase as [(?&?&?&_&_&_&Ha&_)|(Hc&_)].
    - by apply assign_inv in Ha as (_&_&?&_).
    - apply construct_inv in Hc as (_&_&Hc&_).
      rewrite Hs in Hc |- *. exact Hc. }
  rewrite Hs in Hc. injection Hc as Hc.
  apply validate_status in Hv as (s' & Hs' & Hin).
  split; congruence.
Qed.

Lemma dbStatus_fixed raw :
  PaymentController.dbStatus (JStr raw) = raw <-> raw = "pending".
Proof.
  unfold PaymentController.dbStatus. simpl. split.
  - destruct (String.eqb raw "SUCCESS") eqn:H1.
    { apply String.eqb_eq in H1 as ->. discriminate. }
    destruct (String.eqb raw "FAILED") eqn:H2.
    { apply String.eqb_eq in H2 as ->. discriminate. }
    done.
  - intros ->. done.
Qed.

(** C3 (amended).  The mapping is applied on the client-poll path only.  The
    webhook path hands the payload's status string to [upsertStatus] as
    received, and the ledger stores that very string (which it accepts only
    from its own enumeration), while the poll path stores the mapped value;
    the two agree for the raw string ["pending"] and for no other. *)
Theorem status_mapping_on_poll_path_only rt payload parsed order raw :
  parseWebhookPayload rt payload = Ok parsed ->
  payload_status payload = JStr raw ->
  sd_status (webhook_status_data parsed order) = JStr raw
  /\ (forall db d db',
        upsertStatus (o_id order) (webhook_status_data parsed order) db
          = (Ok d, db') ->
        status d = Some raw /\ in_enum status_enum raw = true)
  /\ (forall existing data d,
        assoc "status" data = JStr raw ->
        PaymentController.poll_update rt existing data = Ok d ->
        status d = Some (PaymentController.dbStatus (JStr raw)))
  /\ (PaymentController.dbStatus (JStr raw) = raw <-> raw = "pending").
Proof.
  intros Hparse Hraw.
  pose proof (parse_status _ _ _ Hparse) as Hst. rewrite Hraw in Hst.
  split_and!.
  - done.
  - intros db d db' Hrun.
    by apply (upsertStatus_status db (o_id order)
                (webhook_status_data parsed order) d db' raw).
  - intros existing data d Hdata Hupd.
    rewrite <- Hdata. by apply (poll_update_status _ _ _ _ Hupd).
  - apply dbStatus_fixed.
Qed.

Lemma status_mapping_on_poll_path_only_witness :
  exists parsed,
    parseWebhookPayload sample_runtime
      (webhook_payload "ORD-1" "CRQ123/TXN456" "completed") = Ok parsed
    /\ sd_status (webhook_status_data parsed sample_order) = JStr "completed"
    /\ PaymentController.dbStatus (JStr "completed") <> "completed".
Proof.
  eexists. split; [reflexivity|].
  destruct (status_mapping_on_poll_path_only sample_runtime
              (webhook_payload "ORD-1" "CRQ123/TXN456" "completed")
              _ sample_order "completed" eq_refl eq_refl)
    as (Hsd & _ & _ & Hfixed).
  split; [exact Hsd|].
  intros Heq. apply Hfixed in Heq. discriminate Heq.
Defined.

(** C3, as stated, fails.  For the raw string ["SUCCESS"] the poll path
    stores [completed], while the webhook path stores nothing: the schema
    rejects the unmapped string and the delivery fails.  For the raw string
    ["completed"] the poll path stores [pending] and the webhook path stores
    [completed]. *)
Lemma poll_and_webhook_store_different_statuses :
  map status
    (ledger (snd (PaymentController.checkPaymentStatus sample_runtime
                    "CRQ123" (Some 1%nat) (Some "SCH001")
                    (PaymentService.Success (poll_data "SUCCESS"))
                    db_pending)))
    = [Some "completed"]
  /\ fst (processWebhook sample_runtime
            (webhook_request (webhook_payload "ORD-1" "CRQ123" "SUCCESS"))
            db_pending)
     = Ok response_failed
  /\ map status
       (ledger (snd (processWebhook sample_runtime
                       (webhook_request
                          (webhook_payload "ORD-1" "CRQ123" "SUCCESS"))
                       db_pending)))
     = [Some "pending"]
  /\ map status
       (ledger (snd (PaymentController.checkPaymentStatus sample_runtime
                       "CRQ123" (Some 1%nat) (Some "SCH001")
                       (PaymentService.Success (poll_data "completed"))
                       db_pending)))
     = [Some "pending"]
  /\ fst (processWebhook sample_runtime
            (webhook_request (webhook_payload "ORD-1" "CRQ123" "completed"))
            db_pending)
     = Ok response_ok
  /\ map status
       (ledger (snd (processWebhook sample_runtime
                       (webhook_request
                          (webhook_payload "ORD-1" "CRQ123" "completed"))
                       db_pending)))
     = [Some "pending"; Some "completed"].
Proof. split_and!; reflexivity. Qed.

(** ** Webhook deliveries *)

Lemma bind_run {A B} (m : M A) (k : A -> M B) db :
  bind m k db = match m db with
                | (Ok a, db') => k a db'
                | (Throw e, db') => (Throw e, db')
                end.
Proof. done. Qed.

Lemma createLog_run logData db :
  createLog logData db =
    match construct_log (nextId db) logData with
    | Ok w => (Ok w, with_logs (bump db) (webhookLogs db ++ [w]))
    | Throw e => (Throw e, bump db)
    end.
Proof.
  unfold createLog, fresh, bind, lift, get_db, ret, set_webhookLogs. simpl.
  destruct (construct_log _ _); done.
Qed.

Lemma construct_log_inv id logData w :
  construct_log id logData = Ok w ->
  wl_id w = id /\ wl_processing_status w = wd_processing_status logData.
Proof.
  unfold construct_log, res_bind. intros H.
  repeat match type of H with
         | match ?c with _ => _ end = _ => destruct c; [|discriminate H]
         end.
  injection H as <-. done.
Qed.

(** The failure handler's record is accepted whenever the first one was: the
    two come from the same fields. *)
Lemma construct_log_failed id id' logData w msg :
  wd_processing_status logData = "queued" ->
  construct_log id logData = Ok w ->
  construct_log id' (log_data_failed logData msg) = Ok (failed_copy w id' msg).
Proof.
  unfold construct_log, res_bind. intros Hq H. simpl.
  destruct (check "raw_payload" _); [|discriminate H].
  rewrite Hq in H. simpl in H.
  repeat match type of H with
         | match on_path ?p ?c with _ => _ end = _ =>
             destruct (on_path p c); [|discriminate H]
         end.
  injection H as <-. done.
Qed.

Lemma parse_not_nullish rt payload parsed :
  parseWebhookPayload rt payload = Ok parsed -> nullish payload = false.
Proof.
  unfold parseWebhookPayload, parse_body. by destruct (nullish payload).
Qed.

(** [processWebhook] once the payload is parsed and the delivery record
    created: the rest either succeeds, or the failure handler runs with a
    [webhookLogData] that has no [_id]. *)
Lemma processWebhook_after_createLog rt req db parsed w db1 :
  parseWebhookPayload rt (body req) = Ok parsed ->
  createLog (log_data_parsed (log_data_init rt req) parsed) db = (Ok w, db1) ->
  processWebhook rt req db =
    match after_createLog rt parsed w db1 with
    | (Ok r, db2) => (Ok r, db2)
    | (Throw e, db2) =>
        (Ok response_failed,
         with_logs (bump db2)
           (webhookLogs db2 ++ [failed_copy w (nextId db2) (message_of e)]))
    end.
Proof.
  intros Hparse Hlog. unfold processWebhook.
  rewrite (parse_not_nullish _ _ _ Hparse), Hparse.
  unfold try_catch. rewrite bind_run, Hlog.
  fold (after_createLog rt parsed w).
  destruct (after_createLog rt parsed w db1) as [[r|e] db2]; [done|].
  unfold on_failure. simpl. unfold bind. rewrite createLog_run.
  rewrite createLog_run in Hlog.
  destruct (construct_log (nextId db) _) as [w0|e0] eqn:Hc; [|done].
  injection Hlog as -> <-.
  rewrite (construct_log_failed (nextId db) (nextId db2)
             (log_data_parsed (log_data_init rt req) parsed) w
             (message_of e) eq_refl Hc).
  done.
Qed.

Lemma save_log_run w db :
  save_log w db =
    match find_log (wl_id w) (webhookLogs db) with
    | Some (i, _) => (Ok w, with_logs db (<[i := w]> (webhookLogs db)))
    | None => (Throw DocumentNotFound, db)
    end.
Proof.
  unfold save_log, bind, get_db, set_webhookLogs, ret, throw.
  destruct (find_log _ _) as [[i x]|]; done.
Qed.

Lemma find_order_frame parsed db r db' :
  find_order parsed db = (r, db') -> db' = db.
Proof.
  unfold find_order, findByCustomOrderId, findOne_collect_request_id,
    bind, lift, get_db, ret.
  repeat case_match; intros; simplify_eq; done.
Qed.

Lemma updateStatus_frame i o st vr db r db' :
  updateStatus i o st vr db = (r, db') ->
  ledger db' = ledger db /\ webhookLogs db' = webhookLogs db
  /\ nextId db' = nextId db.
Proof.
  unfold updateStatus, bind, lift, get_db, set_orders, ret.
  repeat case_match; intros; simplify_eq; done.
Qed.

Lemma upsertStatus_nextId db orderId sd r db' :
  upsertStatus orderId sd db = (r, db') -> (nextId db <= nextId db')%nat.
Proof.
  unfold upsertStatus.
  destruct (truthy (sd_transaction_id sd)) eqn:Htr.
  - unfold findOne_transaction, bind, lift, get_db, ret.
    destruct (on_path _ _) as [o|e'] eqn:Hc; [|by intros [= <- <-]].
    destruct (match o with Some t => _ | None => None end) as [[i ex]|].
    + unfold save_at, bind, lift, get_db, ret, set_ledger.
      destruct (assign ex sd) as [u|e']; [|by intros [= <- <-]].
      destruct (validate u) as [d|e']; by intros [= <- <-].
    + rewrite create_new_run.
      destruct (res_bind _ _); intros [= <- <-]; simpl; lia.
  - rewrite create_new_run.
    destruct (res_bind _ _); intros [= <- <-]; simpl; lia.
Qed.

(** [processWebhookData], step by step. *)
Lemma processWebhookData_run parsed w db :
  processWebhookData parsed w db =
    if negb (truthy (p_custom_order_id parsed))
       && negb (truthy (p_collect_request_id parsed))
    then (Throw (Error "No order identifier found in webhook payload"), db)
    else
      match find_order parsed db with
      | (Throw e, db0) => (Throw e, db0)
      | (Ok None, db0) => (Throw (Error (order_not_found_message parsed)), db0)
      | (Ok (Some (i, order)), db0) =>
          match save_log (link_order w order) db0 with
          | (Throw e, db1) => (Throw e, db1)
          | (Ok w', db1) =>
              match upsertStatus (o_id order)
                      (webhook_status_data parsed order) db1 with
              | (Throw e, db2) => (Throw e, db2)
              | (Ok _, db2) =>
                  if includes final_statuses (p_status parsed) then
                    match updateStatus i order (p_status parsed) None db2 with
                    | (Throw e, db3) => (Throw e, db3)
                    | (Ok _, db3) => (Ok w', db3)
                    end
                  else (Ok w', db2)
              end
          end
      end.
Proof.
  unfold processWebhookData.
  destruct (negb _ && negb _); [done|].
  rewrite bind_run. destruct (find_order parsed db) as [[[[i order]|]|e] db0];
    [|done..].
  rewrite bind_run. destruct (save_log _ db0) as [[w'|e] db1]; [|done].
  rewrite bind_run. destruct (upsertStatus _ _ db1) as [[d|e] db2]; [|done].
  rewrite bind_run. destruct (includes _ _); [|done].
  rewrite bind_run. destruct (updateStatus _ _ _ _ db2) as [[o|e] db3]; done.
Qed.

(** What [processWebhookData] may do to the delivery records and to the
    identifier supply. *)
Lemma processWebhookData_logs parsed w db r db' :
  processWebhookData parsed w db = (r, db') ->
  logs_step w (webhookLogs db) (webhookLogs db')
  /\ (nextId db <= nextId db')%nat
  /\ (forall w', r = Ok w' ->
        exists order, w' = link_order w order
                      /\ find_log (wl_id w) (webhookLogs db') <> None).
Proof.
  rewrite processWebhookData_run.
  destruct (negb _ && negb _).
  { intros [= <- <-]. split_and!; [by left|done|done]. }
  destruct (find_order parsed db) as [[[[i order]|]|e] db0] eqn:Hfind;
    pose proof (find_order_frame _ _ _ _ Hfind) as ->;
    [|intros [= <- <-]; split_and!; [by left|done|done]..].
  rewrite save_log_run.
  destruct (find_log (wl_id (link_order w order)) (webhookLogs db))
    as [[j x]|] eqn:Hj;
    [|intros [= <- <-]; split_and!; [by left|done|done]].
  assert (logs_step w (webhookLogs db)
            (<[j := link_order w order]> (webhookLogs db))) as Hstep.
  { right. by exists j, x, order. }
  assert (find_log (wl_id w) (<[j := link_order w order]> (webhookLogs db))
          <> None) as Hstill.
  { unfold find_log in *. erewrite find_after_insert; [done|exact Hj|done]. }
  destruct (upsertStatus _ _ _) as [[d|e] db2] eqn:Hup;
    pose proof (upsertStatus_frame _ _ _ _ _ Hup) as [_ Hl2];
    pose proof (upsertStatus_nextId _ _ _ _ _ Hup) as Hn2;
    simpl in Hl2, Hn2;
    [|intros [= <- <-]; rewrite Hl2; split_and!; [done|done|done]].
  destruct (includes _ _).
  - destruct (updateStatus _ _ _ _ db2) as [[o|e] db3] eqn:Hus;
      pose proof (updateStatus_frame _ _ _ _ _ _ _ Hus) as (_ & Hl3 & Hn3);
      intros [= <- <-]; rewrite Hl3, Hl2, Hn3;
      (split_and!; [done|done|]).
    + intros w' [= <-]. by exists order.
    + done.
  - intros [= <- <-]. rewrite Hl2. split_and!; [done|done|].
    intros w' [= <-]. by exists order.
Qed.

Lemma after_createLog_failed rt parsed w db1 e db2 :
  after_createLog rt parsed w db1 = (Throw e, db2) ->
  logs_step w (webhookLogs db1) (webhookLogs db2)
  /\ (nextId db1 <= nextId db2)%nat.
Proof.
  unfold after_createLog. rewrite bind_run.
  destruct (processWebhookData parsed w db1) as [[w'|e'] db'] eqn:Hrun;
    pose proof (processWebhookData_logs _ _ _ _ _ Hrun) as (Hstep & Hn & Hok).
  - destruct (Hok w' eq_refl) as (order & -> & Hfound).
    rewrite bind_run. unfold markAsProcessed. rewrite save_log_run. simpl.
    destruct (find_log (wl_id w) (webhookLogs db')) as [[j x]|]; [done|].
    intros [= <- <-]. done.
  - intros [= <- <-]. done.
Qed.

(** The record created first is still where it was put, and still queued,
    after such a step. *)
Lemma queued_after_step w l0 l' :
  wl_processing_status w = "queued" ->
  logs_step w (l0 ++ [w]) l' ->
  exists w', l' !! List.length l0 = Some w'
             /\ wl_id w' = wl_id w /\ wl_processing_status w' = "queued".
Proof.
  intros Hq [->|(i & x & order & Hfind & ->)].
  - exists w. by rewrite list_lookup_middle.
  - destruct (decide (i = List.length l0)) as [->|Hne].
    + exists (link_order w order). split; [|done].
      apply list_lookup_insert_eq. rewrite length_app. simpl. lia.
    + exists w. rewrite list_lookup_insert_ne by done.
      by rewrite list_lookup_middle.
Qed.

(** C10.  When the payload was parsed and the delivery record stored as
    [queued], and any later step fails, [processWebhook] answers with the
    failure response and appends a second delivery record, in state [failed]
    with the error's message (trimmed, as the path stores every string),
    under a new [_id]; the record stored first is still in the collection,
    at its place, and still [queued]. *)
Theorem failed_delivery_leaves_queued_record rt req db parsed w db1 e db2 :
  parseWebhookPayload rt (body req) = Ok parsed ->
  createLog (log_data_parsed (log_data_init rt req) parsed) db = (Ok w, db1) ->
  after_createLog rt parsed w db1 = (Throw e, db2) ->
  let f := failed_copy w (nextId db2) (message_of e) in
  processWebhook rt req db
    = (Ok response_failed, with_logs (bump db2) (webhookLogs db2 ++ [f]))
  /\ wl_processing_status w = "queued"
  /\ wl_processing_status f = "failed"
  /\ wl_processing_message f = Some (trim (message_of e))
  /\ wl_id f <> wl_id w
  /\ exists w', (webhookLogs db2 ++ [f]) !! List.length (webhookLogs db)
                  = Some w'
                /\ wl_id w' = wl_id w
                /\ wl_processing_status w' = "queued".
Proof.
  intros Hparse Hlog Hfail f.
  rewrite (processWebhook_after_createLog _ _ _ _ _ _ Hparse Hlog), Hfail.
  rewrite createLog_run in Hlog.
  destruct (construct_log _ _) as [w0|e0] eqn:Hc; [|done].
  injection Hlog as -> <-.
  apply construct_log_inv in Hc as [Hid Hq]. simpl in Hq.
  apply after_createLog_failed in Hfail as [Hstep Hn]. simpl in Hstep, Hn.
  destruct (queued_after_step _ _ _ Hq Hstep) as (w' & Hw' & Hid' & Hq').
  split_and!; try done.
  - subst f. simpl. lia.
  - exists w'. split_and!; try done.
    apply lookup_app_l_Some. done.
Qed.

Lemma failed_delivery_leaves_queued_record_witness :
  let parsed := sample_parsed "ORD-404" "completed" in
  let w := queued_record 3 (webhook_payload "ORD-404" "CRQ123" "completed")
             parsed (Some "ORD-404") (Some "CRQ123") None in
  let f := failed_copy w 4 (order_not_found_message parsed) in
  processWebhook sample_runtime
    (webhook_request (webhook_payload "ORD-404" "CRQ123" "completed"))
    db_pending
    = (Ok response_failed,
       with_logs (bump (with_logs (bump db_pending) [w])) ([w] ++ [f]))
  /\ wl_processing_status w = "queued"
  /\ wl_processing_status f = "failed"
  /\ wl_processing_message f = Some (order_not_found_message parsed)
  /\ wl_id f <> wl_id w
  /\ exists w', ([w] ++ [f]) !! List.length (webhookLogs db_pending) = Some w'
                /\ wl_id w' = wl_id w
                /\ wl_processing_status w' = "queued".
Proof.
  apply (failed_delivery_leaves_queued_record sample_runtime
           (webhook_request (webhook_payload "ORD-404" "CRQ123" "completed"))
           db_pending (sample_parsed "ORD-404" "completed")
           (queued_record 3 (webhook_payload "ORD-404" "CRQ123" "completed")
              (sample_parsed "ORD-404" "completed")
              (Some "ORD-404") (Some "CRQ123") None)
           (with_logs (bump db_pending)
              [queued_record 3 (webhook_payload "ORD-404" "CRQ123" "completed")
                 (sample_parsed "ORD-404" "completed")
                 (Some "ORD-404") (Some "CRQ123") None])
           (Error (order_not_found_message (sample_parsed "ORD-404" "completed")))).
  - reflexivity.
  - reflexivity.
  - reflexivity.
Defined.

Lemma includes_final s :
  includes final_statuses (JStr s) = true <-> In s final_statuses.
Proof.
  unfold includes, final_statuses. simpl.
  rewrite !orb_true_iff, !String.eqb_eq. split.
  - intros [->|[->|[->|?]]]; [tauto..|discriminate].
  - intros [<-|[<-|[<-|[]]]]; tauto.
Qed.

Lemma updateStatus_final i order s db :
  In s final_statuses ->
  updateStatus i order (JStr s) None db
  = (Ok (with_status order (Some s) (o_vendor_response order)),
     {| orders := <[i := with_status order (Some s) (o_vendor_response order)]>
                    (orders db);
        ledger := ledger db;
        webhookLogs := webhookLogs db;
        nextId := nextId db |}).
Proof. intros [<-|[<-|[<-|[]]]]; reflexivity. Qed.

(** C7 (amended).  When [processWebhookData] succeeds, the order's cached
    status is set to the observation's status if that is [completed],
    [failed] or [cancelled]; for every other status, [refunded] and the
    non-terminal ones alike, the orders are left as they were. *)
Theorem webhook_updates_cached_status parsed w db w' db' i order :
  find_order parsed db = (Ok (Some (i, order)), db) ->
  processWebhookData parsed w db = (Ok w', db') ->
  (forall s, p_status parsed = JStr s -> In s final_statuses ->
     orders db'
     = <[i := with_status order (Some s) (o_vendor_response order)]>
         (orders db))
  /\ (includes final_statuses (p_status parsed) = false ->
      orders db' = orders db)
  /\ (p_status parsed = JStr "refunded" -> orders db' = orders db).
Proof.
  intros Hfind. rewrite processWebhookData_run, Hfind.
  destruct (negb _ && negb _); [done|].
  rewrite save_log_run.
  destruct (find_log _ _) as [[j x]|]; [|done].
  destruct (upsertStatus _ _ _) as [[d|e] db2] eqn:Hup; [|done].
  apply upsertStatus_frame in Hup as [Ho2 _]. simpl in Ho2.
  assert (includes final_statuses (p_status parsed) = false ->
          (if includes final_statuses (p_status parsed)
           then match updateStatus i order (p_status parsed) None db2 with
                | (Ok _, db3) => (Ok (link_order w order), db3)
                | (Throw e, db3) => (Throw e, db3)
                end
           else (Ok (link_order w order), db2)) = (Ok w', db') ->
          orders db' = orders db) as Hother.
  { intros ->. intros [= <- <-]. done. }
  intros Hrun. split_and!.
  - intros s Hs Hin. rewrite Hs in Hrun.
    rewrite (proj2 (includes_final s) Hin) in Hrun.
    rewrite (updateStatus_final _ _ _ _ Hin) in Hrun.
    injection Hrun as _ <-. simpl. by rewrite Ho2.
  - intros Hno. by apply Hother.
  - intros Hs. apply Hother; [|done]. by rewrite Hs.
Qed.

Lemma webhook_updates_cached_status_witness :
  exists w' db',
    processWebhookData (sample_parsed "ORD-1" "completed")
      (queued_record 3 (webhook_payload "ORD-1" "CRQ123" "completed")
         (sample_parsed "ORD-1" "completed") (Some "ORD-1") (Some "CRQ123") None)
      (with_logs (bump db_pending)
         [queued_record 3 (webhook_payload "ORD-1" "CRQ123" "completed")
            (sample_parsed "ORD-1" "completed")
            (Some "ORD-1") (Some "CRQ123") None])
    = (Ok w', db')
    /\ orders db'
       = [with_status sample_order (Some "completed") MixedAbsent].
Proof.
  eexists _, _. split; [reflexivity|].
  destruct (webhook_updates_cached_status
              (sample_parsed "ORD-1" "completed")
              (queued_record 3 (webhook_payload "ORD-1" "CRQ123" "completed")
                 (sample_parsed "ORD-1" "completed")
                 (Some "ORD-1") (Some "CRQ123") None)
              (with_logs (bump db_pending)
                 [queued_record 3
                    (webhook_payload "ORD-1" "CRQ123" "completed")
                    (sample_parsed "ORD-1" "completed")
                    (Some "ORD-1") (Some "CRQ123") None])
              _ _ 0%nat sample_order eq_refl eq_refl)
    as (Hfinal & _ & _).
  apply (Hfinal "completed"); [reflexivity|].
  left. reflexivity.
Defined.

(** C7, as stated, fails for [refunded]: the webhook is processed, the
    ledger gets a refunded (terminal) entry, and the order's cached status
    stays [pending]. *)
Lemma refunded_webhook_leaves_cached_status :
  is_terminal (Some "refunded") = true
  /\ fst (processWebhook sample_runtime
            (webhook_request (webhook_payload "ORD-1" "CRQ123" "refunded"))
            db_pending)
     = Ok response_ok
  /\ map status
       (ledger (snd (processWebhook sample_runtime
                       (webhook_request
                          (webhook_payload "ORD-1" "CRQ123" "refunded"))
                       db_pending)))
     = [Some "pending"; Some "refunded"]
  /\ map o_status
       (orders (snd (processWebhook sample_runtime
                       (webhook_request
                          (webhook_payload "ORD-1" "CRQ123" "refunded"))
                       db_pending)))
     = [Some "pending"]
  /\ map o_status (orders db_pending) = [Some "pending"].
Proof. split_and!; reflexivity. Qed.




(** An identifier with white space around it is the order's: the query trims
    it, the order is found, and the delivery is processed. *)
Lemma untrimmed_custom_order_id_resolves :
  find_by_custom_order_id " ORD-1 " (orders db_pending)
    = Some (0%nat, sample_order)
  /\ fst (processWebhook sample_runtime
            (webhook_request (webhook_payload " ORD-1 " "CRQ123" "completed"))
            db_pending)
     = Ok response_ok
  /\ map status
       (ledger (snd (processWebhook sample_runtime
                       (webhook_request
                          (webhook_payload " ORD-1 " "CRQ123" "completed"))
                       db_pending)))
     = [Some "pending"; Some "completed"]
  /\ map o_status
       (orders (snd (processWebhook sample_runtime
                       (webhook_request
                          (webhook_payload " ORD-1 " "CRQ123" "completed"))
                       db_pending)))
     = [Some "completed"].
Proof. split_and!; reflexivity. Qed.

(** * Further properties *)

(** ** Queries on the ledger *)

Lemma time_leb_refl a : time_leb a a = true.
Proof. destruct a; simpl; [apply Z.leb_refl|done]. Qed.

Lemma time_leb_trans a b c :
  time_leb a b = true -> time_leb b c = true -> time_leb a c = true.
Proof.
  destruct a, b, c; simpl; try done.
  rewrite !Z.leb_le. lia.
Qed.

Lemma time_leb_total a b : time_leb a b = true \/ time_leb b a = true.
Proof.
  destruct a, b; simpl; auto.
  rewrite !Z.leb_le. lia.
Qed.

Lemma time_leb_antisym a b :
  time_leb a b = true -> time_leb b a = true -> a = b.
Proof.
  destruct a, b; simpl; try done.
  rewrite !Z.leb_le. intros. f_equal. lia.
Qed.

Lemma sorts_before_time a b :
  sorts_before a b -> time_leb (payment_time (snd b)) (payment_time (snd a)) = true.
Proof.
  unfold sorts_before. destruct (decide _) as [->|]; [|done].
  intros _. apply time_leb_refl.
Qed.

#[local] Instance sorts_before_total : Total sorts_before.
Proof.
  intros a b. unfold sorts_before.
  destruct (decide (payment_time (snd a) = payment_time (snd b))) as [e|n].
  - rewrite decide_True by done. lia.
  - rewrite decide_False by done.
    destruct (time_leb_total (payment_time (snd a)) (payment_time (snd b)));
      auto.
Qed.

#[local] Instance sorts_before_trans : Transitive sorts_before.
Proof.
  intros a b c Hab Hbc.
  pose proof (sorts_before_time _ _ Hab) as Tab.
  pose proof (sorts_before_time _ _ Hbc) as Tbc.
  unfold sorts_before in *.
  destruct (decide (payment_time (snd a) = payment_time (snd c))) as [eac|nac].
  - destruct (decide (payment_time (snd a) = payment_time (snd b))) as [eab|nab].
    + rewrite decide_True in Hbc by congruence. lia.
    + exfalso. apply nab. apply time_leb_antisym; [|done].
      rewrite eac. done.
  - by apply (time_leb_trans _ (payment_time (snd b))).
Qed.

Lemma snd_filter_imap {A} (P : A -> Prop) (Q : nat * A -> Prop)
    `{!forall x, Decision (P x)} `{!forall p, Decision (Q p)}
    (l : list A) (f : nat -> A -> nat * A) :
  (forall i x, snd (f i x) = x) -> (forall p, Q p <-> P (snd p)) ->
  map snd (filter Q (imap f l)) = filter P l.
Proof.
  intros Hf HQ. revert f Hf. induction l as [|x l IH]; intros f Hf; [done|].
  rewrite imap_cons, !filter_cons.
  destruct (decide (Q (f 0%nat x))) as [q|q];
    rewrite HQ, Hf in q; destruct (decide (P x)); try done; simpl;
    rewrite IH by (intros i y; apply Hf); rewrite ?Hf; done.
Qed.

Lemma findAll_entries orderId db :
  map fst (findAllByOrderId orderId db)
  = map snd (merge_sort sorts_before
               (filter (fun p => collect_id (snd p) = orderId)
                  (indexed (ledger db)))).
Proof.
  unfold findAllByOrderId. rewrite map_map. done.
Qed.

Lemma findAll_permutation orderId db :
  map fst (findAllByOrderId orderId db)
  ≡ₚ filter (fun d => collect_id d = orderId) (ledger db).
Proof.
  rewrite findAll_entries.
  rewrite merge_sort_Permutation.
  unfold indexed.
  by rewrite (snd_filter_imap (fun d => collect_id d = orderId)
                (fun p => collect_id (snd p) = orderId)).
Qed.

Lemma strongly_sorted_by_time (l : list (nat * OrderStatus)) :
  StronglySorted sorts_before l ->
  StronglySorted
    (fun a b => time_leb (payment_time b) (payment_time a) = true)
    (map snd l).
Proof.
  induction 1 as [|p l Hs IH Hall]; simpl; constructor; [done|].
  apply Forall_fmap. eapply Forall_impl; [exact Hall|].
  intros q Hq. by apply sorts_before_time.
Qed.


Lemma findAll_latest_first orderId db d o rest :
  findAllByOrderId orderId db = (d, o) :: rest ->
  Forall (fun e => time_leb (payment_time e) (payment_time d) = true)
    (d :: map fst rest)
  /\ o = snd <$> list_find (fun x => o_id x = collect_id d) (orders db).
Proof.
  intros Heq.
  assert (StronglySorted
            (fun a b => time_leb (payment_time b) (payment_time a) = true)
            (map fst (findAllByOrderId orderId db))) as Hs.
  { rewrite findAll_entries. apply strongly_sorted_by_time.
    apply StronglySorted_merge_sort; apply _. }
  split.
  - rewrite Heq in Hs. simpl in Hs.
    apply StronglySorted_inv in Hs as [_ Hall].
    constructor; [apply time_leb_refl|done].
  - unfold findAllByOrderId in Heq.
    destruct (merge_sort _ _) as [|p l]; [done|].
    simpl in Heq. unfold populate in Heq. by injection Heq as <- <- _.
Qed.

(** X2.  [findLatestByOrderId] finds nothing exactly when the order has no
    ledger entry; otherwise it returns an entry of that order, no other entry
    of the order has a later [payment_time], and the entry comes with the
    order it belongs to (if that order exists). *)
Theorem findLatestByOrderId_latest orderId db :
  (findLatestByOrderId orderId db = None
   <-> Forall (fun d => collect_id d <> orderId) (ledger db))
  /\ forall d o,
       findLatestByOrderId orderId db = Some (d, o) ->
       d ∈ ledger db
       /\ collect_id d = orderId
       /\ (forall e, e ∈ ledger db -> collect_id e = orderId ->
             time_leb (payment_time e) (payment_time d) = true)
       /\ o = snd <$> list_find (fun x => o_id x = orderId) (orders db).
Proof.
  pose proof (findAll_permutation orderId db) as Hperm.
  unfold findLatestByOrderId. split.
  - rewrite head_None. split.
    + intros Hnil. rewrite Hnil in Hperm. simpl in Hperm.
      symmetry in Hperm. apply Permutation_nil_r in Hperm.
      apply Forall_forall. intros d Hd Hc.
      assert (d ∈ filter (fun d => collect_id d = orderId) (ledger db)) as Hin.
      { apply list_elem_of_filter. done. }
      rewrite Hperm in Hin. by apply elem_of_nil in Hin.
    + intros Hall.
      assert (filter (fun d => collect_id d = orderId) (ledger db) = [])
        as Hnil.
      { apply filter_none, list_find_None. exact Hall. }
      rewrite Hnil in Hperm. apply Permutation_nil_r in Hperm.
      by destruct (findAllByOrderId orderId db).
  - intros d o [rest Heq]%head_Some.
    destruct (findAll_latest_first _ _ _ _ _ Heq) as [Hmax Ho].
    rewrite Heq in Hperm. simpl in Hperm.
    assert (d ∈ filter (fun d => collect_id d = orderId) (ledger db)) as Hd.
    { rewrite <- Hperm. apply list_elem_of_here. }
    apply list_elem_of_filter in Hd as [Hc Hd].
    split_and!; try done.
    + intros e He Hce.
      assert (e ∈ d :: map fst rest) as Hin.
      { rewrite Hperm. apply list_elem_of_filter. done. }
      rewrite Forall_forall in Hmax. by apply Hmax.
    + by rewrite Ho, Hc.
Qed.

Lemma in_status_enum s :
  in_enum status_enum s = true ->
  s = "created" \/ s = "pending" \/ s = "completed" \/ s = "failed"
  \/ s = "cancelled" \/ s = "refunded".
Proof.
  unfold in_enum, status_enum. simpl.
  rewrite !orb_true_iff, !String.eqb_eq. intuition discriminate.
Qed.

(** X3.  The three status predicates of a ledger entry that the schema
    accepts: exactly one of [isSuccessful], [isPending], [hasFailed] holds,
    except for a refunded entry, for which none holds. *)
Theorem status_predicates_partition d :
  validate d = Ok d ->
  if status_is (status d) "refunded"
  then isSuccessful d = false /\ isPending d = false /\ hasFailed d = false
  else (Nat.b2n (isSuccessful d) + Nat.b2n (isPending d)
        + Nat.b2n (hasFailed d) = 1)%nat.
Proof.
  intros (s & Hs & Hin)%validate_status.
  unfold isSuccessful, isPending, hasFailed. rewrite Hs.
  apply in_status_enum in Hin as [->|[->|[->|[->|[->| ->]]]]]; done.
Qed.

Lemma status_predicates_partition_witness :
  (Nat.b2n (isSuccessful (sample_entry 2 (Some "T1") "completed" 100))
   + Nat.b2n (isPending (sample_entry 2 (Some "T1") "completed" 100))
   + Nat.b2n (hasFailed (sample_entry 2 (Some "T1") "completed" 100)) = 1)%nat.
Proof.
  apply (status_predicates_partition
           (sample_entry 2 (Some "T1") "completed" 100)).
  reflexivity.
Defined.

Lemma filter_insert_same {A} (P : A -> Prop) `{!forall x, Decision (P x)}
    (l : list A) i x y :
  l !! i = Some x -> ~ P x -> ~ P y -> filter P (<[i := y]> l) = filter P l.
Proof.
  revert i. induction l as [|z l IH]; intros [|i] Hi Hx Hy; simplify_eq/=.
  - by rewrite !filter_cons_False.
  - rewrite !filter_cons. by rewrite (IH i).
Qed.

(** X4.  Whatever its outcome, [upsertStatus] for an order leaves orders and
    delivery records alone, leaves every ledger entry of the other orders as
    it was, and changes the ledger in one of three ways: not at all, by
    replacing one entry of this order (same [_id]), or by appending one
    entry for this order. *)
Theorem upsertStatus_touches_one_entry db orderId sd :
  let db' := snd (upsertStatus orderId sd db) in
  orders db' = orders db
  /\ webhookLogs db' = webhookLogs db
  /\ filter (fun d => collect_id d <> orderId) (ledger db')
     = filter (fun d => collect_id d <> orderId) (ledger db)
  /\ (ledger db' = ledger db
      \/ (exists i e d,
            ledger db !! i = Some e /\ collect_id e = orderId
            /\ os_id d = os_id e /\ collect_id d = orderId
            /\ ledger db' = <[i := d]> (ledger db))
      \/ (exists d, collect_id d = orderId /\ ledger db' = ledger db ++ [d])).
Proof.
  intros db'. subst db'.
  destruct (upsertStatus orderId sd db) as [[d|e] db'] eqn:Hrun; simpl.
  - pose proof (upsertStatus_frame _ _ _ _ _ Hrun) as [Ho Hl].
    apply upsertStatus_accepted in Hrun as [Hv [Hupd|Hnew]].
    + destruct Hupd as (t & i & ex & Ht & Hne & Hf & Ha & ->). simpl.
      apply list_find_Some in Hf as (Hi & [Hc _] & _).
      apply assign_inv in Ha as (Hid & Hcd & _).
      split_and!; try done.
      * apply (filter_insert_same _ _ _ ex); [done|..]; intros H; apply H;
          congruence.
      * right; left. exists i, ex, d. split_and!; congruence.
    + destruct Hnew as (Hc & -> & _). simpl.
      apply construct_inv in Hc as (_ & Hcd & _).
      split_and!; try done.
      * rewrite filter_app. rewrite filter_cons_False by (intros H; by apply H).
        by rewrite app_nil_r.
      * right; right. by exists d.
  - pose proof (upsertStatus_frame _ _ _ _ _ Hrun) as [Ho Hl].
    rewrite (upsertStatus_rejected _ _ _ _ _ Hrun). auto.
Qed.



Lemma upsertStatus_stored db orderId sd d db' :
  upsertStatus orderId sd db = (Ok d, db') ->
  d ∈ ledger db' /\ collect_id d = orderId.
Proof.
  intros Hrun.
  apply upsertStatus_accepted in Hrun as [Hv [Hupd|Hnew]].
  - destruct Hupd as (t & i & ex & Ht & Hne & Hf & Ha & ->). simpl.
    apply list_find_Some in Hf as (Hi & [Hc _] & _).
    apply assign_inv in Ha as (_ & Hcd & _).
    split; [|congruence].
    apply list_elem_of_lookup. exists i.
    apply list_lookup_insert_eq. by eapply lookup_lt_Some.
  - destruct Hnew as (Hc & -> & _). simpl.
    apply construct_inv in Hc as (_ & Hcd & _).
    split; [|done]. apply elem_of_app. right. apply list_elem_of_here.
Qed.

(** X6.  [upsertStatus] followed by [findLatestByOrderId]: when the entry
    just stored has a [payment_time] strictly later than every other entry
    of its order, it is the latest one found. *)
Theorem findLatest_after_upsertStatus db orderId sd d db' :
  upsertStatus orderId sd db = (Ok d, db') ->
  (forall e, e ∈ ledger db' -> collect_id e = orderId ->
             e = d \/ time_leb (payment_time d) (payment_time e) = false) ->
  fst <$> findLatestByOrderId orderId db' = Some d.
Proof.
  intros [Hin Hc]%upsertStatus_stored Hlater.
  destruct (findLatestByOrderId orderId db') as [[d' o]|] eqn:Hlatest.
  - simpl. f_equal.
    unfold findLatestByOrderId in Hlatest.
    apply head_Some in Hlatest as [rest Heq].
    destruct (findAll_latest_first _ _ _ _ _ Heq) as [Hmax _].
    pose proof (findAll_permutation orderId db') as Hp.
    rewrite Heq in Hp. simpl in Hp.
    assert (d ∈ d' :: map fst rest) as Hd.
    { rewrite Hp. by apply list_elem_of_filter. }
    assert (d' ∈ filter (fun x => collect_id x = orderId) (ledger db'))
      as Hd'.
    { rewrite <- Hp. apply list_elem_of_here. }
    apply list_elem_of_filter in Hd' as [Hc' Hin'].
    rewrite Forall_forall in Hmax. specialize (Hmax d Hd).
    destruct (Hlater d' Hin' Hc') as [->|Hfalse]; [done|].
    rewrite Hfalse in Hmax. done.
  - exfalso. unfold findLatestByOrderId in Hlatest.
    apply head_None in Hlatest.
    pose proof (findAll_permutation orderId db') as Hp.
    rewrite Hlatest in Hp. simpl in Hp. symmetry in Hp.
    apply Permutation_nil_r in Hp.
    assert (d ∈ filter (fun x => collect_id x = orderId) (ledger db'))
      as Hd by by apply list_elem_of_filter.
    rewrite Hp in Hd. by apply elem_of_nil in Hd.
Qed.

Lemma findLatest_after_upsertStatus_witness :
  fst <$> findLatestByOrderId 1
            (with_ledger (bump db_completed)
               (ledger db_completed ++ [refund_entry]))
  = Some refund_entry.
Proof.
  apply (findLatest_after_upsertStatus db_completed 1 refund_observation
           refund_entry
           (with_ledger (bump db_completed)
              (ledger db_completed ++ [refund_entry]))).
  - reflexivity.
  - intros e [->|[->|[]%elem_of_nil]%elem_of_cons]%elem_of_cons _;
      [right; reflexivity|left; reflexivity].
Defined.

(** ** Delivery records: the retry counter *)

Lemma find_log_insert w i x l :
  find_log (wl_id w) l = Some (i, x) ->
  find_log (wl_id w) (<[i := w]> l) = Some (i, w).
Proof.
  intros H. unfold find_log in *.
  eapply find_after_insert; [exact H | reflexivity].
Qed.

Lemma call_stored rt c w db i x :
  find_log (wl_id w) (webhookLogs db) = Some (i, x) ->
  exists w',
    call rt c w db = (Ok w', with_logs db (<[i := w']> (webhookLogs db)))
    /\ wl_id w' = wl_id w
    /\ wl_retries w' = wl_retries w + (if counts c then 1 else 0)
    /\ wl_processing_status w' = state_after c.
Proof.
  intros H.
  destruct c as [message | errorMessage | ]; simpl;
    unfold markAsProcessed, markAsFailed, retryProcessing;
    rewrite save_log_run; simpl; rewrite H;
    (eexists; split; [reflexivity | simpl; split_and!; auto; lia]).
Qed.

Lemma calls_stored rt cs : forall w db i x,
  find_log (wl_id w) (webhookLogs db) = Some (i, x) ->
  exists w' db',
    calls rt cs w db = (Ok w', db')
    /\ wl_id w' = wl_id w
    /\ wl_retries w'
       = wl_retries w + Z.of_nat (List.length (List.filter counts cs))
    /\ (forall c, last cs = Some c ->
          wl_processing_status w' = state_after c
          /\ webhookLogs db' !! i = Some w')
    /\ (forall j, j <> i -> webhookLogs db' !! j = webhookLogs db !! j)
    /\ orders db' = orders db /\ ledger db' = ledger db
    /\ nextId db' = nextId db.
Proof.
  induction cs as [|c cs IH]; intros w db i x Hfind.
  - exists w, db. simpl. split_and!; auto; try lia. intros c [=].
  - destruct (call_stored rt c w db i x Hfind) as (w1 & Hcall & Hid & Hret & Hst).
    assert (Hi : (i < List.length (webhookLogs db))%nat).
    { apply list_find_Some in Hfind as (Hl & _). eapply lookup_lt_Some, Hl. }
    assert (Hfind1 : find_log (wl_id w1)
                       (webhookLogs (with_logs db (<[i := w1]> (webhookLogs db))))
                     = Some (i, w1)).
    { simpl. apply find_log_insert with (x := x). rewrite Hid. exact Hfind. }
    destruct (IH _ _ _ _ Hfind1)
      as (w' & db' & Hcalls & Hid' & Hret' & Hlast & Hother & Ho & Hl & Hn).
    exists w', db'. split_and!.
    + simpl. rewrite bind_run, Hcall. exact Hcalls.
    + congruence.
    + rewrite Hret', Hret. simpl. destruct (counts c); simpl; lia.
    + intros c' Hc'. destruct cs as [|c2 cs].
      * simpl in Hc'. injection Hc' as <-. simpl in Hcalls.
        injection Hcalls as <- <-. split; [exact Hst|].
        simpl. apply list_lookup_insert_eq. exact Hi.
      * apply Hlast. exact Hc'.
    + intros j Hj. rewrite (Hother j Hj). simpl.
      apply list_lookup_insert_ne. congruence.
    + rewrite Ho. reflexivity.
    + rewrite Hl. reflexivity.
    + rewrite Hn. reflexivity.
Qed.

(** X7.  Calls of [markAsProcessed], [markAsFailed] and [retryProcessing] on
    a stored delivery record, in any order and number: every call succeeds;
    [retries] grows by one for each failure and each retry and is never
    reset; the state is the one of the last call; only that record of the
    collection changes. *)
Theorem log_calls_count_retries rt cs w db i x :
  find_log (wl_id w) (webhookLogs db) = Some (i, x) ->
  exists w' db',
    calls rt cs w db = (Ok w', db')
    /\ wl_id w' = wl_id w
    /\ wl_retries w'
       = wl_retries w + Z.of_nat (List.length (List.filter counts cs))
    /\ (forall c, last cs = Some c ->
          wl_processing_status w' = state_after c
          /\ webhookLogs db' !! i = Some w')
    /\ (forall j, j <> i -> webhookLogs db' !! j = webhookLogs db !! j)
    /\ orders db' = orders db /\ ledger db' = ledger db
    /\ nextId db' = nextId db.
Proof. apply calls_stored. Qed.

Lemma log_calls_count_retries_witness :
  let w := queued_record 3 (webhook_payload "ORD-1" "CRQ123" "completed")
             (sample_parsed "ORD-1" "completed")
             (Some "ORD-1") (Some "CRQ123") None in
  let db := with_logs (bump db_pending) [w] in
  let cs := [MarkAsFailed "timeout"; RetryProcessing; MarkAsProcessed None] in
  exists w' db',
    calls sample_runtime cs w db = (Ok w', db')
    /\ wl_id w' = wl_id w
    /\ wl_retries w'
       = wl_retries w + Z.of_nat (List.length (List.filter counts cs))
    /\ (forall c, last cs = Some c ->
          wl_processing_status w' = state_after c
          /\ webhookLogs db' !! 0%nat = Some w')
    /\ (forall j, j <> 0%nat -> webhookLogs db' !! j = webhookLogs db !! j)
    /\ orders db' = orders db /\ ledger db' = ledger db
    /\ nextId db' = nextId db.
Proof.
  intros w db cs.
  apply (log_calls_count_retries sample_runtime cs w db 0%nat w).
  reflexivity.
Defined.

Lemma find_log_fresh db w :
  log_ids_fresh db -> wl_id w = nextId db ->
  find_log (wl_id w) (webhookLogs db ++ [w])
  = Some (List.length (webhookLogs db), w).
Proof.
  intros [_ Hlt] Hid. unfold find_log.
  apply find_after_append; [|reflexivity].
  apply list_find_None. eapply Forall_impl; [exact Hlt|].
  simpl. intros x Hx. lia.
Qed.

Lemma createLog_stored logData db w db1 :
  log_ids_fresh db ->
  createLog logData db = (Ok w, db1) ->
  db1 = with_logs (bump db) (webhookLogs db ++ [w])
  /\ wl_id w = nextId db /\ wl_retries w = 0
  /\ find_log (wl_id w) (webhookLogs db1)
     = Some (List.length (webhookLogs db), w).
Proof.
  intros Hfresh H. rewrite createLog_run in H.
  destruct (construct_log (nextId db) logData) as [w0|e] eqn:Hc; [|discriminate].
  injection H as <- <-.
  pose proof (construct_log_inv _ _ _ Hc) as [Hid _].
  assert (Hr : wl_retries w0 = 0).
  { unfold construct_log, res_bind in Hc.
    repeat match type of Hc with
           | match ?c with _ => _ end = _ => destruct c; [|discriminate Hc]
           end.
    injection Hc as <-. reflexivity. }
  split_and!; auto. simpl. apply find_log_fresh; auto.
Qed.

(** X8.  A record made by [createLog] starts without retries: after any
    calls of the three methods, [hasMaxRetriesReached] answers whether the
    number of failures and retries among them reached the bound, which is 3
    when none is given. *)
Theorem new_record_reaches_max_retries rt logData cs maxRetries db w db1 :
  log_ids_fresh db ->
  createLog logData db = (Ok w, db1) ->
  exists w' db2,
    calls rt cs w db1 = (Ok w', db2)
    /\ hasMaxRetriesReached w maxRetries
       = (default 3 maxRetries <=? 0)
    /\ hasMaxRetriesReached w' maxRetries
       = (default 3 maxRetries
          <=? Z.of_nat (List.length (List.filter counts cs))).
Proof.
  intros Hfresh Hcreate.
  destruct (createLog_stored _ _ _ _ Hfresh Hcreate) as (_ & _ & Hr & Hfind).
  destruct (calls_stored rt cs _ _ _ _ Hfind)
    as (w' & db2 & Hcalls & _ & Hret & _).
  exists w', db2. split_and!; auto.
  - unfold hasMaxRetriesReached. rewrite Hr. reflexivity.
  - unfold hasMaxRetriesReached. rewrite Hret, Hr. reflexivity.
Qed.

Lemma log_ids_fresh_pending : log_ids_fresh db_pending.
Proof. split; simpl; constructor. Qed.

Lemma new_record_reaches_max_retries_witness :
  let logData :=
    log_data_parsed
      (log_data_init sample_runtime
         (webhook_request (webhook_payload "ORD-1" "CRQ123" "completed")))
      (sample_parsed "ORD-1" "completed") in
  let cs := [MarkAsFailed "timeout"; RetryProcessing; MarkAsFailed "timeout"] in
  exists w db1 w' db2,
    createLog logData db_pending = (Ok w, db1)
    /\ calls sample_runtime cs w db1 = (Ok w', db2)
    /\ hasMaxRetriesReached w None = false
    /\ hasMaxRetriesReached w' None = true.
Proof.
  intros logData cs.
  destruct (createLog logData db_pending) as [[w|e] db1] eqn:Hcreate;
    [|exfalso; vm_compute in Hcreate; discriminate].
  destruct (new_record_reaches_max_retries sample_runtime logData cs None
              db_pending w db1 log_ids_fresh_pending Hcreate)
    as (w' & db2 & Hcalls & H0 & H3).
  exists w, db1, w', db2. split_and!; auto.
Defined.

(** ** The webhook parser *)

Lemma truthy_or_else_lit v s : s <> "" -> truthy (or_else v (JStr s)) = true.
Proof.
  intros Hs. unfold or_else. destruct (truthy v) eqn:Hv; [exact Hv|].
  apply truthy_JStr. exact Hs.
Qed.




Lemma prop_blocks_only_order_info payload :
  prop "order_info" (blocks_only payload) = prop "order_info" payload.
Proof. reflexivity. Qed.

Lemma prop_blocks_only_payment_info payload :
  prop "payment_info" (blocks_only payload) = prop "payment_info" payload.
Proof. reflexivity. Qed.

(** X10.  A payload with an [order_info] or a [payment_info] block is read
    through these two blocks only: whatever else it holds at its root
    ([status], [transaction_id], [custom_order_id], ...) has no effect on
    the result. *)
Theorem nested_payload_ignores_root_fields rt payload :
  truthy (prop "order_info" payload) || truthy (prop "payment_info" payload)
    = true ->
  parseWebhookPayload rt payload
  = parseWebhookPayload rt (blocks_only payload).
Proof.
  intros H. unfold parseWebhookPayload, parse_body.
  rewrite prop_blocks_only_order_info, prop_blocks_only_payment_info.
  assert (Hn : nullish payload = false).
  { apply orb_true_iff in H as [H|H];
      eapply truthy_prop_not_nullish; exact H. }
  rewrite Hn.
  change (nullish (blocks_only payload)) with false. cbv iota.
  assert (Hf : negb (truthy (prop "order_info" payload))
               && negb (truthy (prop "payment_info" payload)) = false).
  { destruct (truthy (prop "order_info" payload)),
             (truthy (prop "payment_info" payload));
      simpl in *; congruence. }
  rewrite Hf. reflexivity.
Qed.

Lemma nested_payload_ignores_root_fields_witness :
  parseWebhookPayload sample_runtime
    (JObj [("status", JStr "failed"); ("transaction_id", JStr "T9");
           ("payment_info", JObj [("status", JStr "completed")])])
  = parseWebhookPayload sample_runtime
      (blocks_only
         (JObj [("status", JStr "failed"); ("transaction_id", JStr "T9");
                ("payment_info", JObj [("status", JStr "completed")])])).
Proof.
  apply (nested_payload_ignores_root_fields sample_runtime
           (JObj [("status", JStr "failed"); ("transaction_id", JStr "T9");
                  ("payment_info", JObj [("status", JStr "completed")])])).
  reflexivity.
Defined.







(** ** The webhook endpoint as a whole *)

Lemma insert_last {A} (l : list A) (x y : A) :
  <[List.length l := y]> (l ++ [x]) = l ++ [y].
Proof.
  rewrite insert_app_r_alt by lia. rewrite Nat.sub_diag. reflexivity.
Qed.

Lemma construct_log_failed_throw id id' logData msg e :
  construct_log id logData = Throw e ->
  wd_processing_status logData = "queued" ->
  construct_log id' (log_data_failed logData msg) = Throw e.
Proof.
  unfold construct_log, res_bind. simpl. intros H Hq. rewrite Hq in H.
  simpl in H.
  destruct (check "raw_payload" _); [|exact H].
  unfold in_enum. simpl.
  repeat match type of H with
         | match ?c with _ => _ end = _ => destruct c; [|exact H]
         end.
  discriminate.
Qed.

(** What [processWebhookData] does to the store: nothing, when it fails
    before its first write; otherwise it links the delivery record, upserts
    the ledger and, for a final status, updates the order. *)
Lemma processWebhookData_effect parsed w db r db' :
  processWebhookData parsed w db = (r, db') ->
  (db' = db /\ exists e, r = Throw e)
  \/ exists i order n x ru dbu,
       find_order parsed db = (Ok (Some (i, order)), db)
       /\ find_log (wl_id w) (webhookLogs db) = Some (n, x)
       /\ upsertStatus (o_id order) (webhook_status_data parsed order)
            (with_logs db (<[n := link_order w order]> (webhookLogs db)))
          = (ru, dbu)
       /\ match ru with
          | Throw e => r = Throw e /\ db' = dbu
          | Ok d =>
              if includes final_statuses (p_status parsed) then
                exists ro,
                  updateStatus i order (p_status parsed) None dbu = (ro, db')
                  /\ r = match ro with
                         | Ok _ => Ok (link_order w order)
                         | Throw e => Throw e
                         end
              else r = Ok (link_order w order) /\ db' = dbu
          end.
Proof.
  rewrite processWebhookData_run.
  remember (includes final_statuses (p_status parsed)) as final eqn:Hfinal.
  destruct (negb _ && negb _).
  { intros [= <- <-]. left. eauto. }
  destruct (find_order parsed db) as [[[[i order]|]|e] db0] eqn:Hfind;
    pose proof (find_order_frame _ _ _ _ Hfind) as ->.
  2,3: intros [= <- <-]; left; eauto.
  rewrite save_log_run. simpl.
  destruct (find_log (wl_id w) (webhookLogs db)) as [[n x]|] eqn:Hlog.
  2: intros [= <- <-]; left; eauto.
  destruct (upsertStatus _ _ _) as [[d|e] dbu] eqn:Hup.
  - intros H. right. exists i, order, n, x, (Ok d), dbu.
    split_and!; auto.
    destruct final.
    + destruct (updateStatus _ _ _ _ _) as [[o'|e] db3] eqn:Hupd;
        injection H as <- <-; eexists; split; eauto.
    + injection H as <- <-. auto.
  - intros [= <- <-]. right. exists i, order, n, x, (Throw e), dbu.
    split_and!; auto.
Qed.

Lemma upsertStatus_ledger_valid db orderId sd r db' :
  ledger_valid db -> upsertStatus orderId sd db = (r, db') -> ledger_valid db'.
Proof.
  unfold ledger_valid. intros Hv Hrun. destruct r as [d|e].
  - apply upsertStatus_accepted in Hrun as [Hd [Hupd|Hnew]].
    + destruct Hupd as (t & i & ex & _ & _ & _ & _ & ->). simpl.
      apply Forall_insert; auto.
    + destruct Hnew as (_ & -> & _). simpl.
      apply Forall_app. split; auto.
  - apply upsertStatus_rejected in Hrun. rewrite Hrun. exact Hv.
Qed.

Lemma updateStatus_effect i o st vr db r db' :
  updateStatus i o st vr db = (r, db') ->
  match r with
  | Throw _ => db' = db
  | Ok o' =>
      db' = {| orders := <[i := o']> (orders db); ledger := ledger db;
               webhookLogs := webhookLogs db; nextId := nextId db |}
      /\ o_id o' = o_id o /\ o_custom_order_id o' = o_custom_order_id o
      /\ o_collect_request_id o' = o_collect_request_id o
      /\ match o_status o' with
         | Some s => in_enum order_status_enum s = true
         | None => True
         end
  end.
Proof.
  unfold updateStatus, bind, lift, get_db, set_orders, ret.
  destruct (on_path "status" (castString st)) as [s|e]; [|intros [= <- <-]; auto].
  unfold check.
  destruct s as [s|]; [destruct (in_enum order_status_enum s) eqn:He|];
    intros [= <- <-]; simpl; split_and?; auto.
Qed.

Lemma updateStatus_orders_valid i o st vr db r db' :
  orders_valid db -> updateStatus i o st vr db = (r, db') -> orders_valid db'.
Proof.
  unfold orders_valid. intros Hv Hrun.
  apply updateStatus_effect in Hrun. destruct r as [o'|e].
  - destruct Hrun as (-> & _ & _ & _ & Hs). simpl.
    apply Forall_insert; auto.
  - subst. exact Hv.
Qed.

Lemma on_failure_run rt d e db :
  wd_id d = None ->
  on_failure rt d e db =
    match createLog (log_data_failed d (message_of e)) db with
    | (Ok _, db1) => (Ok response_failed, db1)
    | (Throw e', db1) => (Throw e', db1)
    end.
Proof.
  intros H. unfold on_failure. rewrite H. unfold bind, ret.
  destruct (createLog _ _) as [[?|?] ?]; reflexivity.
Qed.

Lemma processWebhook_run rt req db :
  nullish (body req) = false ->
  processWebhook rt req db =
    match parseWebhookPayload rt (body req) with
    | Throw error => on_failure rt (log_data_init rt req) error db
    | Ok parsed =>
        match createLog (log_data_parsed (log_data_init rt req) parsed) db with
        | (Throw e, db1) =>
            on_failure rt (log_data_parsed (log_data_init rt req) parsed) e db1
        | (Ok w, db1) =>
            match after_createLog rt parsed w db1 with
            | (Ok r, db2) => (Ok r, db2)
            | (Throw e, db2) =>
                on_failure rt
                  (log_data_parsed (log_data_init rt req) parsed) e db2
            end
        end
    end.
Proof.
  intros Hn. unfold processWebhook. rewrite Hn.
  destruct (parseWebhookPayload rt (body req)) as [parsed|e]; [|reflexivity].
  unfold try_catch. rewrite bind_run.
  destruct (createLog _ db) as [[w|e] db1]; [|reflexivity].
  fold (after_createLog rt parsed w).
  destruct (after_createLog rt parsed w db1) as [[r|e] db2]; reflexivity.
Qed.

Lemma createLog_effect logData db r db' :
  createLog logData db = (r, db') ->
  orders db' = orders db /\ ledger db' = ledger db
  /\ nextId db' = S (nextId db)
  /\ match r with
     | Ok w => webhookLogs db' = webhookLogs db ++ [w]
               /\ construct_log (nextId db) logData = Ok w
     | Throw e => webhookLogs db' = webhookLogs db
                  /\ construct_log (nextId db) logData = Throw e
     end.
Proof.
  rewrite createLog_run.
  destruct (construct_log (nextId db) logData) as [w|e];
    intros [= <- <-]; simpl; auto.
Qed.

Lemma fresh_snoc l n f m :
  NoDup (map wl_id l) /\ Forall (fun w => (wl_id w < n)%nat) l ->
  (n <= wl_id f < m)%nat ->
  NoDup (map wl_id (l ++ [f]))
  /\ Forall (fun w => (wl_id w < m)%nat) (l ++ [f]).
Proof.
  intros [Hnd Hlt] Hf. split.
  - rewrite map_app. simpl. apply NoDup_app. split_and!; auto.
    + intros x Hx [->|[]%elem_of_nil]%elem_of_cons.
      apply list_elem_of_fmap in Hx as (y & Hy & Hin).
      rewrite Forall_forall in Hlt. specialize (Hlt y Hin). lia.
    + apply NoDup_singleton.
  - apply Forall_app. split.
    + eapply Forall_impl; [exact Hlt|]. simpl. intros; lia.
    + constructor; [lia|constructor].
Qed.

Lemma fresh_same_ids l l' n m :
  NoDup (map wl_id l) /\ Forall (fun w => (wl_id w < n)%nat) l ->
  map wl_id l' = map wl_id l -> (n <= m)%nat ->
  NoDup (map wl_id l') /\ Forall (fun w => (wl_id w < m)%nat) l'.
Proof.
  intros [Hnd Hlt] Hmap Hnm. split; [rewrite Hmap; exact Hnd|].
  rewrite Forall_forall in Hlt. apply Forall_forall. intros w Hw.
  assert (Hin : wl_id w ∈ map wl_id l).
  { rewrite <- Hmap. apply list_elem_of_fmap. eauto. }
  apply list_elem_of_fmap in Hin as (y & Hy & Hin).
  specialize (Hlt y Hin). lia.
Qed.

Lemma store_valid_same db db' :
  orders db' = orders db -> ledger db' = ledger db ->
  store_valid db -> store_valid db'.
Proof.
  unfold store_valid, ledger_valid, orders_valid.
  intros -> ->. auto.
Qed.

Lemma upsertStatus_store_valid db orderId sd r db' :
  store_valid db -> upsertStatus orderId sd db = (r, db') -> store_valid db'.
Proof.
  intros (Hl & Ho) Hrun. split.
  - eapply upsertStatus_ledger_valid; eauto.
  - apply upsertStatus_frame in Hrun as [Hor _].
    unfold orders_valid in *. rewrite Hor. exact Ho.
Qed.

Lemma updateStatus_store_valid i o st vr db r db' :
  store_valid db -> updateStatus i o st vr db = (r, db') -> store_valid db'.
Proof.
  intros (Hl & Ho) Hrun.
  pose proof (updateStatus_frame _ _ _ _ _ _ _ Hrun) as (Hled & _ & _).
  split.
  - unfold ledger_valid in *. rewrite Hled. exact Hl.
  - eapply updateStatus_orders_valid; eauto.
Qed.

Lemma find_log_last_same_id l0 w w1 :
  find_log (wl_id w) (l0 ++ [w]) = Some (List.length l0, w) ->
  wl_id w1 = wl_id w ->
  find_log (wl_id w1) (l0 ++ [w1]) = Some (List.length l0, w1).
Proof.
  intros Hfind Hid. rewrite <- Hid in Hfind.
  apply find_log_insert in Hfind. rewrite insert_last in Hfind. exact Hfind.
Qed.

Lemma markAsProcessed_last rt w1 msg db l0 :
  webhookLogs db = l0 ++ [w1] ->
  find_log (wl_id w1) (l0 ++ [w1]) = Some (List.length l0, w1) ->
  msg <> "" ->
  exists wp,
    markAsProcessed rt w1 (Some msg) db = (Ok wp, with_logs db (l0 ++ [wp]))
    /\ wl_id wp = wl_id w1
    /\ wl_processing_status wp = "processed"
    /\ wl_order_id wp = wl_order_id w1
    /\ wl_processing_message wp = Some (trim msg)
    /\ wl_processed_at wp = Some (now rt).
Proof.
  intros Hlogs Hfind Hmsg. unfold markAsProcessed.
  rewrite save_log_run. simpl. rewrite Hlogs, Hfind, insert_last.
  eexists. split; [reflexivity|]. simpl. split_and!; auto.
  destruct (String.eqb msg "") eqn:He; [|reflexivity].
  apply String.eqb_eq in He. contradiction.
Qed.

(** The steps of [processWebhook] after the delivery record [w] was stored
    as the last record of the collection. *)
Lemma after_createLog_effect rt parsed w db1 l0 r db2 :
  webhookLogs db1 = l0 ++ [w] ->
  find_log (wl_id w) (l0 ++ [w]) = Some (List.length l0, w) ->
  after_createLog rt parsed w db1 = (r, db2) ->
  (nextId db1 <= nextId db2)%nat
  /\ (store_valid db1 -> store_valid db2)
  /\ match r with
     | Throw e =>
         exists q, webhookLogs db2 = l0 ++ [q]
                   /\ wl_id q = wl_id w
                   /\ wl_processing_status q = wl_processing_status w
     | Ok resp =>
         resp = response_ok
         /\ exists i order d wp,
              find_order parsed db1 = (Ok (Some (i, order)), db1)
              /\ webhookLogs db2 = l0 ++ [wp]
              /\ wl_id wp = wl_id w
              /\ wl_processing_status wp = "processed"
              /\ wl_order_id wp = Some (o_id order)
              /\ wl_processing_message wp
                 = Some "Webhook processed successfully"
              /\ wl_processed_at wp = Some (now rt)
              /\ d ∈ ledger db2 /\ collect_id d = o_id order
              /\ (forall s, p_status parsed = JStr s -> status d = Some s)
     end.
Proof.
  intros Hlogs Hfind. unfold after_createLog. rewrite bind_run.
  destruct (processWebhookData parsed w db1) as [rp dbp] eqn:Hp.
  apply processWebhookData_effect in Hp
    as [[-> [e ->]] | (i & order & n & x & ru & dbu & Hfo & Hfl & Hup & Hrest)].
  { intros [= <- <-]. split_and!; auto. exists w. auto. }
  rewrite Hlogs in Hfl, Hup. rewrite Hfind in Hfl. injection Hfl as <- <-.
  rewrite insert_last in Hup.
  pose proof (upsertStatus_frame _ _ _ _ _ Hup) as [Huo Hul].
  pose proof (upsertStatus_nextId _ _ _ _ _ Hup) as Hun.
  simpl in Huo, Hul, Hun.
  assert (Hsv : store_valid db1 -> store_valid dbu).
  { intros Hv. eapply upsertStatus_store_valid; [|exact Hup].
    eapply store_valid_same; [| |exact Hv]; reflexivity. }
  assert (Hlink : find_log (wl_id (link_order w order))
                    (l0 ++ [link_order w order])
                  = Some (List.length l0, link_order w order)).
  { apply find_log_last_same_id with (w := w); auto. }
  destruct ru as [d|e].
  2: { destruct Hrest as [-> ->]. intros [= <- <-]. split_and!; auto.
       exists (link_order w order). auto. }
  pose proof (upsertStatus_stored _ _ _ _ _ Hup) as [Hdin Hdc].
  assert (Hst : forall s, p_status parsed = JStr s -> status d = Some s).
  { intros s Hs. eapply upsertStatus_status; [|exact Hup]. exact Hs. }
  destruct (includes final_statuses (p_status parsed)) eqn:Hfin.
  - destruct Hrest as (ro & Hupd & ->).
    pose proof (updateStatus_frame _ _ _ _ _ _ _ Hupd) as (Hl3 & Hw3 & Hn3).
    assert (Hsv3 : store_valid db1 -> store_valid dbp).
    { intros Hv. eapply updateStatus_store_valid; [|exact Hupd]. auto. }
    destruct ro as [o'|e].
    + rewrite bind_run.
      destruct (markAsProcessed_last rt (link_order w order)
                  "Webhook processed successfully" dbp l0)
        as (wp & Hrun & Hid & Hps & Hoid & Hmsg & Hat);
        [congruence | exact Hlink | discriminate |].
      change (trim "Webhook processed successfully")
        with "Webhook processed successfully" in Hmsg.
      rewrite Hrun. intros [= <- <-]. simpl.
      split; [lia|].
      split; [intros Hv; eapply store_valid_same; [| |exact (Hsv3 Hv)];
              reflexivity|].
      split; [reflexivity|].
      exists i, order, d, wp. split_and!; auto; congruence.
    + intros [= <- <-].
      split; [lia|]. split; [exact Hsv3|].
      exists (link_order w order). split_and!; auto; congruence.
  - destruct Hrest as [-> ->].
    rewrite bind_run.
    destruct (markAsProcessed_last rt (link_order w order)
                "Webhook processed successfully" dbu l0)
      as (wp & Hrun & Hid & Hps & Hoid & Hmsg & Hat);
      [exact Hul | exact Hlink | discriminate |].
    change (trim "Webhook processed successfully")
      with "Webhook processed successfully" in Hmsg.
    rewrite Hrun. intros [= <- <-]. simpl.
    split; [lia|].
    split; [intros Hv; eapply store_valid_same; [| |exact (Hsv Hv)];
            reflexivity|].
    split; [reflexivity|].
    exists i, order, d, wp. split_and!; auto.
Qed.

Lemma find_order_found parsed db i order db0 :
  find_order parsed db = (Ok (Some (i, order)), db0) ->
  orders db !! i = Some order /\ identified_by parsed order.
Proof.
  unfold find_order, identified_by.
  destruct (truthy (p_custom_order_id parsed)) eqn:Hc.
  - unfold findByCustomOrderId, bind, lift, get_db, ret.
    destruct (on_path "custom_order_id"
                (castString (p_custom_order_id parsed))) as [o|e] eqn:Hcast;
      [|discriminate].
    destruct (truthy_cast_string _ _ _ Hc Hcast) as (c & Hcs & ->).
    intros [= Hf <-]. unfold find_by_custom_order_id in Hf.
    apply list_find_Some in Hf as (Hi & Hs & _). split; [done|].
    by exists c.
  - destruct (truthy (p_collect_request_id parsed)) eqn:Hr;
      [|discriminate].
    unfold findOne_collect_request_id, bind, lift, get_db, ret.
    destruct (on_path "collect_request_id"
                (castString (p_collect_request_id parsed)))
      as [o|e] eqn:Hcast; [|discriminate].
    destruct (truthy_cast_string _ _ _ Hr Hcast) as (c & Hcs & ->).
    intros [= Hf <-]. unfold find_by_collect_request_id in Hf.
    apply list_find_Some in Hf as (Hi & Hs & _). split; [done|].
    by exists c.
Qed.

Lemma find_order_reads_orders parsed db db1 :
  orders db1 = orders db ->
  fst (find_order parsed db1) = fst (find_order parsed db).
Proof.
  intros Ho. unfold find_order.
  destruct (truthy (p_custom_order_id parsed)).
  - unfold findByCustomOrderId, bind, lift, get_db, ret.
    destruct (on_path _ _); simpl; [rewrite Ho|]; reflexivity.
  - destruct (truthy (p_collect_request_id parsed)); [|reflexivity].
    unfold findOne_collect_request_id, bind, lift, get_db, ret.
    destruct (on_path _ _); simpl; [rewrite Ho|]; reflexivity.
Qed.

(** What every run of [processWebhook] on a store with fresh record ids
    gives. *)
Lemma processWebhook_effect rt req db r db' :
  log_ids_fresh db ->
  processWebhook rt req db = (r, db') ->
  log_ids_fresh db'
  /\ match r with
     | Throw _ =>
         webhookLogs db' = webhookLogs db
         /\ orders db' = orders db /\ ledger db' = ledger db
     | Ok resp =>
         (resp = response_ok
          /\ exists parsed i order d w,
               parseWebhookPayload rt (body req) = Ok parsed
               /\ orders db !! i = Some order
               /\ identified_by parsed order
               /\ webhookLogs db' = webhookLogs db ++ [w]
               /\ wl_processing_status w = "processed"
               /\ wl_order_id w = Some (o_id order)
               /\ wl_processing_message w
                  = Some "Webhook processed successfully"
               /\ wl_processed_at w = Some (now rt)
               /\ d ∈ ledger db' /\ collect_id d = o_id order
               /\ (forall s, p_status parsed = JStr s -> status d = Some s))
         \/ (resp = response_failed
             /\ exists f,
                  wl_processing_status f = "failed"
                  /\ (webhookLogs db' = webhookLogs db ++ [f]
                      \/ exists q, webhookLogs db' = webhookLogs db ++ [q; f]
                                   /\ wl_processing_status q = "queued"))
     end.
Proof.
  intros Hfresh Hrun.
  destruct (nullish (body req)) eqn:Hn.
  { unfold processWebhook in Hrun. rewrite Hn in Hrun.
    injection Hrun as <- <-. auto. }
  rewrite (processWebhook_run _ _ _ Hn) in Hrun.
  destruct (parseWebhookPayload rt (body req)) as [parsed|e0] eqn:Hparse.
  - set (d := log_data_parsed (log_data_init rt req) parsed) in *.
    destruct (createLog d db) as [[w|e] db1] eqn:Hc.
    + apply createLog_effect in Hc as (Ho1 & Hl1 & Hn1 & Hw1 & Hcons).
      pose proof (construct_log_inv _ _ _ Hcons) as [Hid Hq].
      change (wd_processing_status d) with "queued" in Hq.
      assert (Hfind : find_log (wl_id w) (webhookLogs db ++ [w])
                      = Some (List.length (webhookLogs db), w))
        by (apply find_log_fresh; auto).
      destruct (after_createLog rt parsed w db1) as [[resp|e] db2] eqn:Ha;
        apply (after_createLog_effect _ _ _ _ _ _ _ Hw1 Hfind) in Ha
          as (Hn2 & _ & Hr).
      * injection Hrun as <- <-.
        destruct Hr as (-> & i & order & x & wp & Hfo & Hw2 & Hwid & Hps
                        & Hoid & Hmsg & Hat & Hin & Hcid & Hst).
        split.
        -- unfold log_ids_fresh. rewrite Hw2.
           apply fresh_snoc with (n := nextId db); [exact Hfresh | lia].
        -- left. split; [reflexivity|].
           exists parsed, i, order, x, wp.
           apply find_order_found in Hfo as [Hi Hident].
           rewrite Ho1 in Hi. split_and!; auto.
      * destruct Hr as (q & Hw2 & Hqid & Hqs).
        rewrite on_failure_run in Hrun by reflexivity.
        destruct (createLog _ db2) as [[f|e'] db3] eqn:Hc3;
          apply createLog_effect in Hc3 as (Ho3 & Hl3 & Hn3 & Hw3 & Hcons3);
          rewrite (construct_log_failed (nextId db) (nextId db2) d w
                     (message_of e) eq_refl Hcons)
            in Hcons3; [|discriminate].
        injection Hcons3 as <-. injection Hrun as <- <-.
        split.
        -- unfold log_ids_fresh. rewrite Hw3, Hw2.
           apply fresh_snoc with (n := nextId db2); [|simpl; lia].
           apply fresh_snoc with (n := nextId db); [exact Hfresh | lia].
        -- right. split; [reflexivity|].
           exists (failed_copy w (nextId db2) (message_of e)).
           split; [reflexivity|]. right. exists q.
           rewrite Hw3, Hw2, <- app_assoc. split; [reflexivity|]. congruence.
    + apply createLog_effect in Hc as (Ho1 & Hl1 & Hn1 & Hw1 & Hcons).
      rewrite on_failure_run in Hrun by reflexivity.
      destruct (createLog _ db1) as [[f|e'] db3] eqn:Hc3;
        apply createLog_effect in Hc3 as (Ho3 & Hl3 & Hn3 & Hw3 & Hcons3);
        rewrite (construct_log_failed_throw (nextId db) (nextId db1) d
                   (message_of e) e Hcons eq_refl) in Hcons3; [discriminate|].
      injection Hrun as <- <-.
      split; [|split_and!; congruence].
      unfold log_ids_fresh. rewrite Hw3, Hw1.
      eapply fresh_same_ids; [exact Hfresh | reflexivity | lia].
  - rewrite on_failure_run in Hrun by reflexivity.
    destruct (createLog _ db) as [[f|e'] db3] eqn:Hc3;
      apply createLog_effect in Hc3 as (Ho3 & Hl3 & Hn3 & Hw3 & Hcons3);
      injection Hrun as <- <-.
    + pose proof (construct_log_inv _ _ _ Hcons3) as [Hid Hs].
      split.
      * unfold log_ids_fresh. rewrite Hw3.
        apply fresh_snoc with (n := nextId db); [exact Hfresh | lia].
      * right. split; [reflexivity|]. exists f. split; [exact Hs|]. auto.
    + split; [|auto].
      unfold log_ids_fresh. rewrite Hw3.
      eapply fresh_same_ids; [exact Hfresh | reflexivity | lia].
Qed.

(** X12.  On a store whose delivery records have distinct, already issued
    [_id]s, [processWebhook] only appends to the collection of delivery
    records: the records it found stay as they are, one or two are added
    when the request is answered (the last one [processed] for the answer
    200 and [failed] for the answer 400), and none when the handler rejects,
    in which case orders and ledger are unchanged as well.  The [_id]s stay
    distinct. *)
Theorem webhook_appends_delivery_records rt req db r db' :
  log_ids_fresh db ->
  processWebhook rt req db = (r, db') ->
  log_ids_fresh db'
  /\ exists new,
       webhookLogs db' = webhookLogs db ++ new
       /\ match r with
          | Throw _ =>
              new = [] /\ orders db' = orders db /\ ledger db' = ledger db
          | Ok resp =>
              (0 < List.length new <= 2)%nat
              /\ exists w,
                   last new = Some w
                   /\ wl_processing_status w
                      = (if success resp then "processed" else "failed")
                   /\ http_status resp = (if success resp then 200 else 400)
          end.
Proof.
  intros Hfresh Hrun.
  destruct (processWebhook_effect _ _ _ _ _ Hfresh Hrun) as [Hfresh' Hr].
  split; [exact Hfresh'|].
  destruct r as [resp|e].
  - destruct Hr as [(-> & parsed & i & order & d & w & _ & _ & _ & Hw & Hs & _)
                   |(-> & f & Hs & [Hw|(q & Hw & Hq)])].
    + exists [w]. split; [exact Hw|]. split; [simpl; lia|].
      exists w. simpl. auto.
    + exists [f]. split; [exact Hw|]. split; [simpl; lia|].
      exists f. simpl. auto.
    + exists [q; f]. split; [exact Hw|]. split; [simpl; lia|].
      exists f. simpl. auto.
  - destruct Hr as (Hw & Ho & Hl). exists []. rewrite app_nil_r. auto.
Qed.

Lemma webhook_appends_delivery_records_witness :
  let run := processWebhook sample_runtime
               (webhook_request (webhook_payload "ORD-1" "CRQ123" "completed"))
               db_pending in
  log_ids_fresh (snd run)
  /\ exists new,
       webhookLogs (snd run) = webhookLogs db_pending ++ new
       /\ match fst run with
          | Throw _ =>
              new = [] /\ orders (snd run) = orders db_pending
              /\ ledger (snd run) = ledger db_pending
          | Ok resp =>
              (0 < List.length new <= 2)%nat
              /\ exists w,
                   last new = Some w
                   /\ wl_processing_status w
                      = (if success resp then "processed" else "failed")
                   /\ http_status resp = (if success resp then 200 else 400)
          end.
Proof.
  intros run.
  apply (webhook_appends_delivery_records sample_runtime
           (webhook_request (webhook_payload "ORD-1" "CRQ123" "completed"))
           db_pending (fst run) (snd run)).
  - split; simpl; constructor.
  - vm_compute. reflexivity.
Defined.

(** X13.  The answer 200 of [processWebhook] means all of this: the payload
    was parsed, it identifies an order of the store by its
    [custom_order_id] or else its [collect_request_id], exactly one delivery
    record was added, in state [processed] and linked to that order, and the
    ledger holds an entry of that order with the status of the payload. *)
Theorem acknowledged_webhook_is_recorded rt req db db' :
  log_ids_fresh db ->
  processWebhook rt req db = (Ok response_ok, db') ->
  exists parsed i order d w,
    parseWebhookPayload rt (body req) = Ok parsed
    /\ orders db !! i = Some order
    /\ identified_by parsed order
    /\ webhookLogs db' = webhookLogs db ++ [w]
    /\ wl_processing_status w = "processed"
    /\ wl_order_id w = Some (o_id order)
    /\ wl_processing_message w = Some "Webhook processed successfully"
    /\ wl_processed_at w = Some (now rt)
    /\ d ∈ ledger db' /\ collect_id d = o_id order
    /\ (forall s, p_status parsed = JStr s -> status d = Some s).
Proof.
  intros Hfresh Hrun.
  destruct (processWebhook_effect _ _ _ _ _ Hfresh Hrun) as [_ [Hok|Hfail]].
  - destruct Hok as (_ & H). exact H.
  - destruct Hfail as ([=] & _).
Qed.

Lemma acknowledged_webhook_is_recorded_witness :
  let db' := snd (processWebhook sample_runtime
                    (webhook_request
                       (webhook_payload "ORD-1" "CRQ123" "completed"))
                    db_pending) in
  exists parsed i order d w,
    parseWebhookPayload sample_runtime
      (webhook_payload "ORD-1" "CRQ123" "completed") = Ok parsed
    /\ orders db_pending !! i = Some order
    /\ identified_by parsed order
    /\ webhookLogs db' = webhookLogs db_pending ++ [w]
    /\ wl_processing_status w = "processed"
    /\ wl_order_id w = Some (o_id order)
    /\ wl_processing_message w = Some "Webhook processed successfully"
    /\ wl_processed_at w = Some (now sample_runtime)
    /\ d ∈ ledger db' /\ collect_id d = o_id order
    /\ (forall s, p_status parsed = JStr s -> status d = Some s).
Proof.
  intros db'.
  apply (acknowledged_webhook_is_recorded sample_runtime
           (webhook_request (webhook_payload "ORD-1" "CRQ123" "completed"))
           db_pending db').
  - split; simpl; constructor.
  - vm_compute. reflexivity.
Defined.

Lemma save_log_frame w db r db' :
  save_log w db = (r, db') ->
  orders db' = orders db /\ ledger db' = ledger db.
Proof.
  rewrite save_log_run.
  destruct (find_log _ _) as [[i x]|]; intros [= <- <-]; auto.
Qed.

Lemma on_failure_frame rt d e db r db' :
  wd_id d = None ->
  on_failure rt d e db = (r, db') ->
  orders db' = orders db /\ ledger db' = ledger db.
Proof.
  intros Hd. rewrite (on_failure_run _ _ _ _ Hd).
  destruct (createLog _ db) as [[f|e'] db1] eqn:Hc;
    apply createLog_effect in Hc as (Ho & Hl & _); intros [= <- <-]; auto.
Qed.

Lemma after_createLog_store_valid rt parsed w db r db' :
  store_valid db -> after_createLog rt parsed w db = (r, db') ->
  store_valid db'.
Proof.
  intros Hv. unfold after_createLog. rewrite bind_run.
  destruct (processWebhookData parsed w db) as [rp dbp] eqn:Hp.
  assert (Hvp : store_valid dbp).
  { apply processWebhookData_effect in Hp
      as [[-> _] | (i & order & n & x & ru & dbu & _ & _ & Hup & Hrest)];
      [exact Hv|].
    assert (Hvu : store_valid dbu).
    { eapply upsertStatus_store_valid; [|exact Hup].
      eapply store_valid_same; [| |exact Hv]; reflexivity. }
    destruct ru as [d|e]; [|destruct Hrest as [_ ->]; exact Hvu].
    destruct (includes final_statuses (p_status parsed)).
    - destruct Hrest as (ro & Hupd & _).
      eapply updateStatus_store_valid; eauto.
    - destruct Hrest as [_ ->]. exact Hvu. }
  destruct rp as [w'|e]; [|intros [= <- <-]; exact Hvp].
  rewrite bind_run.
  destruct (markAsProcessed rt w' _ dbp) as [[w2|e] db2] eqn:Hm;
    unfold markAsProcessed in Hm; apply save_log_frame in Hm as [Ho Hl];
    intros [= <- <-]; eapply store_valid_same; eauto.
Qed.

(** The steps after the delivery record was stored change the ledger by
    one [upsertStatus] at most, for the observation of the payload. *)
Lemma after_createLog_ledger (P : list OrderStatus -> Prop)
    rt parsed w db r db' :
  (forall order dbx ru dbu,
     ledger dbx = ledger db ->
     upsertStatus (o_id order) (webhook_status_data parsed order) dbx
       = (ru, dbu) ->
     P (ledger dbu)) ->
  P (ledger db) -> after_createLog rt parsed w db = (r, db') ->
  P (ledger db').
Proof.
  intros Hstep Hp. unfold after_createLog. rewrite bind_run.
  destruct (processWebhookData parsed w db) as [rp dbp] eqn:Hrun.
  assert (P (ledger dbp)) as Hpp.
  { apply processWebhookData_effect in Hrun
      as [[-> _] | (i & order & n & x & ru & dbu & _ & _ & Hup & Hrest)];
      [exact Hp|].
    assert (P (ledger dbu)) as Hu.
    { eapply Hstep; [|exact Hup]. reflexivity. }
    destruct ru as [d|e]; [|destruct Hrest as [_ ->]; exact Hu].
    destruct (includes final_statuses (p_status parsed)).
    - destruct Hrest as (ro & Hupd & _).
      apply updateStatus_frame in Hupd as (-> & _). exact Hu.
    - destruct Hrest as [_ ->]. exact Hu. }
  destruct rp as [w'|e]; [|intros [= <- <-]; exact Hpp].
  rewrite bind_run.
  destruct (markAsProcessed rt w' _ dbp) as [[w2|e] db2] eqn:Hm;
    unfold markAsProcessed in Hm; apply save_log_frame in Hm as [_ Hl];
    intros [= <- <-]; by rewrite Hl.
Qed.

(** X14.  [processWebhook] keeps the stored data well-formed, whatever the
    request and however it ends: every ledger entry still passes the
    validators of its schema, and every order's cached status is still in
    the order's enum.  A ledger without two entries for one order and
    transaction id stays so, unless the payload's transaction id is [0] or
    [false]. *)
Theorem webhook_keeps_store_valid rt req db r db' :
  processWebhook rt req db = (r, db') ->
  (store_valid db -> store_valid db')
  /\ (unique_transactions (ledger db) ->
      (forall parsed, parseWebhookPayload rt (body req) = Ok parsed ->
                      ~ stored_without_lookup (p_transaction_id parsed)) ->
      unique_transactions (ledger db')).
Proof.
  intros Hrun. split.
  - intros Hv.
    destruct (nullish (body req)) eqn:Hn.
    { unfold processWebhook in Hrun. rewrite Hn in Hrun.
      injection Hrun as <- <-. exact Hv. }
    rewrite (processWebhook_run _ _ _ Hn) in Hrun.
    destruct (parseWebhookPayload rt (body req)) as [parsed|e0].
    + destruct (createLog _ db) as [[w|e] db1] eqn:Hc;
        apply createLog_effect in Hc as (Ho1 & Hl1 & _).
      * assert (Hv1 : store_valid db1) by (eapply store_valid_same; eauto).
        destruct (after_createLog rt parsed w db1) as [[resp|e] db2] eqn:Ha;
          pose proof (after_createLog_store_valid _ _ _ _ _ _ Hv1 Ha) as Hv2.
        -- injection Hrun as <- <-. exact Hv2.
        -- apply on_failure_frame in Hrun as [Ho Hl]; [|reflexivity].
           eapply store_valid_same; eauto.
      * assert (Hv1 : store_valid db1) by (eapply store_valid_same; eauto).
        apply on_failure_frame in Hrun as [Ho Hl]; [|reflexivity].
        eapply store_valid_same; eauto.
    + apply on_failure_frame in Hrun as [Ho Hl]; [|reflexivity].
      eapply store_valid_same; eauto.
  - intros Hu Hid.
    destruct (nullish (body req)) eqn:Hn.
    { unfold processWebhook in Hrun. rewrite Hn in Hrun.
      injection Hrun as <- <-. exact Hu. }
    rewrite (processWebhook_run _ _ _ Hn) in Hrun.
    destruct (parseWebhookPayload rt (body req)) as [parsed|e0].
    + specialize (Hid parsed eq_refl).
      destruct (createLog _ db) as [[w|e] db1] eqn:Hc;
        apply createLog_effect in Hc as (_ & Hl1 & _).
      * assert (unique_transactions (ledger db1)) as Hu1 by by rewrite Hl1.
        destruct (after_createLog rt parsed w db1) as [[resp|e] db2] eqn:Ha;
          apply (after_createLog_ledger unique_transactions) in Ha;
          try exact Hu1;
          try (intros order dbx ru dbu Hlx Hup;
               apply (upsertStatus_unique dbx _ _ ru dbu) in Hup;
               [exact Hup|exact Hid|by rewrite Hlx]).
        -- injection Hrun as <- <-. exact Ha.
        -- apply on_failure_frame in Hrun as [_ Hl]; [|reflexivity].
           by rewrite Hl.
      * apply on_failure_frame in Hrun as [_ Hl]; [|reflexivity].
        by rewrite Hl, Hl1.
    + apply on_failure_frame in Hrun as [_ Hl]; [|reflexivity].
      by rewrite Hl.
Qed.

Lemma webhook_keeps_store_valid_witness :
  let db' := snd (processWebhook sample_runtime
                    (webhook_request
                       (webhook_payload "ORD-1" "CRQ123" "completed"))
                    db_pending) in
  store_valid db' /\ unique_transactions (ledger db').
Proof.
  intros db'.
  assert (processWebhook sample_runtime
            (webhook_request (webhook_payload "ORD-1" "CRQ123" "completed"))
            db_pending
          = (Ok response_ok, db')) as Hrun.
  { vm_compute. reflexivity. }
  destruct (webhook_keeps_store_valid _ _ _ _ _ Hrun) as [Hvalid Hunique].
  split.
  - apply Hvalid. split; repeat constructor.
  - apply Hunique.
    + intros [|i] [|j] d1 d2 H1 H2 _ _ Hc; simpl in H1, H2;
        try reflexivity; try discriminate.
    + intros parsed [= <-] [H|H]; discriminate H.
Defined.

(** ** The client-poll path *)





(** ** Retries *)

Lemma first_success {A E : Type} (operation : Z -> A + E) (n : nat)
    (attempt : Z) :
  (forall j, attempt <= j < attempt + Z.of_nat n ->
             exists e, operation j = inr e)
  \/ exists (k : nat) a,
       (k < n)%nat /\ operation (attempt + Z.of_nat k) = inl a
       /\ forall j, attempt <= j < attempt + Z.of_nat k ->
                    exists e, operation j = inr e.
Proof.
  induction n as [|n IH]; [left; intros; lia|].
  destruct IH as [Hall | (k & a & Hk & Ha & Hbefore)].
  - destruct (operation (attempt + Z.of_nat n)) as [a|e] eqn:Hn.
    + right. exists n, a. split_and!; auto.
    + left. intros j Hj.
      destruct (decide (j = attempt + Z.of_nat n)) as [->|Hne]; [eauto|].
      apply Hall. lia.
  - right. exists k, a. split_and!; auto.
Qed.

Lemma delays_bounded baseDelay maxDelay (l : list Z) :
  Forall (fun ms => ms <= maxDelay) (map (delayTime baseDelay maxDelay) l).
Proof.
  induction l as [|j l IH]; simpl; constructor; auto.
  unfold delayTime. lia.
Qed.

Lemma retryWithBackoff_spec {A E : Type} (operation : Z -> A + E)
    (maxRetries baseDelay maxDelay : Z) :
  let run := retryWithBackoff operation maxRetries baseDelay maxDelay in
  Z.of_nat (attempts (fst run)) <= Z.max 0 (maxRetries + 1)
  /\ List.length (delays (fst run)) = Nat.pred (attempts (fst run))
  /\ Forall (fun ms => ms <= maxDelay) (delays (fst run))
  /\ match snd run with
     | Resolved a =>
         exists k, 0 <= k <= maxRetries /\ operation k = inl a
                   /\ attempts (fst run) = Z.to_nat (k + 1)
                   /\ forall j, 0 <= j < k -> exists e, operation j = inr e
     | Rejected (Some e) =>
         0 <= maxRetries /\ operation maxRetries = inr e
         /\ attempts (fst run) = Z.to_nat (maxRetries + 1)
         /\ forall j, 0 <= j <= maxRetries -> exists e', operation j = inr e'
     | Rejected None => maxRetries < 0 /\ fst run = []
     end.
Proof.
  intros run. subst run. unfold retryWithBackoff.
  destruct (Z_lt_le_dec maxRetries 0) as [Hneg|Hpos].
  { replace (Z.to_nat (maxRetries + 1)) with 0%nat by lia. simpl.
    unfold attempts. simpl. split_and!; auto; try lia. }
  destruct (first_success operation (Z.to_nat (maxRetries + 1)) 0)
    as [Hall | (k & a & Hk & Ha & Hbefore)].
  - destruct (Hall maxRetries) as [e He]; [lia|].
    rewrite (retry_loop_run operation maxRetries baseDelay maxDelay
               (Z.to_nat maxRetries) 0 _ None); try lia.
    + rewrite !Z2Nat.id by lia. rewrite !Z.add_0_l. simpl. rewrite He.
      rewrite attempts_rounds, delays_rounds, length_map, length_seqZ.
      split_and!; auto; try lia; try apply delays_bounded.
      intros j Hj. apply Hall. lia.
    + intros j Hj. apply Hall. lia.
  - rewrite (retry_loop_run operation maxRetries baseDelay maxDelay
               k 0 _ None); try lia.
    + rewrite !Z.add_0_l in *. simpl. rewrite Ha.
      rewrite attempts_rounds, delays_rounds, length_map, length_seqZ.
      split_and!; auto; try lia; try apply delays_bounded.
      exists (Z.of_nat k). split_and!; auto; lia.
    + exact Hbefore.
    + left. eauto.
Qed.


Lemma response_status_nonzero e : PaymentService.response_status e <> 0.
Proof.
  unfold PaymentService.response_status.
  destruct (PaymentService.ax_response e) as [[st data]|]; [|lia].
  destruct (st =? 0) eqn:Hz; lia.
Qed.

(** X17.  [createCollectRequest] of the payment service posts at most four
    times, waiting at most 5000 ms between two posts.  It reports success
    exactly with the fields of the first answer received, and a failure with
    the error of the fourth failed post (or, for an answer without a body,
    a generic one); the status of a reported failure is never 0. *)
Theorem createCollectRequest_outcome
    (post : Z -> JsVal + PaymentService.AxiosError) :
  let run := PaymentService.createCollectRequest post in
  (attempts (fst run) <= 4)%nat
  /\ Forall (fun ms => ms <= 5000) (delays (fst run))
  /\ match snd run with
     | PaymentService.Success data =>
         exists k body,
           0 <= k <= 3 /\ post k = inl body /\ nullish body = false
           /\ (forall j, 0 <= j < k -> exists e, post j = inr e)
           /\ data = [("collect_request_id", prop "collect_request_id" body);
                      ("payment_url", prop "collect_request_url" body);
                      ("sign", prop "sign" body)]
     | PaymentService.Failure error =>
         PaymentService.se_status error <> 0
         /\ ((exists e,
                post 3 = inr e
                /\ (forall j, 0 <= j <= 3 -> exists e', post j = inr e')
                /\ error = PaymentService.service_error "PAYMENT_API_ERROR" e)
             \/ (exists k,
                   0 <= k <= 3
                   /\ (exists body, post k = inl body /\ nullish body = true)
                   /\ (forall j, 0 <= j < k -> exists e, post j = inr e)
                   /\ error = PaymentService.service_error "PAYMENT_API_ERROR"
                                PaymentService.type_error))
     end.
Proof.
  intros run. subst run. unfold PaymentService.createCollectRequest.
  pose proof (retryWithBackoff_spec post 3 1000 5000)
    as (Hatt & _ & Hdel & Hset).
  destruct (retryWithBackoff post 3 1000 5000) as [events settled].
  simpl in *. split; [lia|]. split; [exact Hdel|].
  destruct settled as [body|[e|]].
  - destruct Hset as (k & Hk & Hpost & _ & Hbefore).
    destruct (nullish body) eqn:Hb.
    + split; [apply response_status_nonzero|]. right.
      exists k. split_and!; eauto; lia.
    + exists k, body. split_and!; auto; lia.
  - destruct Hset as (_ & Hpost & _ & Hall).
    split; [apply response_status_nonzero|]. left. exists e. auto.
  - destruct Hset as [Hneg _]. lia.
Qed.



(** ** The status of one transaction *)

Lemma refresh_effect rt o vendor db r db' :
  TransactionsController.refresh rt o vendor db = (r, db') ->
  exists v,
    r = Ok v
    /\ match vendor with
       | inl data =>
           if TransactionsController.has_collect_request_id o && truthy data
           then v = data
                /\ db' = snd (upsertStatus (o_id o)
                                (TransactionsController.refresh_status_data
                                   rt data o) db)
           else db' = db
                /\ v = (if TransactionsController.has_collect_request_id o
                        then data else JNull)
       | inr _ => db' = db /\ v = JNull
       end.
Proof.
  unfold TransactionsController.refresh.
  destruct (TransactionsController.has_collect_request_id o).
  - destruct vendor as [data|e];
      [|intros [= <- <-]; eexists; split; [reflexivity|]; auto].
    rewrite bind_run. unfold try_catch.
    destruct (truthy data); simpl.
    + rewrite bind_run.
      destruct (upsertStatus _ _ db) as [[d|e] dbu]; intros [= <- <-];
        (eexists; split; [reflexivity|]; simpl; auto).
    + intros [= <- <-]. eexists; split; [reflexivity|]; auto.
  - intros [= <- <-]. exists JNull. destruct vendor; simpl; auto.
Qed.

Lemma getTransactionStatus_run rt c user vendor db :
  TransactionsController.getTransactionStatus rt c user vendor db =
    match find_by_custom_order_id c (orders db) with
    | None => (Ok TransactionsController.order_not_found, db)
    | Some (_, o) =>
        if negb (strict_eq_str (TransactionsController.role user) "admin")
           && negb (strict_eq_str (TransactionsController.school_id user)
                      (o_school_id o))
        then (Ok TransactionsController.access_denied, db)
        else
          match TransactionsController.refresh rt o vendor db with
          | (Ok v, db') =>
              (Ok (TransactionsController.retrieved o
                     (findLatestByOrderId (o_id o) db') v), db')
          | (Throw e, db') => (Ok TransactionsController.retrieval_failed, db')
          end
    end.
Proof.
  unfold TransactionsController.getTransactionStatus, try_catch.
  rewrite bind_run. unfold findByCustomOrderId. simpl.
  unfold bind, lift, get_db, ret. simpl.
  destruct (find_by_custom_order_id c (orders db)) as [[i o]|]; [|reflexivity].
  destruct (negb _ && negb _); [reflexivity|].
  destruct (TransactionsController.refresh rt o vendor db) as [[v|e] db'];
    reflexivity.
Qed.

Lemma transaction_status_effect rt c user vendor db r db' :
  TransactionsController.getTransactionStatus rt c user vendor db = (r, db') ->
  exists a,
    r = Ok a
    /\ match TransactionsController.data a with
       | Some body =>
           TransactionsController.http_status a = 200
           /\ exists i o,
                find_by_custom_order_id c (orders db) = Some (i, o)
                /\ TransactionsController.order body
                   = TransactionsController.summary o
                /\ (TransactionsController.role user = JStr "admin"
                    \/ TransactionsController.school_id user
                       = JStr (o_school_id o))
                /\ TransactionsController.latest_status body
                   = findLatestByOrderId (o_id o) db'
                /\ match vendor with
                   | inl v =>
                       if TransactionsController.has_collect_request_id o
                          && truthy v
                       then TransactionsController.vendor_status body = v
                            /\ db' = snd (upsertStatus (o_id o)
                                            (TransactionsController.refresh_status_data
                                               rt v o) db)
                       else db' = db
                            /\ TransactionsController.vendor_status body
                               = (if TransactionsController.has_collect_request_id o
                                  then v else JNull)
                   | inr _ =>
                       db' = db
                       /\ TransactionsController.vendor_status body = JNull
                   end
       | None =>
           (TransactionsController.http_status a = 404 ->
            db' = db /\ find_by_custom_order_id c (orders db) = None)
           /\ (TransactionsController.http_status a = 403 ->
               db' = db
               /\ exists i o,
                    find_by_custom_order_id c (orders db) = Some (i, o)
                    /\ TransactionsController.role user <> JStr "admin"
                    /\ TransactionsController.school_id user
                       <> JStr (o_school_id o))
       end.
Proof.
  rewrite getTransactionStatus_run.
  destruct (find_by_custom_order_id c (orders db)) as [[i o]|] eqn:Hfind.
  2: { intros [= <- <-]. eexists. split; [reflexivity|]. simpl.
       split; [auto | discriminate]. }
  destruct (negb (strict_eq_str (TransactionsController.role user) "admin")
            && negb (strict_eq_str (TransactionsController.school_id user)
                       (o_school_id o))) eqn:Hdeny.
  { apply andb_true_iff in Hdeny as [H1 H2].
    apply negb_true_iff in H1, H2.
    intros [= <- <-]. eexists. split; [reflexivity|]. simpl.
    split; [discriminate|]. intros _. split; [reflexivity|].
    exists i, o. split_and!; auto; by apply strict_eq_str_false. }
  assert (Hauth : TransactionsController.role user = JStr "admin"
                  \/ TransactionsController.school_id user
                     = JStr (o_school_id o)).
  { apply andb_false_iff in Hdeny as [H|H]; apply negb_false_iff in H;
      [left|right]; by apply strict_eq_str_true. }
  destruct (TransactionsController.refresh rt o vendor db) as [rv dbr] eqn:Hr.
  apply refresh_effect in Hr as (v & -> & Hv).
  intros [= <- <-]. eexists. split; [reflexivity|]. simpl.
  split; [reflexivity|]. exists i, o. split_and!; auto.
Qed.

(** X19.  [getTransactionStatus] gives the data of an order only to an
    administrator or to a user of the order's school: the answer 200 is for
    the order with the requested [custom_order_id] and such a user; the
    answers 404 (no such order) and 403 (another school) come before
    any request to the vendor could be stored, and leave the store as it
    was. *)
Theorem transaction_status_school_isolation rt c user vendor db :
  let out := TransactionsController.getTransactionStatus rt c user vendor db in
  exists a,
    fst out = Ok a
    /\ match TransactionsController.data a with
       | Some body =>
           TransactionsController.http_status a = 200
           /\ exists i o,
                find_by_custom_order_id c (orders db) = Some (i, o)
                /\ TransactionsController.order body
                   = TransactionsController.summary o
                /\ (TransactionsController.role user = JStr "admin"
                    \/ TransactionsController.school_id user
                       = JStr (o_school_id o))
       | None =>
           (TransactionsController.http_status a = 404 ->
            snd out = db /\ find_by_custom_order_id c (orders db) = None)
           /\ (TransactionsController.http_status a = 403 ->
               snd out = db
               /\ exists i o,
                    find_by_custom_order_id c (orders db) = Some (i, o)
                    /\ TransactionsController.role user <> JStr "admin"
                    /\ TransactionsController.school_id user
                       <> JStr (o_school_id o))
       end.
Proof.
  intros out.
  destruct (transaction_status_effect rt c user vendor db (fst out) (snd out))
    as (a & Ha & H); [apply surjective_pairing|].
  exists a. split; [exact Ha|].
  destruct (TransactionsController.data a) as [body|]; [|exact H].
  destruct H as (Hhttp & i & o & Hf & Ho & Hu & _). eauto 10.
Qed.

(** X20.  What the answer 200 of [getTransactionStatus] reports and what the
    request changes.  The vendor's answer, when the order has a
    [collect_request_id] and the answer is truthy, is upserted into the
    ledger, accepted or not, and returned as [vendor_status]; an error of
    the vendor leaves the store as it was and [vendor_status] null.
    [latest_status] is read after that, from the store as the request
    leaves it.  Orders and delivery records are never written, and the
    stored data stay well-formed. *)
Theorem transaction_status_refresh rt c user vendor db :
  let out := TransactionsController.getTransactionStatus rt c user vendor db in
  orders (snd out) = orders db /\ webhookLogs (snd out) = webhookLogs db
  /\ (store_valid db -> store_valid (snd out))
  /\ forall a body,
       fst out = Ok a -> TransactionsController.data a = Some body ->
       exists i o,
         find_by_custom_order_id c (orders db) = Some (i, o)
         /\ TransactionsController.latest_status body
            = findLatestByOrderId (o_id o) (snd out)
         /\ match vendor with
            | inl v =>
                if TransactionsController.has_collect_request_id o && truthy v
                then TransactionsController.vendor_status body = v
                     /\ snd out
                        = snd (upsertStatus (o_id o)
                                 (TransactionsController.refresh_status_data
                                    rt v o) db)
                else snd out = db
                     /\ TransactionsController.vendor_status body
                        = (if TransactionsController.has_collect_request_id o
                           then v else JNull)
            | inr _ =>
                snd out = db
                /\ TransactionsController.vendor_status body = JNull
            end.
Proof.
  intros out.
  assert (Hframe : orders (snd out) = orders db
                   /\ webhookLogs (snd out) = webhookLogs db
                   /\ (store_valid db -> store_valid (snd out))).
  { subst out. rewrite getTransactionStatus_run.
    destruct (find_by_custom_order_id c (orders db)) as [[i o]|];
      [|simpl; auto].
    destruct (negb _ && negb _); [simpl; auto|].
    destruct (TransactionsController.refresh rt o vendor db)
      as [rv dbr] eqn:Hr.
    assert (Hdbr : orders dbr = orders db /\ webhookLogs dbr = webhookLogs db
                   /\ (store_valid db -> store_valid dbr)).
    { apply refresh_effect in Hr as (v & -> & Hv).
      destruct vendor as [data|e]; [|destruct Hv as [-> _]; auto].
      destruct (TransactionsController.has_collect_request_id o && truthy data);
        [|destruct Hv as [-> _]; auto].
      destruct Hv as [_ ->].
      destruct (upsertStatus (o_id o) _ db) as [ru dbu] eqn:Hup. simpl.
      pose proof (upsertStatus_frame _ _ _ _ _ Hup) as [Ho Hw].
      split_and!; auto. intros Hv.
      eapply upsertStatus_store_valid; eauto. }
    destruct rv; exact Hdbr. }
  destruct Hframe as (Ho & Hw & Hv). split_and!; auto.
  intros a body Ha Hbody.
  destruct (transaction_status_effect rt c user vendor db (fst out) (snd out))
    as (a' & Ha' & H); [apply surjective_pairing|].
  rewrite Ha in Ha'. injection Ha' as <-. rewrite Hbody in H.
  destruct H as (_ & i & o & Hf & _ & _ & Hl & Hvendor).
  exists i, o. auto.
Qed.

(** ** The vendor client *)

Lemma vendor_request_outcome fallback sign http :
  fallback <> "" ->
  match VendorClient.request fallback sign http with
  | inl data => truthy data = true /\ http = inl data /\ sign <> None
  | inr e =>
      truthy (ErrorMiddleware.message e) = true
      /\ In (ErrorMiddleware.statusCode e) [400; 500; 502]
      /\ (ErrorMiddleware.statusCode e = 400 <->
          sign <> None
          /\ exists status data,
               http = inr (VendorClient.ErrorResponse status data)
               /\ status < 500)
      /\ (ErrorMiddleware.statusCode e = 500 <->
          sign = None \/ http = inr VendorClient.SetupError)
  end.
Proof.
  intros Hfb. unfold VendorClient.request.
  destruct sign as [s|].
  2: { simpl. split_and!; auto.
       - split; [discriminate | intros [[] _]; reflexivity].
       - split; auto. }
  destruct http as [data|[status data| |]]; simpl.
  - destruct (truthy data) eqn:Ht; [split_and!; auto; discriminate|].
    simpl. split_and!; auto.
    + split; [discriminate | intros (_ & st & d & [=] & _)].
    + split; [discriminate | intros [[=]|[=]]].
  - split; [apply truthy_or_else_lit; exact Hfb|].
    destruct (500 <=? status) eqn:Hs.
    + split_and!; auto.
      * split; [discriminate|]. intros (_ & st & d & [= -> ->] & Hlt). lia.
      * split; [discriminate | intros [[=]|[=]]].
    + split_and!; auto.
      * split; [|reflexivity]. intros _. split; [discriminate|].
        exists status, data. split; [reflexivity|lia].
      * split; [discriminate | intros [[=]|[=]]].
  - split_and!; auto.
    + split; [discriminate | intros (_ & st & d & [=] & _)].
    + split; [discriminate | intros [[=]|[=]]].
  - split_and!; auto.
    + split; [discriminate | intros (_ & st & d & [=] & _)].
    + split; auto.
Qed.

(** X21.  Both methods of the vendor client return the vendor's answer only
    when it is truthy, and otherwise throw an application error with a
    message and one of three status codes, never the vendor's own: 400 for
    an error answer of the vendor below 500, 500 when the payload could not
    be signed or the request could not be set up, 502 in every other
    case. *)
Theorem vendor_errors_normalised sign http :
  let outcome (r : JsVal + ErrorMiddleware.AppError) :=
    match r with
    | inl data => truthy data = true /\ http = inl data /\ sign <> None
    | inr e =>
        truthy (ErrorMiddleware.message e) = true
        /\ In (ErrorMiddleware.statusCode e) [400; 500; 502]
        /\ (ErrorMiddleware.statusCode e = 400 <->
            sign <> None
            /\ exists status data,
                 http = inr (VendorClient.ErrorResponse status data)
                 /\ status < 500)
        /\ (ErrorMiddleware.statusCode e = 500 <->
            sign = None \/ http = inr VendorClient.SetupError)
    end in
  outcome (VendorClient.createCollectRequest sign http)
  /\ outcome (VendorClient.getCollectRequest sign http).
Proof.
  intros outcome. subst outcome. cbv beta.
  split; apply vendor_request_outcome; discriminate.
Qed.

(** ** Batches *)

Section BatchFacts.

Context {A B E : Type}.
Variable items : list A.
Variable processFn : list A -> option Z -> B + E.
Variable batchSize : Z.
Hypothesis batchSize_pos : 1 <= batchSize.






End BatchFacts.



Lemma loop_never_ends {A B E : Type} (items : list A)
    (processFn : list A -> option Z -> B + E) (batchSize : Z) (fuel : nat) :
  batchSize <= 0 -> items <> [] ->
  (forall batch index, exists r, processFn batch index = inl r) ->
  forall i results,
    i <= 0 ->
    snd (ProcessBatches.loop items processFn batchSize fuel i results)
      = ProcessBatches.Running
    /\ List.length
         (fst (ProcessBatches.loop items processFn batchSize fuel i results))
       = fuel.
Proof.
  intros Hsize Hitems Hfn.
  induction fuel as [|fuel IH]; intros i results Hi; [auto|].
  simpl.
  assert (Hlt : (i <? Z.of_nat (List.length items)) = true).
  { apply Z.ltb_lt. destruct items; [contradiction|]. simpl List.length. lia. }
  rewrite Hlt.
  destruct (Hfn (ProcessBatches.slice items i (i + batchSize))
              (ProcessBatches.batch_index batchSize i)) as [r ->].
  specialize (IH (i + batchSize) (results ++ [r])).
  destruct (ProcessBatches.loop items processFn batchSize fuel
              (i + batchSize) (results ++ [r])) as [calls out].
  simpl in *. destruct IH as [-> ->]; [lia|]. auto.
Qed.

(** X23.  With a batch size of 0 or less and at least one item,
    [processBatches] never settles as long as [processFn] succeeds: after
    any number of iterations the promise is still pending and [processFn]
    was called once per iteration. *)
Theorem processBatches_never_ends {A B E : Type} (items : list A)
    (processFn : list A -> option Z -> B + E) (batchSize : Z) (fuel : nat) :
  batchSize <= 0 -> items <> [] ->
  (forall batch index, exists r, processFn batch index = inl r) ->
  let run := ProcessBatches.processBatches items processFn batchSize fuel in
  snd run = ProcessBatches.Running /\ List.length (fst run) = fuel.
Proof.
  intros Hsize Hitems Hfn run. subst run.
  unfold ProcessBatches.processBatches.
  apply loop_never_ends; auto. lia.
Qed.

Lemma processBatches_never_ends_witness :
  let processFn := fun (batch : list Z) (_ : option Z) =>
                     inl (List.length batch) : nat + string in
  let run := ProcessBatches.processBatches [10; 20; 30] processFn 0 50 in
  snd run = ProcessBatches.Running /\ List.length (fst run) = 50%nat.
Proof.
  intros processFn.
  apply (processBatches_never_ends [10; 20; 30] processFn 0 50).
  - lia.
  - discriminate.
  - intros batch index. eexists. reflexivity.
Defined.
